(** * BPER bank-statement parser: a shallow embedding and its properties

    The development follows [src/ingestion/bper_parser_improved.py], class
    [BPERParser].  Every Python function the properties below talk about is
    translated to a Rocq function of the same name.

    Conventions of the embedding.
    - A Python [str] is a list of code points ([Py.pystr]); literals are
      written [Py.str "..."].
    - A Python [float] holding an amount is represented by the rational number
      its decimal text denotes ([Q]).  The double Python holds is the one
      nearest to that number ([Binary64.rn]); the properties of the sums,
      averages and rollups are stated on these doubles, with the operations
      of [Binary64] (module [InFloats]).
    - [None] is [None] of an [option]; a raised exception is [Py.Raise].
    - The regular expressions of the source are values of [Re.regex], run by
      a small backtracking matcher with the semantics of Python's [re]
      (leftmost match, greedy repetition).  [\d] is the ASCII digits.
*)

From Stdlib Require Import String Ascii Bool Arith NArith ZArith QArith Lia List.
From Stdlib Require Import Qabs Lqa Permutation Sorted.
Import ListNotations.

Set Implicit Arguments.
Close Scope Q_scope.

(* ------------------------------------------------------------------ *)
(** ** Python primitives *)

Module Py.
#[local] Open Scope N_scope.

Definition char := N.
Definition pystr := list char.

(** An ASCII literal as a Python string. *)
Definition str (s : string) : pystr := map N_of_ascii (list_ascii_of_string s).

Definition is_empty (s : pystr) : bool :=
  match s with [] => true | _ :: _ => false end.

Definition in_range (lo hi c : char) : bool := (N.leb lo c && N.leb c hi)%bool.

(** [str.isspace] of one code point, which is also the class [\s] of [re]. *)
Definition isspace (c : char) : bool :=
  (in_range 9 13 c || in_range 28 32 c || N.eqb c 133 || N.eqb c 160
   || N.eqb c 5760 || in_range 8192 8202 c || N.eqb c 8232 || N.eqb c 8233
   || N.eqb c 8239 || N.eqb c 8287 || N.eqb c 12288)%bool.

(** The class [\d], restricted to ASCII. *)
Definition isdigit (c : char) : bool := in_range 48 57 c.

Definition newline : char := 10%N.
Definition euro : char := 8364%N.

Fixpoint dropWhile (p : char -> bool) (s : pystr) : pystr :=
  match s with
  | [] => []
  | c :: s' => if p c then dropWhile p s' else s
  end.

Definition lstrip (s : pystr) : pystr := dropWhile isspace s.
Definition rstrip (s : pystr) : pystr := rev (dropWhile isspace (rev s)).
(** [s.strip()] *)
Definition strip (s : pystr) : pystr := rstrip (lstrip s).

(** [s.split(sep)] for a one-character separator. *)
Fixpoint split (sep : char) (s : pystr) : list pystr :=
  match s with
  | [] => [[]]
  | c :: s' =>
      if N.eqb c sep then [] :: split sep s'
      else match split sep s' with
           | l :: ls => (c :: l) :: ls
           | [] => [[c]]
           end
  end.

Fixpoint startswith (p s : pystr) : bool :=
  match p, s with
  | [], _ => true
  | _ :: _, [] => false
  | a :: p', b :: s' => (N.eqb a b && startswith p' s')%bool
  end.

Fixpoint find_from (sub s : pystr) (i : Z) : Z :=
  if startswith sub s then i
  else match s with
       | [] => (-1)%Z
       | _ :: s' => find_from sub s' (i + 1)%Z
       end.

(** [s.find(sub)]: the offset of the first occurrence, or -1. *)
Definition find (sub s : pystr) : Z := find_from sub s 0%Z.

(** [sub in s] *)
Fixpoint contains (sub s : pystr) : bool :=
  (startswith sub s ||
   match s with
   | [] => false
   | _ :: s' => contains sub s'
   end)%bool.

(** [s.replace(old, new, 1)] *)
Fixpoint replace_first (old new s : pystr) : pystr :=
  if startswith old s then new ++ skipn (length old) s
  else match s with
       | [] => []
       | c :: s' => c :: replace_first old new s'
       end.

(** [s.replace(c, new)] for a one-character [c]. *)
Definition replace_char (c : char) (new s : pystr) : pystr :=
  flat_map (fun x => if N.eqb x c then new else [x]) s.

(** [s.lower()] on the ASCII letters; other code points are kept. *)
Definition lower (s : pystr) : pystr :=
  map (fun c => if in_range 65 90 c then (c + 32)%N else c) s.

(** Exceptions the modelled code can raise, and computations that may raise. *)
Inductive exn := TypeError | KeyError | ValueError | ZeroDivisionError.

Inductive result (A : Type) :=
| Ok (a : A)
| Raise (e : exn).
Arguments Ok {A} a.
Arguments Raise {A} e.

Definition bind {A B} (m : result A) (f : A -> result B) : result B :=
  match m with
  | Ok a => f a
  | Raise e => Raise e
  end.

(** The value of a string of ASCII digits. *)
Definition digits_value (ds : pystr) : Z :=
  fold_left (fun acc c => (10 * acc + (Z.of_N c - 48))%Z) ds 0%Z.

Fixpoint pow10 (n : nat) : positive :=
  match n with
  | O => 1%positive
  | S n' => (10 * pow10 n')%positive
  end.

Fixpoint span (p : char -> bool) (s : pystr) : pystr * pystr :=
  match s with
  | [] => ([], [])
  | c :: s' =>
      if p c then (c :: fst (span p s'), snd (span p s')) else ([], s)
  end.

(** The unsigned decimal texts [float] accepts: digits with at most one
    point and at least one digit. *)
Definition unsigned_decimal (s : pystr) : option Q :=
  let ip := fst (span isdigit s) in
  match snd (span isdigit s) with
  | [] => if is_empty ip then None else Some (inject_Z (digits_value ip))
  | c :: fp =>
      if (N.eqb c 46 && forallb isdigit fp
          && negb (is_empty ip && is_empty fp))%bool
      then Some (Qmake (digits_value (ip ++ fp)) (pow10 (length fp)))
      else None
  end.

(** [float(s)] on decimal texts: [Some q] for the number read, [None] for
    [ValueError].  Exponents, underscores, [inf] and [nan] are outside the
    fragment: the parser only passes texts made of digits and points. *)
Definition float (s : pystr) : option Q :=
  match strip s with
  | c :: s' =>
      if N.eqb c 45 then option_map Qopp (unsigned_decimal s')      (* - *)
      else if N.eqb c 43 then unsigned_decimal s'                   (* + *)
      else unsigned_decimal (c :: s')
  | [] => None
  end.

End Py.

Notation "x <- m ;; k" := (Py.bind m (fun x => k))
  (at level 61, m at next level, right associativity).

(* ------------------------------------------------------------------ *)
(** ** Regular expressions, as Python's [re] runs them *)

Module Re.
Import Py.
#[local] Open Scope nat_scope.

Inductive regex :=
| Lit (l : pystr)                  (* literal text *)
| Rep (p : char -> bool) (n : nat) (* a class exactly n times, [p{n}] *)
| Plus (p : char -> bool)          (* [p+], greedy *)
| Star (p : char -> bool)          (* [p*], greedy *)
| Cat (r1 r2 : regex)
| Grp (r : regex)                  (* a capturing group *)
| Eos.                             (* [$] *)

Fixpoint drop_prefix (l s : pystr) : option pystr :=
  match l, s with
  | [], _ => Some s
  | _ :: _, [] => None
  | a :: l', b :: s' => if N.eqb a b then drop_prefix l' s' else None
  end.

Section Matcher.
Variable A : Type.

Fixpoint rep (p : char -> bool) (n : nat) (s : pystr)
    (k : pystr -> option A) : option A :=
  match n with
  | O => k s
  | S n' =>
      match s with
      | c :: s' => if p c then rep p n' s' k else None
      | [] => None
      end
  end.

(** Greedy: the longest run first, then shorter ones while the
    continuation fails. *)
Fixpoint star (p : char -> bool) (s : pystr)
    (k : pystr -> option A) : option A :=
  match s with
  | c :: s' =>
      if p c then
        match star p s' k with
        | Some r => Some r
        | None => k s
        end
      else k s
  | [] => k []
  end.

Definition plus (p : char -> bool) (s : pystr)
    (k : pystr -> option A) : option A :=
  match s with
  | c :: s' => if p c then star p s' k else None
  | [] => None
  end.

(** [exec r s caps k]: match [r] at the head of [s], then continue with
    [k] on the rest and the groups closed so far. *)
Fixpoint exec (r : regex) (s : pystr) (caps : list pystr)
    (k : pystr -> list pystr -> option A) : option A :=
  match r with
  | Lit l =>
      match drop_prefix l s with
      | Some s' => k s' caps
      | None => None
      end
  | Rep p n => rep p n s (fun s' => k s' caps)
  | Plus p => plus p s (fun s' => k s' caps)
  | Star p => star p s (fun s' => k s' caps)
  | Cat r1 r2 => exec r1 s caps (fun s' caps' => exec r2 s' caps' k)
  | Grp r' =>
      exec r' s caps
        (fun s' caps' => k s' (caps' ++ [firstn (length s - length s') s]))
  | Eos =>
      match s with
      | [] => k s caps
      | [c] => if N.eqb c newline then k s caps else None
      | _ => None
      end
  end.
End Matcher.

(** [re.match(r, s)]: the groups and the text left after the match. *)
Definition mtch (r : regex) (s : pystr) : option (list pystr * pystr) :=
  exec r s [] (fun s' caps => Some (caps, s')).

Definition matches (r : regex) (s : pystr) : bool :=
  match mtch r s with Some _ => true | None => false end.

(** [re.search(r, s)] as a test. *)
Fixpoint search (r : regex) (s : pystr) : bool :=
  (matches r s ||
   match s with
   | [] => false
   | _ :: s' => search r s'
   end)%bool.

(** [re.search(r, s)]: the groups of the leftmost match. *)
Fixpoint search_groups (r : regex) (s : pystr) : option (list pystr) :=
  match mtch r s with
  | Some (caps, _) => Some caps
  | None =>
      match s with
      | [] => None
      | _ :: s' => search_groups r s'
      end
  end.

(** [re.findall(r, s)] for a pattern with one group that never matches the
    empty string: [skip] counts the characters still covered by the last
    match. *)
Fixpoint findall_from (r : regex) (s : pystr) (skip : nat) : list pystr :=
  match s with
  | [] => []
  | _ :: s' =>
      match skip with
      | S n => findall_from r s' n
      | O =>
          match mtch r s with
          | Some (caps, rest) =>
              hd [] caps :: findall_from r s' (length s - length rest - 1)
          | None => findall_from r s' 0
          end
      end
  end.

Definition findall (r : regex) (s : pystr) : list pystr := findall_from r s 0.

(** [re.sub(r, repl, s)] for a pattern that never matches the empty
    string. *)
Fixpoint sub_from (r : regex) (repl s : pystr) (skip : nat) : pystr :=
  match s with
  | [] => []
  | c :: s' =>
      match skip with
      | S n => sub_from r repl s' n
      | O =>
          match mtch r s with
          | Some (_, rest) =>
              match length s - length rest with
              | O => c :: sub_from r repl s' 0
              | S n => repl ++ sub_from r repl s' n
              end
          | None => c :: sub_from r repl s' 0
          end
      end
  end.

Definition sub (r : regex) (repl s : pystr) : pystr := sub_from r repl s 0.

End Re.

Infix ">>" := Re.Cat (at level 62, right associativity).

(* ------------------------------------------------------------------ *)
(** ** [datetime]: calendar dates and [strptime] with the format [%d/%m/%y] *)

Module Datetime.
Import Py.
#[local] Open Scope Z_scope.

Record date := mkdate { year : Z; month : Z; day : Z }.

Definition is_leap (y : Z) : bool :=
  ((y mod 4 =? 0) && (negb (y mod 100 =? 0) || (y mod 400 =? 0)))%bool.

Definition days_in_month (y m : Z) : Z :=
  if (m =? 2) then (if is_leap y then 29 else 28)
  else if ((m =? 4) || (m =? 6) || (m =? 9) || (m =? 11))%bool then 30
  else 31.

(** [date(y, m, d)]: [None] stands for the [ValueError] of a date that does
    not exist. *)
Definition make_date (y m d : Z) : option date :=
  if ((1 <=? y) && (y <=? 9999) && (1 <=? m) && (m <=? 12)
      && (1 <=? d) && (d <=? days_in_month y m))%bool
  then Some (mkdate y m d) else None.

(** [dt.replace(year=y)] *)
Definition replace_year (dt : date) (y : Z) : option date :=
  make_date y (month dt) (day dt).

(** [a < b] on dates. *)
Definition date_ltb (a b : date) : bool :=
  ((year a <? year b)
   || ((year a =? year b)
       && ((month a <? month b)
           || ((month a =? month b) && (day a <? day b)))))%bool.

Definition date_eqb (a b : date) : bool :=
  ((year a =? year b) && (month a =? month b) && (day a =? day b))%bool.

Definition digit (c : char) : Z := Z.of_N c - 48.

(** The directive [%d]: [3[0-1]|[1-2]\d|0[1-9]|[1-9]| [1-9]].  The
    alternatives are tried in this order; as a two-character alternative
    ends in a digit and every directive is followed by [/] or the end, at
    most one of them lets the whole format match. *)
Definition take_day (s : pystr) : option (Z * pystr) :=
  match s with
  | c1 :: c2 :: rest =>
      if ((N.eqb c1 51%N && in_range 48%N 49%N c2)
          || (in_range 49%N 50%N c1 && isdigit c2)
          || (N.eqb c1 48%N && in_range 49%N 57%N c2))%bool
      then Some (10 * digit c1 + digit c2, rest)
      else if in_range 49%N 57%N c1 then Some (digit c1, c2 :: rest)
      else if (N.eqb c1 32%N && in_range 49%N 57%N c2)%bool
           then Some (digit c2, rest)
      else None
  | [c1] => if in_range 49%N 57%N c1 then Some (digit c1, []) else None
  | [] => None
  end.

(** The directive [%m]: [1[0-2]|0[1-9]|[1-9]]. *)
Definition take_month (s : pystr) : option (Z * pystr) :=
  match s with
  | c1 :: c2 :: rest =>
      if ((N.eqb c1 49%N && in_range 48%N 50%N c2)
          || (N.eqb c1 48%N && in_range 49%N 57%N c2))%bool
      then Some (10 * digit c1 + digit c2, rest)
      else if in_range 49%N 57%N c1 then Some (digit c1, c2 :: rest)
      else None
  | [c1] => if in_range 49%N 57%N c1 then Some (digit c1, []) else None
  | [] => None
  end.

(** The directive [%y]: [\d\d], read with the pivot of [strptime]
    (00-68 are 2000-2068, 69-99 are 1969-1999). *)
Definition take_year (s : pystr) : option (Z * pystr) :=
  match s with
  | c1 :: c2 :: rest =>
      if (isdigit c1 && isdigit c2)%bool
      then let yy := 10 * digit c1 + digit c2 in
           Some ((if yy <=? 68 then 2000 + yy else 1900 + yy), rest)
      else None
  | _ => None
  end.

Definition take_slash (s : pystr) : option pystr :=
  match s with
  | c :: rest => if N.eqb c 47%N then Some rest else None
  | [] => None
  end.

(** [datetime.strptime(s, '%d/%m/%y')]; [None] stands for [ValueError]
    (no match, text left over, or a date that does not exist). *)
Definition strptime_dmy (s : pystr) : option date :=
  match take_day s with
  | Some (d, s1) =>
      match take_slash s1 with
      | Some s2 =>
          match take_month s2 with
          | Some (m, s3) =>
              match take_slash s3 with
              | Some s4 =>
                  match take_year s4 with
                  | Some (y, []) => make_date y m d
                  | _ => None
                  end
              | None => None
              end
          | None => None
          end
      | None => None
      end
  | None => None
  end.

(** The directive [%Y]: [\d\d\d\d]. *)
Definition take_year4 (s : pystr) : option (Z * pystr) :=
  match s with
  | c1 :: c2 :: c3 :: c4 :: rest =>
      if (isdigit c1 && isdigit c2 && isdigit c3 && isdigit c4)%bool
      then Some (1000 * digit c1 + 100 * digit c2 + 10 * digit c3 + digit c4,
                 rest)
      else None
  | _ => None
  end.

(** [datetime.strptime(s, '%d/%m/%Y')], as [strptime_dmy]. *)
Definition strptime_dmY (s : pystr) : option date :=
  match take_day s with
  | Some (d, s1) =>
      match take_slash s1 with
      | Some s2 =>
          match take_month s2 with
          | Some (m, s3) =>
              match take_slash s3 with
              | Some s4 =>
                  match take_year4 s4 with
                  | Some (y, []) => make_date y m d
                  | _ => None
                  end
              | None => None
              end
          | None => None
          end
      | None => None
      end
  | None => None
  end.

End Datetime.

(* ------------------------------------------------------------------ *)
(** ** Binary floating point: the arithmetic of Python's [float]

    A double is represented by the rational number it is; an operation
    computes the exact result and rounds it to the nearest double, ties to
    the one with an even significand (IEEE 754 binary64: 53 bits, least
    exponent -1074).  Infinities, NaN and the sign of zero are not
    represented: the amounts stay far from the overflow threshold. *)

Module Binary64.
Import Py.
#[local] Open Scope Z_scope.

(** [q * 2^k] *)
Definition scale (q : Q) (k : Z) : Q :=
  if 0 <=? k then Qmake (Qnum q * 2 ^ k) (Qden q)
  else Qmake (Qnum q) (Qden q * Z.to_pos (2 ^ (- k))).

(** The exponent [a] with [2^a <= |q| < 2^(a+1)], for [q] other than 0. *)
Definition exponent (q : Q) : Z :=
  let a := Z.log2 (Z.abs (Qnum q)) - Z.log2 (Zpos (Qden q)) in
  if Qle_bool 1 (scale (Qabs q) (- a)) then a else a - 1.

(** The integer nearest to [q], ties to the even one. *)
Definition nearest_even (q : Q) : Z :=
  let n := Qnum q in
  let d := Zpos (Qden q) in
  let f := n / d in
  let r := n mod d in
  if 2 * r <? d then f
  else if d <? 2 * r then f + 1
  else if Z.even f then f else f + 1.

(** The double nearest to [q]: [q] is rounded to a multiple of [2^e], where
    [2^e] is the distance between the doubles around [q]. *)
Definition rn (q : Q) : Q :=
  if Qeq_bool q 0 then 0%Q
  else
    let e := Z.max (exponent q - 52) (- 1074) in
    Qred (scale (inject_Z (nearest_even (scale q (- e)))) e).

(** [x + y], [x - y] and [x / y] on floats. *)
Definition add (x y : Q) : Q := rn (x + y)%Q.
Definition sub (x y : Q) : Q := rn (x - y)%Q.
Definition div (x y : Q) : Q := rn (x / y)%Q.

(** [round(x, 2)] on a float: the decimal with two places nearest to [x],
    ties to the even one, then the double nearest to that decimal. *)
Definition round2 (x : Q) : Q := rn (Qmake (nearest_even (x * 100)%Q) 100).

(** The builtin [sum] over floats up to Python 3.11: from the left,
    starting from the integer 0. *)
Definition sum_left (l : list Q) : Q := fold_left add l 0%Q.

(** The builtin [sum] over floats from Python 3.12: Neumaier's compensated
    summation.  The state is the running sum [f] and the compensation [c]. *)
Definition neumaier (st : Q * Q) (x : Q) : Q * Q :=
  let f := fst st in
  let c := snd st in
  let t := add f x in
  if Qle_bool (Qabs x) (Qabs f)
  then (t, add c (add (sub f t) x))
  else (t, add c (add (sub x t) f)).

Definition sum_compensated (l : list Q) : Q :=
  match l with
  | [] => 0%Q
  | x :: l' =>
      let st := fold_left neumaier l' (add 0 x, 0%Q) in
      if Qeq_bool (snd st) 0 then fst st else add (fst st) (snd st)
  end.

End Binary64.

(* ------------------------------------------------------------------ *)
(** ** The parser: [class BPERParser] *)

Module BPERParser.
Import Py Datetime.

(** *** Patterns *)

Definition dot (c : char) : bool := negb (N.eqb c newline).          (* [.] *)
Definition digit_dot (c : char) : bool := (isdigit c || N.eqb c 46%N)%bool.
Definition digit_dot_comma (c : char) : bool :=
  (isdigit c || N.eqb c 46%N || N.eqb c 44%N)%bool.

(** [\d{2}/\d{2}/\d{2}] *)
Definition date_token : Re.regex :=
  Re.Rep isdigit 2 >> Re.Lit (str "/") >> Re.Rep isdigit 2
  >> Re.Lit (str "/") >> Re.Rep isdigit 2.

(** [DATA\s+VALUTA\s+USCITE\s+ENTRATE\s+DESCRIZIONE] *)
Definition table_header : Re.regex :=
  Re.Lit (str "DATA") >> Re.Plus isspace >> Re.Lit (str "VALUTA")
  >> Re.Plus isspace >> Re.Lit (str "USCITE") >> Re.Plus isspace
  >> Re.Lit (str "ENTRATE") >> Re.Plus isspace >> Re.Lit (str "DESCRIZIONE").

(** [\d{2}/\d{2}/\d{2}\s+[\d.,]+\s+SALDO] *)
Definition saldo_row : Re.regex :=
  date_token >> Re.Plus isspace >> Re.Plus digit_dot_comma
  >> Re.Plus isspace >> Re.Lit (str "SALDO").

(** [^(\d{2}/\d{2}/\d{2})\s+(\d{2}/\d{2}/\d{2})\s+(.+)]; the pattern is
    only used with [re.match], where [^] always holds. *)
Definition transaction_start : Re.regex :=
  Re.Grp date_token >> Re.Plus isspace >> Re.Grp date_token
  >> Re.Plus isspace >> Re.Grp (Re.Plus dot).

(** [([\d.]+,\d{2})] *)
Definition amount_pattern : Re.regex :=
  Re.Grp (Re.Plus digit_dot >> Re.Lit (str ",") >> Re.Rep isdigit 2).

(** [\s+] *)
Definition spaces : Re.regex := Re.Plus isspace.

(** [-RIF\.\s*\d+/\d+$] *)
Definition rif_suffix : Re.regex :=
  Re.Lit (str "-RIF.") >> Re.Star isspace >> Re.Plus isdigit
  >> Re.Lit (str "/") >> Re.Plus isdigit >> Re.Eos.

(** [<label>\s*(\d{2}/\d{2}/\d{4})\s*([\d.,]+)\s*€], the patterns
    [saldo_iniziale] and [saldo_finale]. *)
Definition saldo_pattern (label : pystr) : Re.regex :=
  Re.Lit label >> Re.Star isspace
  >> Re.Grp (Re.Rep isdigit 2 >> Re.Lit (str "/") >> Re.Rep isdigit 2
             >> Re.Lit (str "/") >> Re.Rep isdigit 4)
  >> Re.Star isspace >> Re.Grp (Re.Plus digit_dot_comma)
  >> Re.Star isspace >> Re.Lit [euro].

Definition saldo_iniziale : Re.regex := saldo_pattern (str "Saldo iniziale al").
Definition saldo_finale : Re.regex := saldo_pattern (str "Saldo finale al").

(** [<label>\s*([\d.,]+)\s*€], the patterns [totale_entrate] and
    [totale_uscite]. *)
Definition totale_pattern (label : pystr) : Re.regex :=
  Re.Lit label >> Re.Star isspace >> Re.Grp (Re.Plus digit_dot_comma)
  >> Re.Star isspace >> Re.Lit [euro].

Definition totale_entrate_pattern : Re.regex :=
  totale_pattern (str "Totale Entrate").
Definition totale_uscite_pattern : Re.regex :=
  totale_pattern (str "Totale Uscite").

(** *** Field extractors *)

Definition _parse_amount (amount_str : pystr) : Q :=
  if (is_empty amount_str || is_empty (strip amount_str))%bool then 0%Q
  else
    let amount_str := strip (replace_char euro [] (strip amount_str)) in
    let amount_str :=
      replace_char 44%N (str ".") (replace_char 46%N [] amount_str) in
    match float amount_str with
    | Some q => q
    | None => 0%Q
    end.

Definition _parse_date_short (date_str : pystr) : option date :=
  match strptime_dmy date_str with
  | Some dt =>
      if (year dt >? 2030)%Z then replace_year dt (year dt - 100)%Z
      else Some dt
  | None => None
  end.

(** [None] stands for the [None] returned when [strptime] raises. *)
Definition _parse_date (date_str : pystr) : option date :=
  strptime_dmY date_str.

(** *** Amounts of a transaction line *)

Module TransData.
Record t := mk {
  uscita : option Q;
  entrata : option Q;
  importo_netto : Q;
  descrizione : pystr
}.
End TransData.

(** Truth value of an optional amount: [None] and [0.0] are false. *)
Definition truthy (a : option Q) : bool :=
  match a with
  | Some q => negb (Qeq_bool q 0)
  | None => false
  end.

(** The number held by an amount known to be present. *)
Definition amount_of (a : option Q) : Q :=
  match a with
  | Some q => q
  | None => 0%Q
  end.

Definition _parse_transaction_amounts (line : pystr) : TransData.t :=
  let amounts := Re.findall amount_pattern line in
  let description :=
    fold_left (fun d amount => replace_first amount [] d) amounts line in
  let '(uscita, entrata) :=
    match amounts with
    | [] => (None, None)
    | a0 :: more =>
        let first_amount_pos := find a0 line in
        if (first_amount_pos >? 20)%Z
        then (None, Some (_parse_amount a0))
        else (Some (_parse_amount a0),
              match more with
              | a1 :: _ => Some (_parse_amount a1)
              | [] => None
              end)
    end in
  let importo_netto :=
    if truthy entrata then amount_of entrata
    else if truthy uscita then (- amount_of uscita)%Q
    else 0%Q in
  TransData.mk uscita entrata importo_netto (strip description).

(** *** Descriptions and categories *)

Definition _clean_description (description : pystr) : pystr :=
  let description := Re.sub spaces (str " ") description in
  let description := Re.sub rif_suffix [] description in
  strip description.

(** The table of [_suggest_category], in its order of declaration. *)
Definition categories : list (pystr * list pystr) :=
  [ (str "Affitto", [str "affitto"; str "canone affitto"; str "fitto"]);
    (str "Stipendio", [str "stipendio"; str "bonifico o/c"; str "bonifico sepa"]);
    (str "Utenze", [str "italia power"; str "gas"; str "luce"; str "energia"]);
    (str "PayPal", [str "paypal"]);
    (str "Commissioni",
       [str "commissioni"; str "canone mensile"; str "spese su prelievo"]);
    (str "Prelievo", [str "prel. atm"; str "prelievo atm"]);
    (str "Spesa Alimentari", [str "supermercato"; str "conad"]);
    (str "Trasporti", [str "atac"; str "trenitalia"; str "unicocampania"]);
    (str "Ristorazione",
       [str "bar"; str "caffetterie"; str "pizzeria"; str "ristorante"]);
    (str "Salute", [str "farmacia"; str "diagnostica"]);
    (str "Shopping", [str "libraccio"; str "klarna"]);
    (str "Carburante", [str "stazione energas"]);
    (str "Servizi", [str "glovo"; str "sharenow"]) ].

(** The inner loop: [for keyword in keywords: if keyword in d: return]. *)
Fixpoint first_keyword (keywords : list pystr) (d : pystr) : bool :=
  match keywords with
  | [] => false
  | keyword :: more => if contains keyword d then true else first_keyword more d
  end.

(** The outer loop over the table, ending in [return 'Altro']. *)
Fixpoint suggest_in (table : list (pystr * list pystr)) (d : pystr) : pystr :=
  match table with
  | [] => str "Altro"
  | (category, keywords) :: more =>
      if first_keyword keywords d then category else suggest_in more d
  end.

Definition _suggest_category (description : pystr) : pystr :=
  let description_lower := lower description in
  suggest_in categories description_lower.

(** *** Transaction records *)

Inductive movimento := ENTRATA | USCITA.

(** The dictionary of one transaction.  The keys [categoria_suggerita] and
    [numero_progressivo] are added after the record is built, so they are
    optional here. *)
Record Transaction := mkTransaction {
  data_transazione : option date;
  data_valuta : option date;
  importo_uscita : option Q;
  importo_entrata : option Q;
  importo : Q;
  descrizione : pystr;
  tipo_movimento : movimento;
  pagina : nat;
  categoria_suggerita : option pystr;
  numero_progressivo : option nat
}.

Definition set_descrizione (t : Transaction) (d : pystr) : Transaction :=
  mkTransaction (data_transazione t) (data_valuta t) (importo_uscita t)
    (importo_entrata t) (importo t) d (tipo_movimento t) (pagina t)
    (categoria_suggerita t) (numero_progressivo t).

Definition set_categoria (t : Transaction) (c : pystr) : Transaction :=
  mkTransaction (data_transazione t) (data_valuta t) (importo_uscita t)
    (importo_entrata t) (importo t) (descrizione t) (tipo_movimento t)
    (pagina t) (Some c) (numero_progressivo t).

Definition set_numero (t : Transaction) (i : nat) : Transaction :=
  mkTransaction (data_transazione t) (data_valuta t) (importo_uscita t)
    (importo_entrata t) (importo t) (descrizione t) (tipo_movimento t)
    (pagina t) (categoria_suggerita t) (Some i).

(** [x > 0] and [x < 0] on amounts. *)
Definition Qpositive (x : Q) : bool := negb (Qle_bool x 0).
Definition Qnegative (x : Q) : bool := negb (Qle_bool 0 x).

(** *** Record reconstruction on one page *)

(** The record built at a transaction-start line, from the three groups of
    [transaction_start]. *)
Definition new_transaction (data_trans data_valuta resto_riga : pystr)
    (page_num : nat) : Transaction :=
  let trans_data := _parse_transaction_amounts resto_riga in
  {| data_transazione := _parse_date_short data_trans;
     data_valuta := _parse_date_short data_valuta;
     importo_uscita := TransData.uscita trans_data;
     importo_entrata := TransData.entrata trans_data;
     importo := TransData.importo_netto trans_data;
     descrizione := TransData.descrizione trans_data;
     tipo_movimento :=
       if Qpositive (TransData.importo_netto trans_data)
       then ENTRATA else USCITA;
     pagina := page_num;
     categoria_suggerita := None;
     numero_progressivo := None |}.

(** The record a stripped line starts, if it is a transaction-start line. *)
Definition start_of_line (line : pystr) (page_num : nat) : option Transaction :=
  match Re.mtch transaction_start line with
  | Some (caps, _) =>
      Some (new_transaction (nth 0 caps []) (nth 1 caps []) (nth 2 caps [])
              page_num)
  | None => None
  end.

(** The state of the loop over the table's lines: the records closed so
    far and the record in progress. *)
Definition loop_state := (list Transaction * option Transaction)%type.

Definition flush (st : loop_state) : list Transaction :=
  match snd st with
  | Some current => fst st ++ [current]
  | None => fst st
  end.

(** One turn of the loop [for i in range(start_idx, end_idx)]. *)
Definition step (page_num : nat) (st : loop_state) (raw : pystr) : loop_state :=
  let line := strip raw in
  if is_empty line then st
  else if Re.matches saldo_row line then st
  else
    match start_of_line line page_num with
    | Some t => (flush st, Some t)
    | None =>
        match snd st with
        | Some current =>
            (fst st,
             Some (set_descrizione current
                     (descrizione current ++ str " " ++ line)))
        | None => st
        end
    end.

(** The records of the table's lines, before the descriptions are cleaned. *)
Definition reconstruct (page_num : nat) (lines : list pystr) : list Transaction :=
  flush (fold_left (step page_num) lines ([], None)).

(** The last loop of the function: clean the description, suggest a
    category. *)
Definition finish (t : Transaction) : Transaction :=
  let t := set_descrizione t (_clean_description (descrizione t)) in
  set_categoria t (_suggest_category (descrizione t)).

Fixpoint find_index (A : Type) (p : A -> bool) (l : list A) : option nat :=
  match l with
  | [] => None
  | x :: l' =>
      if p x then Some 0
      else match find_index p l' with
           | Some i => Some (S i)
           | None => None
           end
  end.

Definition is_footer (line : pystr) : bool :=
  (contains (str "Dati da utilizzare") line
   || contains (str "Mod. 05.13.0011") line)%bool.

(** The lines [lines[start_idx:end_idx]] of the movements table, if the
    page has its header. *)
Definition table_lines (lines : list pystr) : option (list pystr) :=
  match find_index (Re.search table_header) lines with
  | None => None
  | Some i =>
      let start_idx := S i in
      let end_idx :=
        match find_index is_footer (skipn start_idx lines) with
        | Some j => start_idx + j
        | None => length lines
        end in
      Some (firstn (end_idx - start_idx) (skipn start_idx lines))
  end.

Definition _extract_transactions_from_page (page_text : pystr)
    (page_num : nat) : list Transaction :=
  let lines := split newline page_text in
  match table_lines lines with
  | None => []
  | Some body => map finish (reconstruct page_num body)
  end.

(** *** Document assembly *)

(** [enumerate(l, i)] *)
Fixpoint enumerate (A : Type) (i : nat) (l : list A) : list (nat * A) :=
  match l with
  | [] => []
  | x :: l' => (i, x) :: enumerate (S i) l'
  end.

(** [a < b] on sort keys: comparing [None] with anything raises. *)
Definition key_lt (a b : option date) : result bool :=
  match a, b with
  | Some x, Some y => Ok (date_ltb x y)
  | _, _ => Raise TypeError
  end.

(** [list.sort(key=...)] is stable and compares keys with [<] only.  It is
    modelled by a stable insertion sort on the same comparison: a list of
    fewer than two elements is never compared, any other list has every key
    compared at least once, so both raise on the same lists, and where they
    return, the result of a stable sort is unique. *)
Fixpoint insert (x : Transaction) (l : list Transaction)
    : result (list Transaction) :=
  match l with
  | [] => Ok [x]
  | y :: l' =>
      b <- key_lt (data_transazione y) (data_transazione x) ;;
      if b then (l'' <- insert x l' ;; Ok (y :: l''))
      else Ok (x :: y :: l')
  end.

Fixpoint sort_by_date (l : list Transaction) : result (list Transaction) :=
  match l with
  | [] => Ok []
  | x :: l' => s <- sort_by_date l' ;; insert x s
  end.

(** The records of all pages, in page order. *)
Definition all_pages (page_texts : list pystr) : list Transaction :=
  flat_map (fun p => _extract_transactions_from_page (snd p) (fst p))
    (enumerate 1 page_texts).

Definition _extract_all_transactions (page_texts : list pystr)
    : result (list Transaction) :=
  let all_transactions := all_pages page_texts in
  sorted <- sort_by_date all_transactions ;;
  Ok (map (fun p => set_numero (snd p) (fst p)) (enumerate 1 sorted)).
(** *** Statistics *)

Record CategoryStats := mkCategoryStats {
  numero : nat;
  totale : Q;
  transazioni : list nat
}.

Record Statistics := mkStatistics {
  numero_transazioni : nat;
  numero_entrate : nat;
  numero_uscite : nat;
  totale_entrate : Q;
  totale_uscite : Q;
  saldo_movimento : Q;
  media_entrate : Q;
  media_uscite : Q;
  max_entrata : Q;
  max_uscita : Q;
  categorie : list (pystr * CategoryStats)
}.

(** [sum(...)] over amounts and over counts: from 0, left to right. *)
Definition py_sum (l : list Q) : Q := fold_left Qplus l 0%Q.
Definition py_count (l : list nat) : nat := fold_left Nat.add l 0.

(** [max(...)] and [min(...)]: [ValueError] on an empty sequence, else the
    first greatest (least) element. *)
Definition py_max (l : list Q) : result Q :=
  match l with
  | [] => Raise ValueError
  | x :: l' => Ok (fold_left (fun m y => if Qpositive (y - m) then y else m) l' x)
  end.

Definition py_min (l : list Q) : result Q :=
  match l with
  | [] => Raise ValueError
  | x :: l' => Ok (fold_left (fun m y => if Qnegative (y - m) then y else m) l' x)
  end.

(** [x / n] for a count [n]. *)
Definition py_div (x : Q) (n : nat) : result Q :=
  match n with
  | O => Raise ZeroDivisionError
  | S _ => Ok (x / inject_Z (Z.of_nat n))%Q
  end.

(** [round(x, 2)]: to the nearest hundredth, ties to the even one. *)
Definition round_half_even (q : Q) : Z :=
  let n := Qnum q in
  let d := Zpos (Qden q) in
  let f := (n / d)%Z in
  let r := (n mod d)%Z in
  if (2 * r <? d)%Z then f
  else if (d <? 2 * r)%Z then (f + 1)%Z
  else if Z.even f then f else (f + 1)%Z.

Definition round2 (q : Q) : Q := Qmake (round_half_even (q * 100)%Q) 100.

Definition pystr_eqb (a b : pystr) : bool :=
  if list_eq_dec N.eq_dec a b then true else false.

(** [cat in d] *)
Fixpoint has_key (A : Type) (cat : pystr) (d : list (pystr * A)) : bool :=
  match d with
  | [] => false
  | (k, _) :: d' => if pystr_eqb k cat then true else has_key cat d'
  end.

(** Update of the entry [d[cat]] in place. *)
Fixpoint modify (A : Type) (cat : pystr) (f : A -> A) (d : list (pystr * A))
    : list (pystr * A) :=
  match d with
  | [] => []
  | (k, v) :: d' =>
      if pystr_eqb k cat then (k, f v) :: d' else (k, v) :: modify cat f d'
  end.

(** The body of [for trans in transactions] over the category table. *)
Definition add_to_category (cats : list (pystr * CategoryStats))
    (trans : Transaction) : result (list (pystr * CategoryStats)) :=
  let cat :=
    match categoria_suggerita trans with
    | Some c => c
    | None => str "Altro"
    end in
  let cats :=
    if has_key cat cats then cats
    else cats ++ [(cat, mkCategoryStats 0 0%Q [])] in
  match numero_progressivo trans with
  | Some n =>
      Ok (modify cat
            (fun c => mkCategoryStats (numero c + 1)
                        (totale c + importo trans)%Q
                        (transazioni c ++ [n]))
            cats)
  | None => Raise KeyError
  end.

Fixpoint category_loop (transactions : list Transaction)
    (cats : list (pystr * CategoryStats))
    : result (list (pystr * CategoryStats)) :=
  match transactions with
  | [] => Ok cats
  | trans :: more =>
      cats' <- add_to_category cats trans ;; category_loop more cats'
  end.

(** [None] stands for the empty dictionary returned for no transactions. *)
Definition _calculate_statistics (transactions : list Transaction)
    : result (option Statistics) :=
  match transactions with
  | [] => Ok None
  | _ :: _ =>
      let entrate :=
        map importo (filter (fun t => Qpositive (importo t)) transactions) in
      let uscite :=
        map importo (filter (fun t => Qnegative (importo t)) transactions) in
      let numero_entrate := py_count (map (fun _ => 1) entrate) in
      let numero_uscite := py_count (map (fun _ => 1) uscite) in
      let totale_entrate := py_sum entrate in
      let totale_uscite := Qabs (py_sum uscite) in
      e <- (if 0 <? numero_entrate
            then (m <- py_div totale_entrate numero_entrate ;;
                  x <- py_max entrate ;;
                  Ok (round2 m, x))
            else Ok (0%Q, 0%Q)) ;;
      u <- (if 0 <? numero_uscite
            then (m <- py_div totale_uscite numero_uscite ;;
                  x <- py_min uscite ;;
                  Ok (round2 m, Qabs x))
            else Ok (0%Q, 0%Q)) ;;
      cats <- category_loop transactions [] ;;
      Ok (Some {| numero_transazioni := length transactions;
                  numero_entrate := numero_entrate;
                  numero_uscite := numero_uscite;
                  totale_entrate := totale_entrate;
                  totale_uscite := totale_uscite;
                  saldo_movimento := py_sum (map importo transactions);
                  media_entrate := fst e;
                  media_uscite := fst u;
                  max_entrata := snd e;
                  max_uscita := snd u;
                  categorie := cats |})
  end.

(** The category rollups of a result: none for the empty dictionary. *)
Definition rollups (stats : option Statistics) : list (pystr * CategoryStats) :=
  match stats with
  | Some s => categorie s
  | None => []
  end.

(** *** Statistics, with the arithmetic of floats

    The same function, with each operation on amounts as Python carries it
    out on doubles.  Comparisons, [abs], [max] and [min] are exact on
    doubles and are those above. *)

Module InFloats.

(** The double a record holds under ['importo']: the one nearest to its
    amount. *)
Definition importo_float (t : Transaction) : Q := Binary64.rn (importo t).

(** [t['importo'] for t in transactions if t['importo'] > 0], and the same
    with [< 0]. *)
Definition entrate (transactions : list Transaction) : list Q :=
  map importo_float
    (filter (fun t => Qpositive (importo_float t)) transactions).
Definition uscite (transactions : list Transaction) : list Q :=
  map importo_float
    (filter (fun t => Qnegative (importo_float t)) transactions).

(** [x / n] for a float [x] and a count [n]. *)
Definition py_div (x : Q) (n : nat) : result Q :=
  match n with
  | O => Raise ZeroDivisionError
  | S _ => Ok (Binary64.div x (inject_Z (Z.of_nat n)))
  end.

(** The body of [for trans in transactions] over the category table. *)
Definition add_to_category (cats : list (pystr * CategoryStats))
    (trans : Transaction) : result (list (pystr * CategoryStats)) :=
  let cat :=
    match categoria_suggerita trans with
    | Some c => c
    | None => str "Altro"
    end in
  let cats :=
    if has_key cat cats then cats
    else cats ++ [(cat, mkCategoryStats 0 0%Q [])] in
  match numero_progressivo trans with
  | Some n =>
      Ok (modify cat
            (fun c => mkCategoryStats (numero c + 1)
                        (Binary64.add (totale c) (importo_float trans))
                        (transazioni c ++ [n]))
            cats)
  | None => Raise KeyError
  end.

Fixpoint category_loop (transactions : list Transaction)
    (cats : list (pystr * CategoryStats))
    : result (list (pystr * CategoryStats)) :=
  match transactions with
  | [] => Ok cats
  | trans :: more =>
      cats' <- add_to_category cats trans ;; category_loop more cats'
  end.

Section Aggregator.

(** The builtin [sum] over floats: [Binary64.sum_left] up to Python 3.11,
    [Binary64.sum_compensated] from Python 3.12. *)
Variable builtin_sum : list Q -> Q.

Definition _calculate_statistics (transactions : list Transaction)
    : result (option Statistics) :=
  match transactions with
  | [] => Ok None
  | _ :: _ =>
      let numero_entrate :=
        py_count (map (fun _ => 1) (entrate transactions)) in
      let numero_uscite :=
        py_count (map (fun _ => 1) (uscite transactions)) in
      let totale_entrate := builtin_sum (entrate transactions) in
      let totale_uscite := Qabs (builtin_sum (uscite transactions)) in
      e <- (if 0 <? numero_entrate
            then (m <- py_div totale_entrate numero_entrate ;;
                  x <- py_max (entrate transactions) ;;
                  Ok (Binary64.round2 m, x))
            else Ok (0%Q, 0%Q)) ;;
      u <- (if 0 <? numero_uscite
            then (m <- py_div totale_uscite numero_uscite ;;
                  x <- py_min (uscite transactions) ;;
                  Ok (Binary64.round2 m, Qabs x))
            else Ok (0%Q, 0%Q)) ;;
      cats <- category_loop transactions [] ;;
      Ok (Some {| numero_transazioni := length transactions;
                  numero_entrate := numero_entrate;
                  numero_uscite := numero_uscite;
                  totale_entrate := totale_entrate;
                  totale_uscite := totale_uscite;
                  saldo_movimento :=
                    builtin_sum (map importo_float transactions);
                  media_entrate := fst e;
                  media_uscite := fst u;
                  max_entrata := snd e;
                  max_uscita := snd u;
                  categorie := cats |})
  end.

End Aggregator.

End InFloats.

(** *** Account summary *)

(** The dictionary [_extract_summary] returns; an absent key is [None]. *)
Module Summary.
Record balance := mkbalance { data : option date; importo : Q }.
Record t := mk {
  saldo_iniziale : option balance;
  saldo_finale : option balance;
  totale_entrate : option Q;
  totale_uscite : option Q;
  variazione : option Q
}.
End Summary.

(** The entry built from the two groups of a balance match.  The amount is
    kept as the number its text denotes; the double Python holds is the one
    nearest to it. *)
Definition balance_of (m : option (list pystr)) : option Summary.balance :=
  match m with
  | Some groups =>
      Some (Summary.mkbalance (_parse_date (nth 0 groups []))
              (_parse_amount (nth 1 groups [])))
  | None => None
  end.

(** The entry built from the group of a total match. *)
Definition total_of (m : option (list pystr)) : option Q :=
  match m with
  | Some groups => Some (_parse_amount (nth 0 groups []))
  | None => None
  end.

Definition _extract_summary (text : pystr) : Summary.t :=
  let saldo_init := balance_of (Re.search_groups saldo_iniziale text) in
  let saldo_fin := balance_of (Re.search_groups saldo_finale text) in
  let tot_entrate := total_of (Re.search_groups totale_entrate_pattern text) in
  let tot_uscite := total_of (Re.search_groups totale_uscite_pattern text) in
  let variazione :=
    match saldo_init, saldo_fin with
    | Some i, Some f =>
        Some (Binary64.round2
                (Binary64.sub (Binary64.rn (Summary.importo f))
                   (Binary64.rn (Summary.importo i))))
    | _, _ => None
    end in
  Summary.mk saldo_init saldo_fin tot_entrate tot_uscite variazione.

End BPERParser.

(* ------------------------------------------------------------------ *)
(** ** The importer: [class BPERImporter] of [bper_integration.py] *)

Module BPERImporter.
Import Py.

(** [self.categoria_mapping], in its order of declaration. *)
Definition categoria_mapping : list (pystr * pystr) :=
  [ (str "Affitto", str "Affitto Incassato");
    (str "Stipendio", str "Stipendio Tirocinio");
    (str "Utenze", str "Utenze Casa");
    (str "PayPal", str "Acquisti Online");
    (str "Commissioni", str "Commissioni Bancarie");
    (str "Prelievo", str "Prelievo Contanti");
    (str "Spesa Alimentari", str "Cibo e Spesa");
    (str "Trasporti", str "Trasporti");
    (str "Ristorazione", str "Svago e Intrattenimento");
    (str "Salute", str "Salute e Benessere");
    (str "Shopping", str "Shopping");
    (str "Carburante", str "Trasporti");
    (str "Servizi", str "Servizi Digitali");
    (str "Altro", str "Altro Personale") ].

(** [d.get(key)] on a dictionary of strings. *)
Fixpoint get (key : pystr) (d : list (pystr * pystr)) : option pystr :=
  match d with
  | [] => None
  | (k, v) :: d' => if BPERParser.pystr_eqb k key then Some v else get key d'
  end.

(** The two lookups of [_import_transactions]:
    [trans_data.get('categoria_suggerita', 'Altro')], then
    [self.categoria_mapping.get(cat_suggerita, 'Altro Personale')]. *)
Definition cat_sistema (trans_data : BPERParser.Transaction) : pystr :=
  let cat_suggerita :=
    match BPERParser.categoria_suggerita trans_data with
    | Some c => c
    | None => str "Altro"
    end in
  match get cat_suggerita categoria_mapping with
  | Some c => c
  | None => str "Altro Personale"
  end.

End BPERImporter.

(* ------------------------------------------------------------------ *)
(** ** Vocabulary of the properties *)

Import Py Datetime BPERParser.

(** How the amounts of a record relate: nothing set and a net of zero, one
    side set and the net its signed value, or both sides set and the net the
    inflow unless that is zero. *)
Definition amounts_shape (u e : option Q) (net : Q) : Prop :=
  match u, e with
  | None, None => (net == 0)%Q
  | Some u, None => (net == - u)%Q
  | None, Some e => (net == e)%Q
  | Some u, Some e => (~ (e == 0)%Q -> (net == e)%Q) /\ ((e == 0)%Q -> (net == - u)%Q)
  end.

(** The amount fields of the record are those parsed from [resto], the
    remainder of a transaction-start line. *)
Definition amounts_from (resto : pystr) (t : Transaction) : Prop :=
  importo_uscita t = TransData.uscita (_parse_transaction_amounts resto)
  /\ importo_entrata t = TransData.entrata (_parse_transaction_amounts resto)
  /\ importo t = TransData.importo_netto (_parse_transaction_amounts resto).

(** The amount fields of the record have one of the shapes above. *)
Definition has_amounts_shape (t : Transaction) : Prop :=
  amounts_shape (importo_uscita t) (importo_entrata t) (importo t).

(** The line has two or more money tokens, the first at offset 20 or
    before. *)
Definition two_columns (resto : pystr) : Prop :=
  2 <= length (Re.findall amount_pattern resto)
  /\ (find (hd [] (Re.findall amount_pattern resto)) resto <= 20)%Z.

(** The invariant of the loop over the table's lines: [P] holds of the
    records closed so far and of the record in progress. *)
Definition state_ok (P : Transaction -> Prop) (st : loop_state) : Prop :=
  Forall P (fst st) /\ forall c, snd st = Some c -> P c.

(** [k] occurs somewhere inside [d]. *)
Definition substring (k d : pystr) : Prop :=
  exists before after, d = before ++ k ++ after.


(** Texts made of ASCII digits, and texts made of white space. *)
Definition digits (s : pystr) : Prop := Forall (fun c => isdigit c = true) s.
Definition blank (s : pystr) : Prop := Forall (fun c => isspace c = true) s.

(** A money token [D{1,3}(.DDD)*,DD], given by its leading group, its
    groups of thousands and its two decimals. *)
Definition money_token (g0 : pystr) (gs : list pystr) (c1 c2 : char) : pystr :=
  g0 ++ flat_map (fun g => 46%N :: g) gs ++ [44%N; c1; c2].

(** The parts are those of a money token: one to three digits, groups of
    three digits, two decimals. *)
Definition money_token_ok (g0 : pystr) (gs : list pystr) (c1 c2 : char) : Prop :=
  1 <= length g0 <= 3 /\ digits g0
  /\ Forall (fun g => length g = 3 /\ digits g) gs
  /\ digits [c1; c2].

(** The number a money token denotes: its digits before the comma as an
    integer, plus its two decimals as hundredths. *)
Definition money_value (g0 : pystr) (gs : list pystr) (c1 c2 : char) : Q :=
  (inject_Z (digits_value (g0 ++ concat gs))
   + Qmake (digits_value [c1; c2]) 100)%Q.

(** The text [_parse_amount] hands to [float]. *)
Definition normalised (amount_str : pystr) : pystr :=
  replace_char 44%N (str ".")
    (replace_char 46%N [] (strip (replace_char euro [] (strip amount_str)))).

(** The record carries a parsed transaction date. *)
Definition has_date (t : Transaction) : Prop := data_transazione t <> None.


(** [a] is not dated after [b]. *)
Definition not_after (a b : Transaction) : Prop :=
  match data_transazione a, data_transazione b with
  | Some x, Some y => date_ltb y x = false
  | _, _ => False
  end.

(** The record is dated [d]. *)
Definition dated (d : date) (t : Transaction) : bool :=
  match data_transazione t with
  | Some x => date_eqb x d
  | None => false
  end.

(** The record without its sequence number. *)
Definition unnumbered (t : Transaction) : Transaction :=
  mkTransaction (data_transazione t) (data_valuta t) (importo_uscita t)
    (importo_entrata t) (importo t) (descrizione t) (tipo_movimento t)
    (pagina t) (categoria_suggerita t) None.


(** The record carries its sequence number. *)
Definition numbered (t : Transaction) : Prop := numero_progressivo t <> None.

(** The sum of a list of amounts. *)
Definition Qsum (l : list Q) : Q := fold_right Qplus 0%Q l.

(** The net amounts of the inflow and of the outflow records. *)
Definition inflows (txs : list Transaction) : list Q :=
  map importo (filter (fun t => Qpositive (importo t)) txs).
Definition outflows (txs : list Transaction) : list Q :=
  map importo (filter (fun t => Qnegative (importo t)) txs).

(** The totals and the counts of the category rollups. *)
Definition rollup_totals (stats : option Statistics) : list Q :=
  map (fun c => totale (snd c)) (rollups stats).
Definition rollup_counts (stats : option Statistics) : list nat :=
  map (fun c => numero (snd c)) (rollups stats).

(** The same over a category table. *)
Definition table_total (d : list (pystr * CategoryStats)) : Q :=
  Qsum (map (fun c => totale (snd c)) d).
Definition table_count (d : list (pystr * CategoryStats)) : nat :=
  fold_right Nat.add 0 (map (fun c => numero (snd c)) d).

(** [m] is a greatest element of [l]. *)
Definition greatest (m : Q) (l : list Q) : Prop :=
  In m l /\ Forall (fun y => (y <= m)%Q) l.

(** [m] is a least element of [l]. *)
Definition least (m : Q) (l : list Q) : Prop :=
  In m l /\ Forall (fun y => (m <= y)%Q) l.

(** The average of a population, as the aggregator rounds it. *)
Definition average (total : Q) (count : nat) : Q :=
  round2 (total / inject_Z (Z.of_nat count))%Q.

(** The texts a pattern can match: [matched r t rest] says that [r] can
    consume [t] when [rest] follows it. *)
Fixpoint matched (r : Re.regex) (t rest : pystr) : Prop :=
  match r with
  | Re.Lit l => t = l
  | Re.Rep p n => length t = n /\ forallb p t = true
  | Re.Plus p => t <> [] /\ forallb p t = true
  | Re.Star p => forallb p t = true
  | Re.Cat r1 r2 =>
      exists a b, t = a ++ b /\ matched r1 a (b ++ rest) /\ matched r2 b rest
  | Re.Grp r' => matched r' t rest
  | Re.Eos => t = [] /\ (rest = [] \/ rest = [newline])
  end.

(** The pattern has no capturing group. *)
Fixpoint group_free (r : Re.regex) : bool :=
  match r with
  | Re.Cat r1 r2 => group_free r1 && group_free r2
  | Re.Grp _ => false
  | _ => true
  end.

(** The number of hundredths a money token stands for: its digits, read as
    one number. *)
Definition hundredths (tok : pystr) : Z := digits_value (filter isdigit tok).

(** The two columns are never negative, a positive net amount is the inflow
    column and a negative one is the outflow column with its sign turned. *)
Definition columns_agree (u e : option Q) (net : Q) : Prop :=
  (forall q, u = Some q -> (0 <= q)%Q)
  /\ (forall q, e = Some q -> (0 <= q)%Q)
  /\ ((0 < net)%Q -> e = Some net)
  /\ ((net < 0)%Q -> exists q, u = Some q /\ net = (- q)%Q).

(** The movement type is the one the sign of the net amount gives. *)
Definition type_by_sign (t : Transaction) : Prop :=
  tipo_movimento t = if Qpositive (importo t) then ENTRATA else USCITA.

(** What a record of page [page_num] carries before it is finished. *)
Definition fresh_record (page_num : nat) (t : Transaction) : Prop :=
  columns_agree (importo_uscita t) (importo_entrata t) (importo t)
  /\ type_by_sign t
  /\ pagina t = page_num
  /\ categoria_suggerita t = None
  /\ numero_progressivo t = None.

(** Every white-space character of the text is a space, and the character
    after it, if any, is not white space. *)
Fixpoint single_spaced (s : pystr) : Prop :=
  match s with
  | [] => True
  | c :: s' =>
      (isspace c = true ->
       c = 32%N /\ match s' with [] => True | d :: _ => isspace d = false end)
      /\ single_spaced s'
  end.

(** The text whose lines are [lines]: [chr(10).join(lines)]. *)
Fixpoint join_lines (lines : list pystr) : pystr :=
  match lines with
  | [] => []
  | l :: more =>
      match more with
      | [] => l
      | _ :: _ => l ++ newline :: join_lines more
      end
  end.

(** The line has no line end inside. *)
Definition one_line (l : pystr) : Prop := ~ In newline l.

(** The record a raw line of the table opens, if it opens one: the line is
    not blank, is not a balance row and is a transaction-start line. *)
Definition opens_record (page_num : nat) (raw : pystr) : option Transaction :=
  if (is_empty (strip raw) || Re.matches saldo_row (strip raw))%bool then None
  else start_of_line (strip raw) page_num.

(** The line is neither blank nor a balance row: when it opens no record it
    continues the description of the record in progress. *)
Definition continues (raw : pystr) : bool :=
  (negb (is_empty (strip raw)) && negb (Re.matches saldo_row (strip raw)))%bool.

(** The description of a record after the continuation lines [conts]. *)
Definition merged_description (d : pystr) (conts : list pystr) : pystr :=
  fold_left (fun d c => d ++ str " " ++ strip c) (filter continues conts) d.

(** [a] is on the page of [b] or on an earlier one. *)
Definition page_le (a b : Transaction) : Prop := pagina a <= pagina b.

(** The category a record is counted under: its suggested category, or
    [Altro] when it has none. *)
Definition category_of (t : Transaction) : pystr :=
  match categoria_suggerita t with
  | Some c => c
  | None => str "Altro"
  end.

(** The records counted under [c], in the order of the list. *)
Definition in_category (c : pystr) (txs : list Transaction) : list Transaction :=
  filter (fun t => pystr_eqb (category_of t) c) txs.

(** [d.get(cat)] on a category table. *)
Fixpoint entry (cat : pystr) (d : list (pystr * CategoryStats))
    : option CategoryStats :=
  match d with
  | [] => None
  | (k, v) :: d' => if pystr_eqb k cat then Some v else entry cat d'
  end.

(** The groups a pattern closes while it matches [t] before [rest], in the
    order they are closed. *)
Fixpoint captures (r : Re.regex) (t rest : pystr) (gs : list pystr) : Prop :=
  match r with
  | Re.Cat r1 r2 =>
      exists a b g1 g2,
        t = a ++ b /\ gs = g1 ++ g2
        /\ captures r1 a (b ++ rest) g1 /\ captures r2 b rest g2
  | Re.Grp r' => exists g, gs = g ++ [t] /\ captures r' t rest g
  | _ => gs = [] /\ matched r t rest
  end.

(** The text is made of ASCII characters. *)
Definition ascii_text (s : pystr) : Prop := Forall (fun c => (c < 128)%N) s.

(** The summary with no key. *)
Definition empty_summary : Summary.t := Summary.mk None None None None None.

(** The sum a category accumulates with [+=]: over the doubles of the
    records [l], from the left, starting from the integer 0. *)
Definition running_total (l : list Transaction) : Q :=
  fold_left Binary64.add (map InFloats.importo_float l) 0%Q.

(** The rollup [r] is the one of the records [l]: their number, the running
    total of their net amounts and their sequence numbers, in order. *)
Definition rollup_of (r : CategoryStats) (l : list Transaction) : Prop :=
  numero r = length l
  /\ totale r = running_total l
  /\ map Some (transazioni r) = map numero_progressivo l.

(** The table [cats] holds, for each category, the rollup of the records
    [txs] counted under it, and no entry for a category without records. *)
Definition rollups_of (cats : list (pystr * CategoryStats))
    (txs : list Transaction) : Prop :=
  NoDup (map fst cats)
  /\ forall c,
       match entry c cats with
       | Some r => in_category c txs <> [] /\ rollup_of r (in_category c txs)
       | None => in_category c txs = []
       end.


(** The average of a population: [round(total / count, 2)] on floats. *)
Definition float_average (total : Q) (count : nat) : Q :=
  Binary64.round2 (Binary64.div total (inject_Z (Z.of_nat count))).

(** The totals of the category rollups and the balance of the movements,
    for a result. *)
Definition totals_and_balance (r : result (option Statistics)) : list Q * Q :=
  match r with
  | Ok (Some s) => (map (fun c => totale (snd c)) (categorie s), saldo_movimento s)
  | _ => ([], 0%Q)
  end.

Section DateTokens.
Open Scope Z_scope.

(** A number below 100 written with two digits. *)
Definition two_digits (n : Z) : pystr :=
  [Z.to_N (48 + n / 10); Z.to_N (48 + n mod 10)].

(** The token [DD/MM/YY]. *)
Definition date_text (dd mm yy : Z) : pystr :=
  two_digits dd ++ str "/" ++ two_digits mm ++ str "/" ++ two_digits yy.

(** The full year a two-digit year stands for. *)
Definition resolved_year (yy : Z) : Z :=
  if yy <=? 30 then 2000 + yy else 1900 + yy.

(** [DD/MM/YY] names a day of the calendar. *)
Definition valid_token (dd mm yy : Z) : Prop :=
  0 <= yy <= 99 /\ 1 <= mm <= 12
  /\ 1 <= dd <= days_in_month (resolved_year yy) mm.

(** The date is a day of the calendar. *)
Definition calendar_day (d : date) : Prop :=
  1 <= year d <= 9999 /\ 1 <= month d <= 12
  /\ 1 <= day d <= days_in_month (year d) (month d).

(** A number below 10000 written with four digits. *)
Definition four_digits (n : Z) : pystr :=
  [Z.to_N (48 + n / 1000); Z.to_N (48 + (n / 100) mod 10);
   Z.to_N (48 + (n / 10) mod 10); Z.to_N (48 + n mod 10)].

(** The text [DD/MM/YYYY]. *)
Definition long_date_text (dd mm yyyy : Z) : pystr :=
  two_digits dd ++ str "/" ++ two_digits mm ++ str "/" ++ four_digits yyyy.

End DateTokens.

(** *** Inputs of the examples *)

Definition c1_line : pystr := str "BONIFICO A VOSTRO FAVORE 1.500,00 COMM 2,00".
Definition c1_two_columns : pystr := str "10,00 20,00 GIROCONTO".

Definition c2_page : pystr :=
  str "DATA VALUTA USCITE ENTRATE DESCRIZIONE" ++ [newline]
  ++ str "01/03/24 01/03/24 10,00 20,00 GIROCONTO".

(** The record of the line of [c2_page]. *)
Definition c2_record : Transaction :=
  finish (new_transaction (str "01/03/24") (str "01/03/24")
            (str "10,00 20,00 GIROCONTO") 1).

Definition c2_saldo_row : pystr := str "01/03/24 1.000,00 SALDO INIZIALE".

Definition c10_both : pystr := str "01/03/24 01/03/24 10,00 0,00 STORNO".
Definition c10_inflow_only : pystr :=
  str "01/03/24 01/03/24 COMMISSIONI BONIFICO ESTERO 0,00".

Definition c3_page : pystr :=
  str "DATA VALUTA USCITE ENTRATE DESCRIZIONE" ++ [newline]
  ++ str "31/02/24 01/03/24 10,00 PRELIEVO ATM" ++ [newline]
  ++ str "01/03/24 01/03/24 20,00 BAR".

Definition c6_pages : list pystr :=
  [ str "DATA VALUTA USCITE ENTRATE DESCRIZIONE" ++ [newline]
    ++ str "05/03/24 05/03/24 20,00 BAR" ++ [newline]
    ++ str "01/03/24 01/03/24 10,00 PRELIEVO ATM";
    str "DATA VALUTA USCITE ENTRATE DESCRIZIONE" ++ [newline]
    ++ str "01/03/24 01/03/24 30,00 FARMACIA" ].




(** The amounts 0,10 and 0,20 in one category and -0,30 in another. *)
Definition c8_rounding : list Transaction :=
  [ mkTransaction None None None (Some (10 # 100)%Q) (10 # 100)%Q
      (str "BONIFICO") ENTRATA 1 (Some (str "Stipendio")) (Some 1);
    mkTransaction None None (Some (30 # 100)%Q) None (- (30 # 100))%Q
      (str "BAR") USCITA 1 (Some (str "Ristorazione")) (Some 2);
    mkTransaction None None None (Some (20 # 100)%Q) (20 # 100)%Q
      (str "BONIFICO") ENTRATA 1 (Some (str "Stipendio")) (Some 3) ].

(* ------------------------------------------------------------------ *)
(** ** Properties *)

Unset Implicit Arguments.

(** *** Amounts of a transaction line *)

Lemma truthy_false_zero (q : Q) : truthy (Some q) = false -> (q == 0)%Q.
Proof.
  unfold truthy. intros H. apply negb_false_iff in H. now apply Qeq_bool_iff.
Qed.

Lemma truthy_zero (q : Q) : (q == 0)%Q -> truthy (Some q) = false.
Proof.
  unfold truthy. intros E. apply Qeq_bool_iff in E. now rewrite E.
Qed.

Lemma Qopp_zero (q : Q) : (q == 0)%Q -> (0 == - q)%Q.
Proof. intros E. rewrite E. reflexivity. Qed.

Lemma parse_amounts_shape (line : pystr) :
  let r := _parse_transaction_amounts line in
  amounts_shape (TransData.uscita r) (TransData.entrata r)
    (TransData.importo_netto r).
Proof.
  unfold _parse_transaction_amounts.
  destruct (Re.findall amount_pattern line) as [|a0 [|a1 more]]; cbn zeta.
  - cbn. reflexivity.
  - destruct (find a0 line >? 20)%Z;
      cbn [TransData.uscita TransData.entrata TransData.importo_netto
           amounts_shape amount_of].
    + destruct (truthy (Some (_parse_amount a0))) eqn:T.
      * reflexivity.
      * cbn. apply truthy_false_zero in T. now rewrite T.
    + cbn [truthy]. fold (truthy (Some (_parse_amount a0))).
      destruct (truthy (Some (_parse_amount a0))) eqn:T.
      * reflexivity.
      * apply truthy_false_zero in T. now apply Qopp_zero.
  - destruct (find a0 line >? 20)%Z;
      cbn [TransData.uscita TransData.entrata TransData.importo_netto
           amounts_shape amount_of].
    + destruct (truthy (Some (_parse_amount a0))) eqn:T.
      * reflexivity.
      * cbn. apply truthy_false_zero in T. now rewrite T.
    + destruct (truthy (Some (_parse_amount a1))) eqn:T1.
      * split; [reflexivity|]. intros E. apply truthy_zero in E. congruence.
      * split; [intros N; exfalso; apply N; now apply truthy_false_zero|].
        intros _.
        destruct (truthy (Some (_parse_amount a0))) eqn:T0; [reflexivity|].
        apply truthy_false_zero in T0. now apply Qopp_zero.
Qed.

Lemma both_amounts_iff (line : pystr) :
  let r := _parse_transaction_amounts line in
  (TransData.uscita r <> None /\ TransData.entrata r <> None)
  <-> two_columns line.
Proof.
  unfold _parse_transaction_amounts, two_columns.
  destruct (Re.findall amount_pattern line) as [|a0 [|a1 more]]; cbn zeta;
    cbn [hd length].
  - cbn [TransData.uscita TransData.entrata].
    split; [intros [H _]; now elim H | intros [H _]; lia].
  - destruct (find a0 line >? 20)%Z eqn:P;
      cbn [TransData.uscita TransData.entrata].
    + split; [intros [H _]; now elim H | intros [H _]; lia].
    + split; [intros [_ H]; now elim H | intros [H _]; lia].
  - destruct (find a0 line >? 20)%Z eqn:P;
      cbn [TransData.uscita TransData.entrata];
      rewrite Z.gtb_ltb in P.
    + apply Z.ltb_lt in P.
      split; [intros [H _]; now elim H | intros [_ H]; lia].
    + apply Z.ltb_ge in P.
      split; [intros _; split; [lia | exact P]
             | intros _; split; discriminate].
Qed.

Lemma amounts_from_shape (resto : pystr) (t : Transaction) :
  amounts_from resto t -> has_amounts_shape t.
Proof.
  intros (U & E & N). unfold has_amounts_shape. rewrite U, E, N.
  apply parse_amounts_shape.
Qed.

(** C1, counterexample.  The line below holds two money tokens, the first
    at offset 25: the parser makes the first token the inflow, leaves the
    outflow absent and ignores the second token. *)
Lemma C1_counterexample :
  Re.findall amount_pattern c1_line = [str "1.500,00"; str "2,00"] /\
  find (str "1.500,00") c1_line = 25%Z /\
  TransData.uscita (_parse_transaction_amounts c1_line) = None /\
  TransData.entrata (_parse_transaction_amounts c1_line)
    = Some (_parse_amount (str "1.500,00")).
Proof. vm_compute. repeat split. Qed.

(** C1, as the code has it.  On a line with exactly two money tokens, the
    first token is the outflow and the second the inflow when the first
    token starts at offset 20 or before; when it starts after offset 20 the
    first token is the inflow, the outflow is absent and the second token is
    not used. *)
Theorem C1_two_tokens_by_offset (line t1 t2 : pystr) :
  Re.findall amount_pattern line = [t1; t2] ->
  let r := _parse_transaction_amounts line in
  ((find t1 line <= 20)%Z ->
     TransData.uscita r = Some (_parse_amount t1)
     /\ TransData.entrata r = Some (_parse_amount t2))
  /\ ((20 < find t1 line)%Z ->
     TransData.uscita r = None
     /\ TransData.entrata r = Some (_parse_amount t1)).
Proof.
  intros H r. subst r. unfold _parse_transaction_amounts. rewrite H.
  destruct (find t1 line >? 20)%Z eqn:P; cbn.
  - split; [intros L; apply Z.gtb_lt in P; lia | intros _; now split].
  - split; [intros _; now split | intros L; apply Z.gtb_lt in L; congruence].
Qed.

(** C1 on two lines: amounts in the two columns, and amounts after a long
    description. *)
Lemma C1_two_tokens_by_offset_witness :
  (TransData.uscita (_parse_transaction_amounts c1_two_columns)
     = Some (_parse_amount (str "10,00"))
   /\ TransData.entrata (_parse_transaction_amounts c1_two_columns)
     = Some (_parse_amount (str "20,00")))
  /\ (TransData.uscita (_parse_transaction_amounts c1_line) = None
   /\ TransData.entrata (_parse_transaction_amounts c1_line)
     = Some (_parse_amount (str "1.500,00"))).
Proof.
  split.
  - apply (proj1 (C1_two_tokens_by_offset c1_two_columns
                    (str "10,00") (str "20,00") eq_refl)).
    vm_compute. discriminate.
  - apply (proj2 (C1_two_tokens_by_offset c1_line
                    (str "1.500,00") (str "2,00") eq_refl)).
    vm_compute. reflexivity.
Defined.

(** *** Records of a page *)

Lemma new_transaction_from (d1 d2 resto : pystr) (page_num : nat) :
  amounts_from resto (new_transaction d1 d2 resto page_num).
Proof. repeat split. Qed.

Lemma start_of_line_from (line : pystr) (page_num : nat) (t : Transaction) :
  start_of_line line page_num = Some t -> exists resto, amounts_from resto t.
Proof.
  unfold start_of_line.
  destruct (Re.mtch transaction_start line) as [[caps rest]|]; [|discriminate].
  intros [= <-]. eexists. apply new_transaction_from.
Qed.

Lemma start_of_line_shape (line : pystr) (page_num : nat) (t : Transaction) :
  start_of_line line page_num = Some t -> has_amounts_shape t.
Proof.
  intros H. destruct (start_of_line_from _ _ _ H) as (resto & F).
  now apply (amounts_from_shape resto).
Qed.

Lemma flush_ok (P : Transaction -> Prop) (st : loop_state) :
  state_ok P st -> Forall P (flush st).
Proof.
  intros [H1 H2]. unfold flush. destruct (snd st) as [c|]; [|assumption].
  apply Forall_app. split; [assumption|]. constructor; [now apply H2|constructor].
Qed.

Section LoopInvariant.
Variable P : Transaction -> Prop.
Variable page_num : nat.
Hypothesis P_start :
  forall line t, start_of_line line page_num = Some t -> P t.
Hypothesis P_descr : forall t d, P t -> P (set_descrizione t d).

Lemma step_ok (st : loop_state) (raw : pystr) :
  state_ok P st -> state_ok P (step page_num st raw).
Proof.
  intros Hst. unfold step.
  destruct (is_empty (strip raw)); [assumption|].
  destruct (Re.matches saldo_row (strip raw)); [assumption|].
  destruct (start_of_line (strip raw) page_num) as [t|] eqn:S.
  - split; cbn [fst snd].
    + now apply flush_ok.
    + intros c [= <-]. eapply P_start; eassumption.
  - destruct Hst as [H1 H2]. destruct (snd st) as [c|] eqn:Sc.
    + split; cbn [fst snd]; [assumption|].
      intros c' [= <-]. apply P_descr. now apply H2.
    + split; [assumption|]. rewrite Sc. discriminate.
Qed.

Lemma fold_step_ok (lines : list pystr) (st : loop_state) :
  state_ok P st -> state_ok P (fold_left (step page_num) lines st).
Proof.
  revert st. induction lines as [|l lines IH]; intros st H; cbn; [assumption|].
  apply IH. now apply step_ok.
Qed.

Lemma reconstruct_ok (lines : list pystr) :
  Forall P (reconstruct page_num lines).
Proof.
  unfold reconstruct. apply flush_ok, fold_step_ok.
  split; cbn; [constructor | discriminate].
Qed.
End LoopInvariant.

Lemma reconstruct_from (page_num : nat) (lines : list pystr) :
  Forall (fun t => exists resto, amounts_from resto t)
    (reconstruct page_num lines).
Proof.
  apply reconstruct_ok.
  - intros line t. apply start_of_line_from.
  - intros t d H. exact H.
Qed.

Lemma page_records_from (page_text : pystr) (page_num : nat) :
  Forall (fun t => exists resto, amounts_from resto t)
    (_extract_transactions_from_page page_text page_num).
Proof.
  unfold _extract_transactions_from_page.
  destruct (table_lines (split newline page_text)) as [body|]; [|constructor].
  apply Forall_map. eapply Forall_impl; [|apply reconstruct_from].
  intros t H. exact H.
Qed.

Lemma saldo_row_skipped (page_num : nat) (st : loop_state) (row : pystr) :
  Re.matches saldo_row (strip row) = true -> step page_num st row = st.
Proof.
  intros H. unfold step. rewrite H. now destruct (is_empty (strip row)).
Qed.

(** C2, counterexample.  A line with two amounts at the start gives a
    record whose outflow and inflow are both present. *)
Lemma C2_counterexample :
  map (fun t => (importo_uscita t, importo_entrata t, importo t))
      (_extract_transactions_from_page c2_page 1)
  = [(Some (1000 # 100), Some (2000 # 100), 2000 # 100)]%Q.
Proof. vm_compute. reflexivity. Qed.

(** C2, as the code has it.  Every record of a page has neither amount and
    a net amount of 0, or one amount and the net amount its signed value,
    or both amounts and the net amount the inflow unless the inflow is zero,
    when it is minus the outflow.  Its amounts are those parsed from the
    remainder of a transaction-start line, and both are present exactly when
    that remainder has two or more money tokens, the first at offset 20 or
    before.  A balance row changes nothing in the records reconstructed from
    the lines around it. *)
Theorem C2_record_amounts (page_text : pystr) (page_num : nat) (t : Transaction)
    (before after : list pystr) (row : pystr) :
  In t (_extract_transactions_from_page page_text page_num) ->
  Re.matches saldo_row (strip row) = true ->
  has_amounts_shape t
  /\ (exists resto,
        amounts_from resto t
        /\ ((importo_uscita t <> None /\ importo_entrata t <> None)
            <-> two_columns resto))
  /\ reconstruct page_num (before ++ row :: after)
     = reconstruct page_num (before ++ after).
Proof.
  intros Hin Hrow.
  pose proof (page_records_from page_text page_num) as F.
  rewrite Forall_forall in F. destruct (F t Hin) as (resto & Hr).
  repeat split.
  - now apply (amounts_from_shape resto).
  - exists resto. split; [assumption|].
    destruct Hr as (U & E & _). rewrite U, E. apply both_amounts_iff.
  - unfold reconstruct. rewrite !fold_left_app. cbn [fold_left].
    now rewrite saldo_row_skipped.
Qed.

(** C2 on the page with a two-amount line and on a balance row. *)
Lemma C2_record_amounts_witness :
  has_amounts_shape c2_record
  /\ (exists resto,
        amounts_from resto c2_record
        /\ ((importo_uscita c2_record <> None
             /\ importo_entrata c2_record <> None)
            <-> two_columns resto))
  /\ reconstruct 1 ([] ++ c2_saldo_row :: [str "01/03/24 01/03/24 5,00 BAR"])
     = reconstruct 1 ([] ++ [str "01/03/24 01/03/24 5,00 BAR"]).
Proof.
  apply (C2_record_amounts c2_page 1 c2_record []
           [str "01/03/24 01/03/24 5,00 BAR"] c2_saldo_row).
  - vm_compute. left. reflexivity.
  - vm_compute. reflexivity.
Defined.

(** *** Net amount and movement type *)

(** C10.  The net amount is chosen by testing the parsed inflow for being
    non-zero.  On a transaction-start line whose inflow parses to zero: with
    an outflow the net amount is minus the outflow; without one the net
    amount is 0 and the movement type is [USCITA]. *)
Theorem C10_net_amount_tests_nonzero_inflow
    (line : pystr) (page_num : nat) (t : Transaction) (e : Q) :
  start_of_line line page_num = Some t ->
  importo_entrata t = Some e ->
  (e == 0)%Q ->
  (forall u, importo_uscita t = Some u -> (importo t == - u)%Q)
  /\ (importo_uscita t = None ->
      (importo t == 0)%Q /\ tipo_movimento t = USCITA).
Proof.
  intros Hs He E.
  pose proof (start_of_line_shape _ _ _ Hs) as Sh.
  unfold has_amounts_shape in Sh.
  rewrite He in Sh. split.
  - intros u Hu. rewrite Hu in Sh. cbn in Sh. now apply Sh.
  - intros Hu. rewrite Hu in Sh. cbn in Sh.
    assert (Z0 : (importo t == 0)%Q) by (now rewrite Sh).
    split; [exact Z0|].
    unfold start_of_line in Hs.
    destruct (Re.mtch transaction_start line) as [[caps rest]|]; [|discriminate].
    injection Hs as <-. cbn in Z0 |- *.
    unfold Qpositive.
    destruct (Qle_bool (TransData.importo_netto _) 0) eqn:L; [reflexivity|].
    exfalso. apply not_true_iff_false in L. apply L, Qle_bool_iff.
    rewrite Z0. apply Qle_refl.
Qed.

(** C10 on a line with outflow 10,00 and inflow 0,00, and on a line whose
    only amount 0,00 stands after offset 20. *)
Lemma C10_net_amount_tests_nonzero_inflow_witness :
  (importo (new_transaction (str "01/03/24") (str "01/03/24")
              (str "10,00 0,00 STORNO") 1)
     == - (1000 # 100))%Q
  /\ ((importo (new_transaction (str "01/03/24") (str "01/03/24")
                  (str "COMMISSIONI BONIFICO ESTERO 0,00") 1) == 0)%Q
      /\ tipo_movimento (new_transaction (str "01/03/24") (str "01/03/24")
                  (str "COMMISSIONI BONIFICO ESTERO 0,00") 1) = USCITA).
Proof.
  split.
  - apply (proj1 (C10_net_amount_tests_nonzero_inflow c10_both 1 _
                    (0 # 100)%Q eq_refl eq_refl eq_refl)).
    reflexivity.
  - apply (proj2 (C10_net_amount_tests_nonzero_inflow c10_inflow_only 1 _
                    (0 # 100)%Q eq_refl eq_refl eq_refl)).
    reflexivity.
Defined.

(** *** Categories *)






(** With the table of the code, where [PayPal] is declared before
    [Salute]. *)
Example suggest_paypal_farmacia :
  _suggest_category (str "Pagamento PayPal farmacia") = str "PayPal".
Proof. vm_compute. reflexivity. Qed.

(** With a table that declares [Salute] first. *)
Example suggest_spec_table :
  suggest_in [(str "Salute", [str "farmacia"]); (str "PayPal", [str "paypal"])]
    (lower (str "Pagamento PayPal farmacia")) = str "Salute".
Proof. vm_compute. reflexivity. Qed.

(** *** Money tokens *)

Lemma digit_range (c : char) : isdigit c = true <-> (48 <= c <= 57)%N.
Proof.
  unfold isdigit, in_range. rewrite andb_true_iff, !N.leb_le. reflexivity.
Qed.

Lemma digit_not_space (c : char) : isdigit c = true -> isspace c = false.
Proof.
  intros H. apply digit_range in H. unfold isspace, in_range.
  repeat apply orb_false_intro;
    first [ apply N.eqb_neq; lia
          | apply andb_false_iff;
            first [ left; apply N.leb_gt; lia | right; apply N.leb_gt; lia ] ].
Qed.

Lemma dropWhile_blank (w s : pystr) :
  blank w -> dropWhile isspace (w ++ s) = dropWhile isspace s.
Proof.
  induction 1 as [|c w Hc _ IH]; cbn; [reflexivity|]. now rewrite Hc.
Qed.

Lemma rstrip_blank (s w : pystr) : blank w -> rstrip (s ++ w) = rstrip s.
Proof.
  intros H. unfold rstrip. rewrite rev_app_distr, dropWhile_blank; [reflexivity|].
  now apply Forall_rev.
Qed.

Lemma rstrip_last (s : pystr) (c : char) :
  isspace c = false -> rstrip (s ++ [c]) = s ++ [c].
Proof.
  intros H. unfold rstrip. rewrite rev_app_distr. cbn. rewrite H. cbn.
  now rewrite rev_involutive.
Qed.

Lemma lstrip_first (s : pystr) (c : char) :
  isspace c = false -> lstrip (c :: s) = c :: s.
Proof. intros H. unfold lstrip. cbn. now rewrite H. Qed.

Lemma replace_char_app (c : char) (new a b : pystr) :
  replace_char c new (a ++ b) = replace_char c new a ++ replace_char c new b.
Proof. unfold replace_char. apply flat_map_app. Qed.

Lemma replace_char_absent (c : char) (new s : pystr) :
  Forall (fun x => x <> c) s -> replace_char c new s = s.
Proof.
  unfold replace_char. induction 1 as [|x s Hx _ IH]; cbn; [reflexivity|].
  destruct (N.eqb_spec x c); [contradiction|]. cbn. now rewrite IH.
Qed.

Lemma digits_not (c : char) (s : pystr) :
  digits s -> (c < 48 \/ 57 < c)%N -> Forall (fun x => x <> c) s.
Proof.
  intros H Hc. eapply Forall_impl; [|exact H]. cbn. intros x Hx.
  apply digit_range in Hx. lia.
Qed.

Lemma blank_not_euro (w : pystr) : blank w -> Forall (fun x => x <> euro) w.
Proof.
  intros H. eapply Forall_impl; [|exact H]. cbn. intros x Hx ->.
  vm_compute in Hx. discriminate.
Qed.

Lemma digits_app (a b : pystr) : digits a -> digits b -> digits (a ++ b).
Proof. intros; now apply Forall_app. Qed.

Lemma digits_concat (gs : list pystr) :
  Forall (fun g => length g = 3 /\ digits g) gs -> digits (concat gs).
Proof.
  induction 1 as [|g gs [_ Hg] _ IH]; cbn; [constructor | now apply digits_app].
Qed.

(** Removing the points of the groups of thousands. *)
Lemma remove_points_groups (gs : list pystr) :
  Forall (fun g => length g = 3 /\ digits g) gs ->
  replace_char 46%N [] (flat_map (fun g => 46%N :: g) gs) = concat gs.
Proof.
  induction 1 as [|g gs [_ Hg] _ IH]; cbn [flat_map concat]; [reflexivity|].
  change (46%N :: g) with ([46%N] ++ g).
  rewrite !replace_char_app, IH.
  rewrite (replace_char_absent 46%N [] g)
    by (apply digits_not; [assumption | lia]).
  reflexivity.
Qed.

Lemma span_digits (a rest : pystr) (c : char) :
  digits a -> isdigit c = false ->
  span isdigit (a ++ c :: rest) = (a, c :: rest).
Proof.
  intros Ha Hc. induction Ha as [|x a Hx _ IH]; cbn.
  - now rewrite Hc.
  - now rewrite Hx, IH.
Qed.

Lemma digits_value_app (a b : pystr) :
  digits_value (a ++ b)
  = (digits_value a * Zpos (pow10 (length b)) + digits_value b)%Z.
Proof.
  unfold digits_value.
  assert (G : forall b acc,
    fold_left (fun acc c => (10 * acc + (Z.of_N c - 48))%Z) b acc
    = (acc * Zpos (pow10 (length b))
       + fold_left (fun acc c => (10 * acc + (Z.of_N c - 48))%Z) b 0)%Z).
  { clear. induction b as [|c b IH]; intros acc; cbn [fold_left length pow10].
    - lia.
    - rewrite IH. rewrite (IH (10 * 0 + (Z.of_N c - 48))%Z).
      rewrite Pos2Z.inj_mul. lia. }
  rewrite fold_left_app. apply G.
Qed.

(** What [float] reads in a text of digits, a point and two digits. *)
Lemma float_two_decimals (a : pystr) (c1 c2 : char) :
  digits a -> a <> [] -> digits [c1; c2] ->
  float (a ++ (46%N :: [c1; c2]))
  = Some (Qmake (digits_value (a ++ [c1; c2])) 100).
Proof.
  intros Ha Hne Hc.
  assert (Hc2 : isspace c2 = false).
  { inversion Hc as [|? ? _ Hc']; inversion Hc'; now apply digit_not_space. }
  destruct a as [|x a]; [contradiction|].
  assert (Hx : isdigit x = true) by (now inversion Ha).
  assert (S : strip ((x :: a) ++ [46%N; c1; c2]) = (x :: a) ++ [46%N; c1; c2]).
  { unfold strip. cbn [app]. rewrite lstrip_first by (now apply digit_not_space).
    replace (x :: a ++ [46%N; c1; c2]) with ((x :: a ++ [46%N; c1]) ++ [c2])
      by (cbn; rewrite <- app_assoc; reflexivity).
    now apply rstrip_last. }
  unfold float. rewrite S. cbn [app].
  apply digit_range in Hx.
  destruct (N.eqb_spec x 45); [lia|]. destruct (N.eqb_spec x 43); [lia|].
  unfold unsigned_decimal.
  change (x :: a ++ [46%N; c1; c2]) with ((x :: a) ++ 46%N :: [c1; c2]).
  rewrite span_digits by (assumption || reflexivity).
  cbn [fst snd]. rewrite N.eqb_refl.
  replace (forallb isdigit [c1; c2]) with true
    by (symmetry; apply forallb_forall; now apply Forall_forall).
  cbn. reflexivity.
Qed.

Lemma money_token_chars (g0 : pystr) (gs : list pystr) (c1 c2 : char) :
  money_token_ok g0 gs c1 c2 ->
  Forall (fun x => x <> euro) (money_token g0 gs c1 c2).
Proof.
  intros (_ & H0 & Hgs & Hc). unfold money_token.
  apply Forall_app. split.
  { apply digits_not; [assumption | vm_compute; right; reflexivity]. }
  apply Forall_app. split.
  - induction Hgs as [|g gs [_ Hg] _ IH]; cbn; [constructor|].
    constructor; [discriminate|]. apply Forall_app. split; [|assumption].
    apply digits_not; [assumption | vm_compute; right; reflexivity].
  - constructor; [discriminate|].
    apply digits_not; [assumption | vm_compute; right; reflexivity].
Qed.

Lemma money_token_strip (g0 : pystr) (gs : list pystr) (c1 c2 : char) :
  money_token_ok g0 gs c1 c2 ->
  strip (money_token g0 gs c1 c2) = money_token g0 gs c1 c2.
Proof.
  intros (L & H0 & Hgs & Hc). unfold money_token, strip.
  destruct g0 as [|x g0]; [cbn in L; lia|].
  assert (Hx : isspace x = false) by (apply digit_not_space; now inversion H0).
  assert (Hc2 : isspace c2 = false).
  { inversion Hc as [|? ? _ Hc']; inversion Hc'; now apply digit_not_space. }
  cbn [app]. rewrite lstrip_first by assumption.
  replace (x :: g0 ++ flat_map (fun g => 46%N :: g) gs ++ [44%N; c1; c2])
    with ((x :: g0 ++ flat_map (fun g => 46%N :: g) gs ++ [44%N; c1]) ++ [c2]).
  - now apply rstrip_last.
  - cbn. rewrite <- !app_assoc. reflexivity.
Qed.

Lemma money_token_normalised (g0 : pystr) (gs : list pystr) (c1 c2 : char) :
  money_token_ok g0 gs c1 c2 ->
  replace_char 44%N (str ".") (replace_char 46%N [] (money_token g0 gs c1 c2))
  = (g0 ++ concat gs) ++ 46%N :: [c1; c2].
Proof.
  intros (L & H0 & Hgs & Hc). unfold money_token.
  rewrite !replace_char_app, remove_points_groups by assumption.
  rewrite (replace_char_absent 46%N [] g0)
    by (apply digits_not; [assumption | lia]).
  assert (E : replace_char 46%N [] [44%N; c1; c2] = [44%N; c1; c2]).
  { apply replace_char_absent. constructor; [discriminate|].
    apply digits_not; [assumption | lia]. }
  rewrite E, ?replace_char_app.
  rewrite (replace_char_absent 44%N (str ".") g0)
    by (apply digits_not; [assumption | lia]).
  rewrite (replace_char_absent 44%N (str ".") (concat gs))
    by (apply digits_not; [now apply digits_concat | lia]).
  change [44%N; c1; c2] with ([44%N] ++ [c1; c2]).
  rewrite replace_char_app.
  rewrite (replace_char_absent 44%N (str ".") [c1; c2])
    by (apply digits_not; [assumption | lia]).
  cbn. now rewrite <- app_assoc.
Qed.

Lemma money_token_float (g0 : pystr) (gs : list pystr) (c1 c2 : char) :
  money_token_ok g0 gs c1 c2 ->
  exists q, float (normalised (money_token g0 gs c1 c2)) = Some q
            /\ (q == money_value g0 gs c1 c2)%Q.
Proof.
  intros Hok. pose proof Hok as (L & H0 & Hgs & Hc).
  unfold normalised.
  rewrite (money_token_strip _ _ _ _ Hok).
  rewrite (replace_char_absent euro [] _ (money_token_chars _ _ _ _ Hok)).
  rewrite (money_token_strip _ _ _ _ Hok), (money_token_normalised _ _ _ _ Hok).
  rewrite float_two_decimals.
  - eexists. split; [reflexivity|].
    unfold money_value. rewrite digits_value_app.
    cbn [length pow10]. unfold Qeq, Qplus, inject_Z. cbn [Qnum Qden]. lia.
  - apply digits_app; [assumption | now apply digits_concat].
  - destruct g0; [cbn in L; lia | discriminate].
  - assumption.
Qed.

Lemma parse_amount_unfold (amount_str : pystr) :
  strip amount_str <> [] ->
  _parse_amount amount_str
  = match float (normalised amount_str) with Some q => q | None => 0%Q end.
Proof.
  intros H. unfold _parse_amount, normalised.
  destruct amount_str as [|c s]; [now elim H|].
  destruct (strip (c :: s)); [now elim H|]. reflexivity.
Qed.

Lemma dropWhile_shorter (s : pystr) :
  length (dropWhile isspace s) <= length s.
Proof.
  induction s as [|c s IH]; cbn; [lia|]. destruct (isspace c); cbn; lia.
Qed.

Lemma strip_shorter (s : pystr) : length (strip s) <= length (lstrip s).
Proof.
  unfold strip, rstrip. rewrite length_rev.
  etransitivity; [apply dropWhile_shorter|]. now rewrite length_rev.
Qed.

Lemma strip_with_euro (t w1 w2 : pystr) :
  strip t = t -> t <> [] -> blank w1 -> blank w2 ->
  Forall (fun x => x <> euro) t ->
  strip (replace_char euro [] (strip (t ++ w1 ++ [euro] ++ w2))) = t
  /\ strip (t ++ w1 ++ [euro] ++ w2) <> [].
Proof.
  intros St Hne B1 B2 Ht.
  destruct t as [|x t]; [now elim Hne|].
  assert (Hx : isspace x = false).
  { destruct (isspace x) eqn:E; [|reflexivity]. exfalso.
    pose proof (strip_shorter (x :: t)) as Len.
    rewrite St in Len. unfold lstrip in Len. cbn [dropWhile] in Len.
    rewrite E in Len. pose proof (dropWhile_shorter t). cbn in Len. lia. }
  assert (S1 : strip ((x :: t) ++ w1 ++ [euro] ++ w2) = (x :: t) ++ w1 ++ [euro]).
  { unfold strip. cbn [app]. rewrite lstrip_first by assumption.
    replace (x :: t ++ w1 ++ euro :: w2) with (((x :: t ++ w1) ++ [euro]) ++ w2)
      by (cbn; rewrite <- !app_assoc; reflexivity).
    rewrite rstrip_blank by assumption.
    rewrite rstrip_last by reflexivity.
    cbn. rewrite <- !app_assoc. reflexivity. }
  rewrite S1. split; [|discriminate].
  rewrite !replace_char_app.
  rewrite (replace_char_absent euro [] (x :: t)) by assumption.
  rewrite (replace_char_absent euro [] w1) by (now apply blank_not_euro).
  cbn [replace_char flat_map]. rewrite N.eqb_refl. cbn [app]. rewrite app_nil_r.
  unfold strip. cbn [app]. rewrite lstrip_first by assumption.
  change (x :: t ++ w1) with ((x :: t) ++ w1).
  rewrite rstrip_blank by assumption.
  unfold strip in St. cbn [app] in St. rewrite lstrip_first in St by assumption.
  exact St.
Qed.

(** C4.  A money token [D{1,3}(.DDD)*,DD], alone or followed by white space,
    the euro sign and white space, parses to the number its digits denote:
    the groups before the comma as an integer plus the two decimals as
    hundredths.  A text that [float] rejects after the normalisation parses
    to 0. *)
Theorem C4_parse_amount (g0 : pystr) (gs : list pystr) (c1 c2 : char)
    (w1 w2 tok : pystr) :
  money_token_ok g0 gs c1 c2 ->
  blank w1 -> blank w2 ->
  float (normalised tok) = None ->
  (_parse_amount (money_token g0 gs c1 c2) == money_value g0 gs c1 c2)%Q
  /\ (_parse_amount (money_token g0 gs c1 c2 ++ w1 ++ [euro] ++ w2)
      == money_value g0 gs c1 c2)%Q
  /\ (_parse_amount tok == 0)%Q.
Proof.
  intros Hok B1 B2 Hf.
  destruct (money_token_float _ _ _ _ Hok) as (q & Fq & Eq).
  assert (Hne : money_token g0 gs c1 c2 <> []).
  { unfold money_token. intros E. apply (f_equal (@length char)) in E.
    rewrite !length_app in E. cbn in E. lia. }
  repeat split.
  - rewrite parse_amount_unfold by (now rewrite (money_token_strip _ _ _ _ Hok)).
    now rewrite Fq.
  - destruct (strip_with_euro _ w1 w2 (money_token_strip _ _ _ _ Hok) Hne B1 B2
                (money_token_chars _ _ _ _ Hok))
      as [S1 S2].
    rewrite parse_amount_unfold by assumption.
    unfold normalised in *. rewrite S1.
    rewrite (money_token_strip _ _ _ _ Hok) in Fq.
    rewrite (replace_char_absent euro [] _ (money_token_chars _ _ _ _ Hok)) in Fq.
    rewrite (money_token_strip _ _ _ _ Hok) in Fq.
    now rewrite Fq.
  - unfold _parse_amount. unfold normalised in Hf.
    destruct (is_empty tok || is_empty (strip tok))%bool; [reflexivity|].
    now rewrite Hf.
Qed.

(** C4 on ["1.234,56"], with and without the euro sign, and on ["1,2,3"]. *)
Lemma C4_parse_amount_witness :
  (_parse_amount (str "1.234,56") == 123456 # 100)%Q
  /\ (_parse_amount (str "1.234,56 " ++ [euro] ++ str " ") == 123456 # 100)%Q
  /\ (_parse_amount (str "1,2,3") == 0)%Q.
Proof.
  apply (C4_parse_amount (str "1") [str "234"] 53%N 54%N (str " ") (str " ")
           (str "1,2,3")).
  - vm_compute. repeat split; repeat constructor.
  - repeat constructor.
  - repeat constructor.
  - reflexivity.
Defined.

(** *** Two-digit years *)

Section CenturyResolution.
Open Scope Z_scope.

Lemma below_cases (P : Z -> Prop) (k : nat) :
  (forall i, (i < k)%nat -> P (Z.of_nat i)) ->
  forall n, 0 <= n < Z.of_nat k -> P n.
Proof.
  intros H n Hn. replace n with (Z.of_nat (Z.to_nat n)) by lia. apply H. lia.
Qed.

Tactic Notation "by_cases" integer(k) :=
  let i := fresh "i" in
  let Hi := fresh "Hi" in
  intros i Hi;
  do k (destruct i as [|i]; [first [intros; reflexivity | intros; lia]|]);
  lia.

Lemma take_day_two_digits (n : Z) (rest : pystr) :
  1 <= n <= 31 -> take_day (two_digits n ++ rest) = Some (n, rest).
Proof.
  intros Hn. revert rest.
  assert (G : 0 <= n < Z.of_nat 32) by lia. revert n G Hn.
  apply (below_cases (fun n => 1 <= n <= 31 -> forall rest,
           take_day (two_digits n ++ rest) = Some (n, rest))).
  by_cases 32.
Qed.

Lemma take_month_two_digits (n : Z) (rest : pystr) :
  1 <= n <= 12 -> take_month (two_digits n ++ rest) = Some (n, rest).
Proof.
  intros Hn. revert rest.
  assert (G : 0 <= n < Z.of_nat 13) by lia. revert n G Hn.
  apply (below_cases (fun n => 1 <= n <= 12 -> forall rest,
           take_month (two_digits n ++ rest) = Some (n, rest))).
  by_cases 13.
Qed.

Lemma take_year_two_digits (n : Z) (rest : pystr) :
  0 <= n <= 99 ->
  take_year (two_digits n ++ rest)
  = Some ((if n <=? 68 then 2000 + n else 1900 + n), rest).
Proof.
  intros Hn. revert rest.
  assert (G : 0 <= n < Z.of_nat 100) by lia. clear Hn. revert n G.
  apply (below_cases (fun n => forall rest,
           take_year (two_digits n ++ rest)
           = Some ((if n <=? 68 then 2000 + n else 1900 + n), rest))).
  by_cases 100.
Qed.

Lemma leap_same_century (yy : Z) :
  31 <= yy <= 68 -> is_leap (2000 + yy) = is_leap (1900 + yy).
Proof.
  intros Hn. assert (G : 0 <= yy < Z.of_nat 69) by lia. revert yy G Hn.
  apply (below_cases (fun yy => 31 <= yy <= 68 ->
           is_leap (2000 + yy) = is_leap (1900 + yy))).
  by_cases 69.
Qed.

Lemma make_date_valid (y m d : Z) :
  1 <= y <= 9999 -> 1 <= m <= 12 -> 1 <= d <= days_in_month y m ->
  make_date y m d = Some (mkdate y m d).
Proof.
  intros Hy Hm Hd. unfold make_date.
  repeat (rewrite (proj2 (Z.leb_le _ _)) by lia). reflexivity.
Qed.

Lemma strptime_date_text (dd mm yy : Z) :
  0 <= yy <= 99 -> 1 <= mm <= 12 -> 1 <= dd <= 31 ->
  strptime_dmy (date_text dd mm yy)
  = make_date (if yy <=? 68 then 2000 + yy else 1900 + yy) mm dd.
Proof.
  intros Hy Hm Hd. unfold strptime_dmy, date_text.
  rewrite take_day_two_digits by assumption.
  cbn [str app take_slash map list_ascii_of_string].
  change (N_of_ascii "/") with 47%N. rewrite N.eqb_refl.
  rewrite take_month_two_digits by assumption.
  cbn [take_slash]. rewrite N.eqb_refl.
  rewrite <- (app_nil_r (two_digits yy)).
  rewrite take_year_two_digits by assumption. reflexivity.
Qed.

Lemma days_in_month_le (y m : Z) : days_in_month y m <= 31.
Proof.
  unfold days_in_month.
  destruct (m =? 2); [destruct (is_leap y); lia|].
  destruct ((m =? 4) || (m =? 6) || (m =? 9) || (m =? 11))%bool; lia.
Qed.

Lemma parse_date_short_valid (dd mm yy : Z) :
  valid_token dd mm yy ->
  _parse_date_short (date_text dd mm yy)
  = Some (mkdate (resolved_year yy) mm dd).
Proof.
  intros (Hy & Hm & Hd). unfold _parse_date_short.
  pose proof (days_in_month_le (resolved_year yy) mm) as Le.
  rewrite strptime_date_text by lia.
  unfold resolved_year in *.
  destruct (Z.leb_spec yy 30) as [A|A].
  - rewrite (proj2 (Z.leb_le yy 68)) by lia.
    rewrite make_date_valid by lia. cbn [year].
    destruct (Z.gtb_spec (2000 + yy) 2030); [lia | reflexivity].
  - destruct (Z.leb_spec yy 68) as [B|B].
    + assert (D : days_in_month (2000 + yy) mm = days_in_month (1900 + yy) mm).
      { unfold days_in_month. now rewrite leap_same_century by lia. }
      rewrite make_date_valid by lia. cbn [year].
      destruct (Z.gtb_spec (2000 + yy) 2030); [|lia].
      unfold replace_year. cbn [year month day].
      replace (2000 + yy - 100) with (1900 + yy) by lia.
      apply make_date_valid; lia.
    + rewrite make_date_valid by lia. cbn [year].
      destruct (Z.gtb_spec (1900 + yy) 2030); [lia | reflexivity].
Qed.

(** C5.  A token [DD/MM/YY] that names a day of the calendar parses to that
    day and month in the year 2000+YY when YY is at most 30, and 1900+YY
    otherwise; two such tokens that parse to the same date are the same
    token, so the resolution of the year is injective. *)
Theorem C5_century_resolution (dd mm yy dd' mm' yy' : Z) :
  valid_token dd mm yy ->
  valid_token dd' mm' yy' ->
  _parse_date_short (date_text dd mm yy)
    = Some (mkdate (if yy <=? 30 then 2000 + yy else 1900 + yy) mm dd)
  /\ (_parse_date_short (date_text dd' mm' yy')
        = _parse_date_short (date_text dd mm yy) ->
      yy' = yy /\ mm' = mm /\ dd' = dd).
Proof.
  intros V V'. split.
  - now apply parse_date_short_valid.
  - rewrite !parse_date_short_valid by assumption.
    intros [= Ey -> ->]. repeat split.
    destruct V as ((? & ?) & _), V' as ((? & ?) & _).
    unfold resolved_year in Ey.
    destruct (Z.leb_spec yy 30), (Z.leb_spec yy' 30); lia.
Qed.

(** C5 on 29/02/32, a leap day of 1932. *)
Lemma C5_century_resolution_witness :
  _parse_date_short (str "29/02/32") = Some (mkdate 1932 2 29).
Proof.
  apply (proj1 (C5_century_resolution 29 2 32 15 7 30
                  (conj (conj (Zle_bool_imp_le 0 32 eq_refl)
                              (Zle_bool_imp_le 32 99 eq_refl))
                        (conj (conj (Zle_bool_imp_le 1 2 eq_refl)
                                    (Zle_bool_imp_le 2 12 eq_refl))
                              (conj (Zle_bool_imp_le 1 29 eq_refl)
                                    (Zle_bool_imp_le 29 29 eq_refl))))
                  (conj (conj (Zle_bool_imp_le 0 30 eq_refl)
                              (Zle_bool_imp_le 30 99 eq_refl))
                        (conj (conj (Zle_bool_imp_le 1 7 eq_refl)
                                    (Zle_bool_imp_le 7 12 eq_refl))
                              (conj (Zle_bool_imp_le 1 15 eq_refl)
                                    (Zle_bool_imp_le 15 31 eq_refl)))))).
Defined.

End CenturyResolution.

(** *** Global order and sequence numbers *)

Section DateOrder.
Open Scope Z_scope.

Lemma date_ltb_spec (a b : date) :
  date_ltb a b = true <->
  (year a < year b
   \/ (year a = year b
       /\ (month a < month b \/ (month a = month b /\ day a < day b)))).
Proof.
  unfold date_ltb.
  rewrite !orb_true_iff, !andb_true_iff, !orb_true_iff, !andb_true_iff,
    !Z.ltb_lt, !Z.eqb_eq.
  reflexivity.
Qed.

Lemma date_ltb_false (a b : date) :
  date_ltb a b = false <->
  ~ (year a < year b
     \/ (year a = year b
         /\ (month a < month b \/ (month a = month b /\ day a < day b)))).
Proof.
  rewrite <- date_ltb_spec. destruct (date_ltb a b); split; congruence.
Qed.

Lemma date_eqb_eq (a b : date) : date_eqb a b = true <-> a = b.
Proof.
  unfold date_eqb. rewrite !andb_true_iff, !Z.eqb_eq.
  destruct a, b; cbn. split.
  - intros [[-> ->] ->]. reflexivity.
  - intros [= -> -> ->]. auto.
Qed.

Lemma date_le_trans (a b c : date) :
  date_ltb b a = false -> date_ltb c b = false -> date_ltb c a = false.
Proof. rewrite !date_ltb_false. lia. Qed.

Lemma date_lt_le (a b : date) : date_ltb a b = true -> date_ltb b a = false.
Proof. rewrite date_ltb_false, date_ltb_spec. lia. Qed.

Lemma date_lt_irrefl (a : date) : date_ltb a a = false.
Proof. rewrite date_ltb_false. lia. Qed.

End DateOrder.

Lemma not_after_trans (a b c : Transaction) :
  not_after a b -> not_after b c -> not_after a c.
Proof.
  unfold not_after.
  destruct (data_transazione a), (data_transazione b), (data_transazione c);
    try tauto.
  apply date_le_trans.
Qed.

Lemma dated_differ (d : date) (x y : Transaction) :
  key_lt (data_transazione y) (data_transazione x) = Ok true ->
  dated d x = true -> dated d y = true -> False.
Proof.
  unfold dated, key_lt.
  destruct (data_transazione x) as [dx|], (data_transazione y) as [dy|];
    try discriminate.
  intros [= L] Ex Ey. apply date_eqb_eq in Ex, Ey. subst.
  rewrite date_lt_irrefl in L. discriminate.
Qed.

Lemma insert_sorted (x : Transaction) (s : list Transaction) :
  has_date x -> Forall has_date s -> StronglySorted not_after s ->
  exists s',
    insert x s = Ok s'
    /\ Permutation (x :: s) s'
    /\ StronglySorted not_after s'
    /\ (forall d, filter (dated d) s' = filter (dated d) (x :: s)).
Proof.
  intros Hx Hs Ss. induction s as [|y s IH].
  - exists [x]. cbn. repeat split; auto.
    constructor; constructor.
  - cbn [insert].
    inversion Hs as [|? ? Hy Hs']; subst.
    inversion Ss as [|? ? Ss' Ay]; subst.
    unfold has_date in Hx, Hy.
    destruct (data_transazione x) as [dx|] eqn:Ex; [|now elim Hx].
    destruct (data_transazione y) as [dy|] eqn:Ey; [|now elim Hy].
    cbn [key_lt bind]. destruct (date_ltb dy dx) eqn:L.
    + destruct (IH Hs' Ss') as (s' & I & P & S' & F). rewrite I. cbn [bind].
      exists (y :: s'). repeat split.
      * rewrite perm_swap. now constructor.
      * constructor; [assumption|].
        eapply Permutation_Forall; [exact P|].
        constructor; [|assumption].
        unfold not_after. rewrite Ex, Ey. now apply date_lt_le.
      * intros d. cbn [filter]. rewrite F. cbn [filter].
        destruct (dated d y) eqn:Dy, (dated d x) eqn:Dx; try reflexivity.
        exfalso. apply (dated_differ d x y); try assumption.
        unfold key_lt. now rewrite Ex, Ey, L.
    + exists (x :: y :: s). repeat split; auto.
      constructor; [assumption|].
      assert (Axy : not_after x y) by (unfold not_after; now rewrite Ex, Ey).
      constructor; [assumption|].
      eapply Forall_impl; [|exact Ay]. intros z. now apply not_after_trans.
Qed.

Lemma sort_by_date_sorted (l : list Transaction) :
  Forall has_date l ->
  exists s,
    sort_by_date l = Ok s
    /\ Permutation l s
    /\ StronglySorted not_after s
    /\ (forall d, filter (dated d) s = filter (dated d) l).
Proof.
  induction 1 as [|x l Hx Hl IH].
  - exists []. cbn. repeat split; auto. constructor.
  - destruct IH as (s & E & P & S & F).
    destruct (insert_sorted x s Hx) as (s' & I & P' & S' & F'); try assumption.
    { eapply Permutation_Forall; eassumption. }
    exists s'. cbn [sort_by_date]. rewrite E. cbn [bind]. repeat split; auto.
    + rewrite <- P'. now constructor.
    + intros d. rewrite F'. cbn [filter]. now rewrite F.
Qed.



Lemma numbering_keeps (l : list Transaction) (i : nat) :
  map unnumbered (map (fun p => set_numero (snd p) (fst p)) (enumerate i l))
  = map unnumbered l.
Proof.
  revert i. induction l as [|x l IH]; intros i; cbn; [reflexivity|].
  now rewrite IH.
Qed.






(** The two records of 01/03/24 keep their page order, before the record
    of 05/03/24. *)
Example c6_pages_order :
  option_map (map (fun t => (pagina t, descrizione t, numero_progressivo t)))
    (match _extract_all_transactions c6_pages with
     | Ok out => Some out
     | Raise _ => None
     end)
  = Some [ (1, str "PRELIEVO ATM", Some 1); (2, str "FARMACIA", Some 2);
           (1, str "BAR", Some 3) ]%nat.
Proof. vm_compute. reflexivity. Qed.

(** *** Category rollups *)

Lemma Qpositive_spec (x : Q) : Qpositive x = true <-> (0 < x)%Q.
Proof.
  unfold Qpositive. rewrite negb_true_iff. split.
  - intros H. apply Qnot_le_lt. intros L. apply Qle_bool_iff in L. congruence.
  - intros H. destruct (Qle_bool x 0) eqn:E; [|reflexivity].
    apply Qle_bool_iff in E. exfalso. now apply (Qlt_not_le 0 x).
Qed.

Lemma Qnegative_spec (x : Q) : Qnegative x = true <-> (x < 0)%Q.
Proof.
  unfold Qnegative. rewrite negb_true_iff. split.
  - intros H. apply Qnot_le_lt. intros L. apply Qle_bool_iff in L. congruence.
  - intros H. destruct (Qle_bool 0 x) eqn:E; [|reflexivity].
    apply Qle_bool_iff in E. exfalso. now apply (Qlt_not_le x 0).
Qed.

Lemma py_sum_from (l : list Q) (a : Q) : (fold_left Qplus l a == a + Qsum l)%Q.
Proof.
  unfold Qsum. revert a.
  induction l as [|x l IH]; intros a; cbn [fold_left fold_right].
  - ring.
  - rewrite IH. ring.
Qed.

Lemma py_sum_Qsum (l : list Q) : (py_sum l == Qsum l)%Q.
Proof. unfold py_sum. rewrite py_sum_from. ring. Qed.

Lemma py_count_from (l : list nat) (a : nat) :
  fold_left Nat.add l a = a + fold_right Nat.add 0 l.
Proof.
  revert a. induction l as [|x l IH]; intros a; cbn; [lia|]. rewrite IH. lia.
Qed.

Lemma py_count_ones (A : Type) (l : list A) :
  py_count (map (fun _ => 1) l) = length l.
Proof.
  unfold py_count. rewrite py_count_from. induction l; cbn; [reflexivity|]. lia.
Qed.

Lemma has_key_app (A : Type) (cat : pystr) (d : list (pystr * A)) (v : A) :
  has_key cat (d ++ [(cat, v)]) = true.
Proof.
  induction d as [|[k w] d IH]; cbn.
  - unfold pystr_eqb. destruct (list_eq_dec N.eq_dec cat cat); [reflexivity|congruence].
  - destruct (pystr_eqb k cat); [reflexivity|assumption].
Qed.

Lemma modify_adds (cat : pystr) (x : Q) (n : nat) (d : list (pystr * CategoryStats)) :
  has_key cat d = true ->
  let f := fun c => mkCategoryStats (numero c + 1) (totale c + x)%Q
                      (transazioni c ++ [n]) in
  (table_total (modify cat f d) == table_total d + x)%Q
  /\ table_count (modify cat f d) = table_count d + 1.
Proof.
  intros H f. unfold table_total, table_count.
  induction d as [|[k v] d IH]; [discriminate|].
  cbn [has_key] in H. cbn [modify].
  unfold Qsum in *.
  destruct (pystr_eqb k cat).
  - cbn [map fold_right snd totale numero f]. split; [ring | lia].
  - destruct (IH H) as [IH1 IH2]. cbn [map fold_right snd].
    split.
    + rewrite IH1. ring.
    + rewrite IH2. lia.
Qed.

Lemma table_total_app (d : list (pystr * CategoryStats)) (cat : pystr) :
  (table_total (d ++ [(cat, mkCategoryStats 0 0%Q [])]) == table_total d)%Q
  /\ table_count (d ++ [(cat, mkCategoryStats 0 0%Q [])]) = table_count d.
Proof.
  unfold table_total, table_count, Qsum.
  induction d as [|[k v] d [IH1 IH2]]; cbn [app map fold_right snd totale numero].
  - split; [ring | reflexivity].
  - split.
    + rewrite IH1. reflexivity.
    + rewrite IH2. reflexivity.
Qed.

Lemma add_to_category_adds (cats : list (pystr * CategoryStats)) (t : Transaction) :
  numbered t ->
  exists cats',
    add_to_category cats t = Ok cats'
    /\ (table_total cats' == table_total cats + importo t)%Q
    /\ table_count cats' = table_count cats + 1.
Proof.
  intros Hn. unfold add_to_category, numbered in *.
  destruct (numero_progressivo t) as [n|]; [|now elim Hn].
  eexists. split; [reflexivity|].
  set (cat := match categoria_suggerita t with Some c => c | None => str "Altro" end).
  destruct (has_key cat cats) eqn:K.
  - now apply modify_adds.
  - destruct (modify_adds cat (importo t) n (cats ++ [(cat, mkCategoryStats 0 0%Q [])])
                (has_key_app _ cat cats _)) as [M1 M2].
    destruct (table_total_app cats cat) as [A1 A2].
    split.
    + rewrite M1, A1. reflexivity.
    + rewrite M2, A2. reflexivity.
Qed.

Lemma category_loop_adds (txs : list Transaction) (cats : list (pystr * CategoryStats)) :
  Forall numbered txs ->
  exists cats',
    category_loop txs cats = Ok cats'
    /\ (table_total cats' == table_total cats + Qsum (map importo txs))%Q
    /\ table_count cats' = table_count cats + length txs.
Proof.
  intros H. revert cats. induction H as [|t txs Ht _ IH]; intros cats.
  - exists cats. unfold Qsum. cbn [category_loop map fold_right length].
    repeat split; [ring | lia].
  - destruct (add_to_category_adds cats t Ht) as (c1 & E1 & T1 & C1).
    destruct (IH c1) as (c2 & E2 & T2 & C2).
    exists c2. cbn [category_loop]. rewrite E1. cbn [bind].
    repeat split; [assumption | |].
    + rewrite T2, T1. unfold Qsum. cbn [map fold_right]. ring.
    + rewrite C2, C1. cbn [length]. lia.
Qed.

(** *** Inflow and outflow populations *)

Lemma fold_max (l : list Q) (m : Q) :
  let r := fold_left (fun m y => if Qpositive (y - m) then y else m) l m in
  (r = m \/ In r l) /\ (m <= r)%Q /\ Forall (fun y => (y <= r)%Q) l.
Proof.
  revert m. induction l as [|x l IH]; intros m; cbn [fold_left].
  - repeat split; [now left | apply Qle_refl | constructor].
  - specialize (IH (if Qpositive (x - m) then x else m)).
    cbv zeta in IH. destruct IH as (I1 & I2 & I3).
    destruct (Qpositive (x - m)) eqn:P.
    + apply Qpositive_spec in P. repeat split.
      * right. destruct I1 as [-> | I1]; [now left | now right].
      * lra.
      * constructor; assumption.
    + assert (N : ~ (0 < x - m)%Q).
      { intros H. apply Qpositive_spec in H. congruence. }
      repeat split.
      * destruct I1 as [-> | I1]; [now left | right; now right].
      * assumption.
      * constructor; [lra | assumption].
Qed.

Lemma fold_min (l : list Q) (m : Q) :
  let r := fold_left (fun m y => if Qnegative (y - m) then y else m) l m in
  (r = m \/ In r l) /\ (r <= m)%Q /\ Forall (fun y => (r <= y)%Q) l.
Proof.
  revert m. induction l as [|x l IH]; intros m; cbn [fold_left].
  - repeat split; [now left | apply Qle_refl | constructor].
  - specialize (IH (if Qnegative (x - m) then x else m)).
    cbv zeta in IH. destruct IH as (I1 & I2 & I3).
    destruct (Qnegative (x - m)) eqn:P.
    + apply Qnegative_spec in P. repeat split.
      * right. destruct I1 as [-> | I1]; [now left | now right].
      * lra.
      * constructor; assumption.
    + assert (N : ~ (x - m < 0)%Q).
      { intros H. apply Qnegative_spec in H. congruence. }
      repeat split.
      * destruct I1 as [-> | I1]; [now left | right; now right].
      * assumption.
      * constructor; [lra | assumption].
Qed.

Lemma py_max_greatest (x : Q) (l : list Q) :
  exists m, py_max (x :: l) = Ok m /\ greatest m (x :: l).
Proof.
  eexists. split; [reflexivity|]. pose proof (fold_max l x) as (I1 & I2 & I3).
  split.
  - destruct I1 as [-> | I1]; [now left | now right].
  - constructor; assumption.
Qed.

Lemma py_min_least (x : Q) (l : list Q) :
  exists m, py_min (x :: l) = Ok m /\ least m (x :: l).
Proof.
  eexists. split; [reflexivity|]. pose proof (fold_min l x) as (I1 & I2 & I3).
  split.
  - destruct I1 as [-> | I1]; [now left | now right].
  - constructor; assumption.
Qed.

Lemma outflows_negative (txs : list Transaction) :
  Forall (fun x => (x < 0)%Q) (outflows txs).
Proof.
  unfold outflows. apply Forall_map, Forall_forall. intros t H.
  apply filter_In in H. now apply Qnegative_spec.
Qed.

Lemma Qsum_negative (l : list Q) :
  Forall (fun x => (x < 0)%Q) l -> (Qsum l <= 0)%Q.
Proof.
  unfold Qsum. induction 1 as [|x l Hx _ IH]; cbn [fold_right]; lra.
Qed.

(** What the aggregator returns for a record set that is not empty. *)
Lemma statistics_of_records (t : Transaction) (l : list Transaction) :
  Forall numbered (t :: l) ->
  exists s,
    _calculate_statistics (t :: l) = Ok (Some s)
    /\ numero_transazioni s = length (t :: l)
    /\ numero_entrate s = length (inflows (t :: l))
    /\ numero_uscite s = length (outflows (t :: l))
    /\ totale_entrate s = py_sum (inflows (t :: l))
    /\ totale_uscite s = Qabs (py_sum (outflows (t :: l)))
    /\ saldo_movimento s = py_sum (map importo (t :: l))
    /\ (inflows (t :: l) = [] -> media_entrate s = 0%Q /\ max_entrata s = 0%Q)
    /\ (inflows (t :: l) <> [] ->
        media_entrate s = average (totale_entrate s) (numero_entrate s)
        /\ greatest (max_entrata s) (inflows (t :: l)))
    /\ (outflows (t :: l) = [] -> media_uscite s = 0%Q /\ max_uscita s = 0%Q)
    /\ (outflows (t :: l) <> [] ->
        media_uscite s = average (totale_uscite s) (numero_uscite s)
        /\ exists m, least m (outflows (t :: l)) /\ max_uscita s = Qabs m)
    /\ (table_total (categorie s) == Qsum (map importo (t :: l)))%Q
    /\ table_count (categorie s) = length (t :: l).
Proof.
  intros Hn.
  destruct (category_loop_adds (t :: l) [] Hn) as (cats & Ec & Tc & Cc).
  unfold _calculate_statistics. cbv zeta.
  fold (inflows (t :: l)). fold (outflows (t :: l)).
  rewrite !py_count_ones. rewrite Ec.
  destruct (inflows (t :: l)) as [|x en] eqn:Ein;
    destruct (outflows (t :: l)) as [|y us] eqn:Eus.
  all: cbn [length Nat.ltb Nat.leb py_div bind fst snd].
  all: try (destruct (py_max_greatest x en) as (mx & Emx & Gmx); rewrite Emx).
  all: try (destruct (py_min_least y us) as (mn & Emn & Gmn); rewrite Emn).
  all: cbn [bind fst snd].
  all: eexists; split; [reflexivity|].
  all: cbn [numero_transazioni numero_entrate numero_uscite totale_entrate
            totale_uscite saldo_movimento media_entrate media_uscite
            max_entrata max_uscita categorie].
  all: repeat split; try reflexivity; try congruence; try assumption.
  all: try (intros _; split; [reflexivity | first [assumption | now exists mn]]).
  all: try (rewrite Tc; unfold table_total, Qsum; cbn [map fold_right]; ring).
  all: try (exists mn; split; [assumption | reflexivity]).
  all: try (apply Gmx).
Qed.

(** *** A record without a transaction date *)

Lemma insert_raises_type_error (x : Transaction) (s : list Transaction) (e : exn) :
  insert x s = Raise e -> e = TypeError.
Proof.
  induction s as [|y s IH]; cbn [insert]; [discriminate|].
  unfold key_lt.
  destruct (data_transazione y), (data_transazione x); cbn [bind];
    try (now intros [= <-]).
  destruct (date_ltb d d0); [|discriminate].
  destruct (insert x s) eqn:I; cbn [bind]; [discriminate|].
  intros [= <-]. now apply IH.
Qed.

Lemma sort_raises_type_error (l : list Transaction) (e : exn) :
  sort_by_date l = Raise e -> e = TypeError.
Proof.
  revert e. induction l as [|x l IH]; intros e; cbn [sort_by_date]; [discriminate|].
  destruct (sort_by_date l) as [s|e'] eqn:S; cbn [bind].
  - apply insert_raises_type_error.
  - intros [= <-]. now apply IH.
Qed.

Lemma insert_ok_dates (x y : Transaction) (s s' : list Transaction) :
  insert x (y :: s) = Ok s' -> has_date x /\ has_date y.
Proof.
  cbn [insert]. unfold key_lt, has_date.
  destruct (data_transazione y), (data_transazione x); cbn [bind];
    try discriminate.
  intros _. split; discriminate.
Qed.

Lemma insert_length (x : Transaction) (s s' : list Transaction) :
  insert x s = Ok s' -> length s' = S (length s).
Proof.
  revert s'. induction s as [|y s IH]; intros s'; cbn [insert].
  - now intros [= <-].
  - destruct (key_lt (data_transazione y) (data_transazione x)) as [[|]|];
      cbn [bind]; try discriminate.
    + destruct (insert x s) as [s1|]; cbn [bind]; [|discriminate].
      intros [= <-]. cbn [length]. now rewrite (IH s1).
    + now intros [= <-].
Qed.

Lemma sort_length (l s : list Transaction) :
  sort_by_date l = Ok s -> length s = length l.
Proof.
  revert s. induction l as [|x l IH]; intros s; cbn [sort_by_date].
  - now intros [= <-].
  - destruct (sort_by_date l) as [s1|]; cbn [bind]; [|discriminate].
    intros I. apply insert_length in I. cbn [length]. now rewrite I, (IH s1).
Qed.

Lemma sort_ok_dates (l s : list Transaction) :
  sort_by_date l = Ok s -> 2 <= length l -> Forall has_date l.
Proof.
  revert s. induction l as [|x l IH]; intros s E L; [cbn in L; lia|].
  cbn [sort_by_date] in E.
  destruct (sort_by_date l) as [s1|] eqn:S; cbn [bind] in E; [|discriminate].
  pose proof (sort_length _ _ S) as Len.
  destruct s1 as [|y s1]; [cbn in Len, L; lia|].
  destruct (insert_ok_dates _ _ _ _ E) as [Hx Hy].
  constructor; [assumption|].
  destruct l as [|z [|z' l]].
  - cbn in L. lia.
  - cbn in S. injection S as <- <-. now constructor.
  - apply (IH (y :: s1)); [reflexivity | cbn; lia].
Qed.

(** C3, where the code fails.  The page below has two transaction-start
    lines; the date 31/02/24 of the first does not parse and becomes [None],
    and the global sort by date then raises [TypeError] instead of returning
    the records. *)
Theorem C3_absent_date_breaks_sort :
  map data_transazione (_extract_transactions_from_page c3_page 1)
    = [None; Some (mkdate 2024 3 1)]
  /\ _extract_all_transactions [c3_page] = Raise TypeError.
Proof. vm_compute. split; reflexivity. Qed.

(** Two or more records, one of them without a transaction date: the sort
    raises [TypeError]. *)
Theorem absent_date_raises (page_texts : list pystr) :
  2 <= length (all_pages page_texts) ->
  Exists (fun t => data_transazione t = None) (all_pages page_texts) ->
  _extract_all_transactions page_texts = Raise TypeError.
Proof.
  intros L X. unfold _extract_all_transactions.
  destruct (sort_by_date (all_pages page_texts)) as [s|e] eqn:S; cbn [bind].
  - exfalso. pose proof (sort_ok_dates _ _ S L) as F.
    apply Exists_exists in X. destruct X as (t & Ht & Nt).
    rewrite Forall_forall in F. now apply (F t Ht).
  - f_equal. now apply (sort_raises_type_error _ _ S).
Qed.

(** The page of C3 has two records, the first without a date. *)
Lemma absent_date_raises_witness :
  _extract_all_transactions [c3_page] = Raise TypeError.
Proof.
  apply (absent_date_raises [c3_page]).
  - vm_compute. lia.
  - apply Exists_cons_hd. vm_compute. reflexivity.
Defined.

(** *** Soundness of the matcher *)

Lemma drop_prefix_sound (l s s' : pystr) :
  Re.drop_prefix l s = Some s' -> s = l ++ s'.
Proof.
  revert s. induction l as [|a l IH]; intros [|b s]; cbn; try discriminate.
  - now intros [= <-].
  - now intros [= <-].
  - destruct (N.eqb_spec a b); [|discriminate]. subst b.
    intros H. now rewrite (IH _ H).
Qed.

Lemma rep_sound (A : Type) (p : char -> bool) (n : nat) (s : pystr)
    (k : pystr -> option A) (x : A) :
  Re.rep p n s k = Some x ->
  exists t rest, s = t ++ rest /\ length t = n /\ forallb p t = true
                 /\ k rest = Some x.
Proof.
  revert s. induction n as [|n IH]; intros s; cbn [Re.rep].
  - intros H. now exists [], s.
  - destruct s as [|c s]; [discriminate|]. destruct (p c) eqn:Pc; [|discriminate].
    intros H. destruct (IH _ H) as (t & rest & -> & L & F & K).
    exists (c :: t), rest. cbn. rewrite Pc, L. now repeat split.
Qed.

Lemma star_sound (A : Type) (p : char -> bool) (s : pystr)
    (k : pystr -> option A) (x : A) :
  Re.star p s k = Some x ->
  exists t rest, s = t ++ rest /\ forallb p t = true /\ k rest = Some x.
Proof.
  induction s as [|c s IH]; cbn [Re.star].
  - intros H. now exists [], [].
  - destruct (p c) eqn:Pc.
    + destruct (Re.star p s k) as [y|] eqn:S.
      * intros [= <-]. destruct (IH eq_refl) as (t & rest & -> & F & K).
        exists (c :: t), rest. cbn. rewrite Pc. now repeat split.
      * intros H. now exists [], (c :: s).
    + intros H. now exists [], (c :: s).
Qed.

Lemma plus_sound (A : Type) (p : char -> bool) (s : pystr)
    (k : pystr -> option A) (x : A) :
  Re.plus p s k = Some x ->
  exists t rest, s = t ++ rest /\ t <> [] /\ forallb p t = true
                 /\ k rest = Some x.
Proof.
  unfold Re.plus. destruct s as [|c s]; [discriminate|].
  destruct (p c) eqn:Pc; [|discriminate]. intros H.
  destruct (star_sound _ _ _ _ _ H) as (t & rest & -> & F & K).
  exists (c :: t), rest. cbn. rewrite Pc. repeat split; try assumption.
  discriminate.
Qed.

(** Soundness of the matcher: when [exec] succeeds, the pattern consumed a
    text it can match and the continuation succeeded on what is left. *)
Lemma exec_sound (A : Type) (r : Re.regex) :
  forall (s : pystr) (caps : list pystr)
         (k : pystr -> list pystr -> option A) (x : A),
  Re.exec r s caps k = Some x ->
  exists t rest caps',
    s = t ++ rest /\ matched r t rest /\ k rest caps' = Some x
    /\ (group_free r = true -> caps' = caps).
Proof.
  induction r as [l|p n|p|p|r1 IH1 r2 IH2|r IH|]; intros s caps k x;
    cbn [Re.exec matched group_free].
  - destruct (Re.drop_prefix l s) as [s'|] eqn:D; [|discriminate].
    intros H. apply drop_prefix_sound in D. now exists l, s', caps.
  - intros H. destruct (rep_sound _ _ _ _ _ _ H) as (t & rest & -> & L & F & K).
    now exists t, rest, caps.
  - intros H. destruct (plus_sound _ _ _ _ _ H) as (t & rest & -> & L & F & K).
    now exists t, rest, caps.
  - intros H. destruct (star_sound _ _ _ _ _ H) as (t & rest & -> & F & K).
    now exists t, rest, caps.
  - intros H.
    destruct (IH1 _ _ _ _ H) as (a & rest1 & caps1 & -> & M1 & K1 & G1).
    destruct (IH2 _ _ _ _ K1) as (b & rest & caps2 & -> & M2 & K2 & G2).
    exists (a ++ b), rest, caps2. rewrite <- app_assoc.
    repeat split; try assumption.
    + now exists a, b.
    + intros G. apply andb_true_iff in G. destruct G as [Ga Gb].
      rewrite (G2 Gb). now apply G1.
  - intros H.
    destruct (IH _ _ _ _ H) as (t & rest & caps' & -> & M & K & G).
    exists t, rest, (caps' ++ [firstn (length (t ++ rest) - length rest) (t ++ rest)]).
    repeat split; try assumption. discriminate.
  - destruct s as [|c [|c' s]]; try discriminate.
    + intros H. exists [], [], caps. repeat split; try assumption. now left.
    + destruct (N.eqb_spec c newline); [|discriminate]. subst c.
      intros H. exists [], [newline], caps. repeat split; try assumption.
      now right.
Qed.

Lemma firstn_consumed (t rest : pystr) :
  firstn (length (t ++ rest) - length rest) (t ++ rest) = t.
Proof.
  rewrite length_app. replace (length t + length rest - length rest) with (length t) by lia.
  rewrite firstn_app, Nat.sub_diag, firstn_all. cbn. apply app_nil_r.
Qed.

(** A match of one group around a pattern without groups: the group is the
    text matched. *)
Lemma mtch_group (r : Re.regex) (s rest : pystr) (caps : list pystr) :
  group_free r = true ->
  Re.mtch (Re.Grp r) s = Some (caps, rest) ->
  exists t, s = t ++ rest /\ matched r t rest /\ caps = [t].
Proof.
  intros G H. unfold Re.mtch in H. cbn [Re.exec] in H.
  destruct (exec_sound _ _ _ _ _ _ H) as (t & rest' & caps' & -> & M & K & G').
  injection K as <- <-. rewrite (G' G). exists t. repeat split; try assumption.
  cbn [app]. now rewrite firstn_consumed.
Qed.

(** Every item [findall] returns for such a pattern is a piece of the text
    that the pattern matches. *)
Lemma findall_from_matched (r : Re.regex) (tok : pystr) :
  group_free r = true ->
  forall (s : pystr) (skip : nat),
  In tok (Re.findall_from (Re.Grp r) s skip) ->
  exists before after, s = before ++ tok ++ after /\ matched r tok after.
Proof.
  intros G. induction s as [|c s IH]; intros skip; cbn [Re.findall_from].
  - intros [].
  - assert (Later : forall n, In tok (Re.findall_from (Re.Grp r) s n) ->
              exists before after,
                c :: s = before ++ tok ++ after /\ matched r tok after).
    { intros n H. destruct (IH _ H) as (b & a & -> & M).
      now exists (c :: b), a. }
    destruct skip as [|n]; [|apply Later].
    destruct (Re.mtch (Re.Grp r) (c :: s)) as [[caps rest]|] eqn:M; [|apply Later].
    destruct (mtch_group _ _ _ _ G M) as (t & E & Mt & ->).
    cbn [hd In]. intros [<-|H]; [|now apply (Later _ H)].
    exists [], rest. now split.
Qed.

(** *** The money tokens of a line *)

Lemma digits_filter (s : pystr) : digits (filter isdigit s).
Proof.
  apply Forall_forall. intros c H. now apply filter_In in H.
Qed.

Lemma filter_digits (s : pystr) : digits s -> filter isdigit s = s.
Proof.
  induction 1 as [|c s Hc _ IH]; cbn; [reflexivity|]. now rewrite Hc, IH.
Qed.

(** Removing the points of a run of digits and points leaves its digits. *)
Lemma remove_points_run (run : pystr) :
  forallb digit_dot run = true ->
  replace_char 46%N [] run = filter isdigit run.
Proof.
  unfold replace_char. induction run as [|c run IH]; cbn; [reflexivity|].
  intros H. apply andb_true_iff in H. destruct H as [Hc Hr].
  rewrite (IH Hr). unfold digit_dot in Hc.
  destruct (N.eqb_spec c 46) as [->|Hne]; [reflexivity|].
  rewrite orb_false_r in Hc. now rewrite Hc.
Qed.

Lemma digit_dot_not_space (c : char) : digit_dot c = true -> isspace c = false.
Proof.
  unfold digit_dot. intros H. apply orb_true_iff in H. destruct H as [H|H].
  - now apply digit_not_space.
  - apply N.eqb_eq in H. now subst c.
Qed.

Lemma digit_dot_not_euro (run : pystr) :
  forallb digit_dot run = true -> Forall (fun x => x <> euro) run.
Proof.
  intros H. apply Forall_forall. intros c Hc ->.
  rewrite forallb_forall in H. specialize (H _ Hc). vm_compute in H.
  discriminate.
Qed.

(** What [float] reads in digits, a point and two digits; there may be no
    digit before the point. *)
Lemma float_decimal (a : pystr) (c1 c2 : char) :
  digits a -> digits [c1; c2] ->
  float (a ++ (46%N :: [c1; c2]))
  = Some (Qmake (digits_value (a ++ [c1; c2])) 100).
Proof.
  intros Ha Hc. destruct a as [|x a].
  - assert (Hc1 : isdigit c1 = true) by (now inversion Hc).
    assert (Hc2 : isdigit c2 = true).
    { inversion Hc as [|? ? _ Hc']. now inversion Hc'. }
    assert (S : strip [46%N; c1; c2] = [46%N; c1; c2]).
    { unfold strip. rewrite lstrip_first by reflexivity.
      change [46%N; c1; c2] with ([46%N; c1] ++ [c2]).
      apply rstrip_last. now apply digit_not_space. }
    cbn [app]. unfold float. rewrite S.
    change (N.eqb 46%N 45%N) with false. change (N.eqb 46%N 43%N) with false.
    cbv iota. unfold unsigned_decimal.
    change (span isdigit [46%N; c1; c2]) with (@nil char, [46%N; c1; c2]).
    cbn [fst snd forallb is_empty]. rewrite Hc1, Hc2. reflexivity.
  - apply float_two_decimals; [assumption | discriminate | assumption].
Qed.

Lemma digits_value_nonneg (s : pystr) : digits s -> (0 <= digits_value s)%Z.
Proof.
  unfold digits_value.
  assert (G : forall acc, (0 <= acc)%Z -> digits s ->
    (0 <= fold_left (fun acc c => (10 * acc + (Z.of_N c - 48))%Z) s acc)%Z).
  { induction s as [|c s IH]; intros acc Hacc Hs; cbn [fold_left]; [assumption|].
    inversion Hs as [|? ? Hc Hs']; subst. apply IH; [|assumption].
    apply digit_range in Hc. lia. }
  intros H. apply G; [lia | assumption].
Qed.

(** The shape of the texts [amount_pattern] matches. *)
Lemma amount_token_shape (tok after : pystr) :
  matched (Re.Plus digit_dot >> Re.Lit (str ",") >> Re.Rep isdigit 2) tok after ->
  exists run c1 c2,
    tok = run ++ [44%N; c1; c2] /\ run <> []
    /\ forallb digit_dot run = true /\ digits [c1; c2].
Proof.
  cbn [matched]. intros (run & b & -> & (Hne & Hrun) & (b1 & b2 & -> & -> & L & F)).
  destruct b2 as [|c1 [|c2 [|c3 b2]]]; cbn in L; try discriminate.
  exists run, c1, c2. repeat split; try assumption.
  cbn in F. apply andb_true_iff in F. destruct F as [F1 F2].
  rewrite andb_true_r in F2. now repeat constructor.
Qed.

(** A text of that shape goes through [_parse_amount] without the fallback
    to zero. *)
Lemma amount_shape_parse (run : pystr) (c1 c2 : char) :
  run <> [] -> forallb digit_dot run = true -> digits [c1; c2] ->
  let tok := run ++ [44%N; c1; c2] in
  float (normalised tok) = Some (Qmake (hundredths tok) 100)
  /\ _parse_amount tok = Qmake (hundredths tok) 100.
Proof.
  intros Hne Hrun Hc tok.
  assert (Hc2 : isspace c2 = false).
  { inversion Hc as [|? ? _ Hc']; inversion Hc'; now apply digit_not_space. }
  assert (S : strip tok = tok).
  { unfold tok, strip. destruct run as [|x run]; [now elim Hne|].
    cbn [app]. rewrite lstrip_first.
    - replace (x :: run ++ [44%N; c1; c2]) with ((x :: run ++ [44%N; c1]) ++ [c2])
        by (cbn; rewrite <- app_assoc; reflexivity).
      now apply rstrip_last.
    - apply digit_dot_not_space. cbn in Hrun.
      now apply andb_true_iff in Hrun. }
  assert (E : replace_char euro [] tok = tok).
  { apply replace_char_absent. unfold tok. apply Forall_app. split.
    - now apply digit_dot_not_euro.
    - constructor; [discriminate|].
      apply digits_not; [assumption | vm_compute; right; reflexivity]. }
  assert (H : hundredths tok = digits_value (filter isdigit run ++ [c1; c2])).
  { unfold hundredths, tok. rewrite filter_app. f_equal. f_equal.
    change [44%N; c1; c2] with ([44%N] ++ [c1; c2]). rewrite filter_app.
    change (filter isdigit [44%N]) with (@nil char).
    now rewrite filter_digits by assumption. }
  assert (F : float (normalised tok) = Some (Qmake (hundredths tok) 100)).
  { unfold normalised. rewrite S, E, S. unfold tok.
    rewrite !replace_char_app, remove_points_run by assumption.
    rewrite (replace_char_absent 46%N [] [44%N; c1; c2])
      by (constructor; [discriminate | apply digits_not; [assumption | lia]]).
    rewrite (replace_char_absent 44%N (str ".") (filter isdigit run))
      by (apply digits_not; [apply digits_filter | lia]).
    change [44%N; c1; c2] with ([44%N] ++ [c1; c2]).
    rewrite replace_char_app.
    rewrite (replace_char_absent 44%N (str ".") [c1; c2])
      by (apply digits_not; [assumption | lia]).
    change (replace_char 44%N (str ".") [44%N]) with [46%N].
    cbn [app]. rewrite float_decimal by (apply digits_filter || assumption).
    fold tok. now rewrite H. }
  split; [exact F|].
  rewrite parse_amount_unfold.
  - now rewrite F.
  - rewrite S. unfold tok. destruct run; [now elim Hne | discriminate].
Qed.

Lemma hundredths_nonneg (tok : pystr) : (0 <= hundredths tok)%Z.
Proof. apply digits_value_nonneg, digits_filter. Qed.

(** A money token of a line, as [_parse_amount] reads it. *)
Lemma findall_amount_parse (line tok : pystr) :
  In tok (Re.findall amount_pattern line) ->
  float (normalised tok) = Some (Qmake (hundredths tok) 100)
  /\ _parse_amount tok = Qmake (hundredths tok) 100.
Proof.
  intros H. unfold Re.findall, amount_pattern in H.
  apply findall_from_matched in H; [|reflexivity].
  destruct H as (before & after & _ & M).
  destruct (amount_token_shape _ _ M) as (run & c1 & c2 & -> & Hne & Hrun & Hc).
  now apply amount_shape_parse.
Qed.

(** Every item [re.findall] extracts from a line with [amount_pattern] is a
    piece of the line that [_parse_amount] reads without its fallback:
    [float] accepts the normalised text, and the amount is the digits of the
    token read as hundredths, so it is never negative. *)
Theorem amount_tokens_never_fall_back (line tok : pystr) :
  In tok (Re.findall amount_pattern line) ->
  substring tok line
  /\ float (normalised tok) <> None
  /\ _parse_amount tok = Qmake (hundredths tok) 100
  /\ (0 <= _parse_amount tok)%Q.
Proof.
  intros H. destruct (findall_amount_parse _ _ H) as [F P].
  repeat split.
  - unfold Re.findall, amount_pattern in H.
    apply findall_from_matched in H; [|reflexivity].
    destruct H as (before & after & E & _). now exists before, after.
  - rewrite F. discriminate.
  - exact P.
  - rewrite P. unfold Qle. cbn [Qnum Qden]. pose proof (hundredths_nonneg tok). lia.
Qed.

(** On the token 1.500,00 of the line of C1. *)
Lemma amount_tokens_never_fall_back_witness :
  substring (str "1.500,00") c1_line
  /\ float (normalised (str "1.500,00")) <> None
  /\ _parse_amount (str "1.500,00") = Qmake (hundredths (str "1.500,00")) 100
  /\ (0 <= _parse_amount (str "1.500,00"))%Q.
Proof.
  apply (amount_tokens_never_fall_back c1_line (str "1.500,00")).
  vm_compute. left. reflexivity.
Defined.

(** *** Well-formed records *)

Lemma parse_amount_token_nonneg (line tok : pystr) :
  In tok (Re.findall amount_pattern line) -> (0 <= _parse_amount tok)%Q.
Proof.
  intros H. destruct (findall_amount_parse _ _ H) as [_ P]. rewrite P.
  unfold Qle. cbn [Qnum Qden]. pose proof (hundredths_nonneg tok). lia.
Qed.

Lemma truthy_positive (q : Q) :
  (0 <= q)%Q -> truthy (Some q) = true -> (0 < q)%Q.
Proof.
  unfold truthy. intros H T. apply negb_true_iff in T.
  destruct (Qlt_le_dec 0 q) as [L|L]; [assumption|].
  assert (E : (q == 0)%Q) by (now apply Qle_antisym).
  apply Qeq_bool_iff in E. congruence.
Qed.

Lemma net_columns_agree (u e : option Q) :
  (forall q, u = Some q -> (0 <= q)%Q) ->
  (forall q, e = Some q -> (0 <= q)%Q) ->
  columns_agree u e
    (if truthy e then amount_of e
     else if truthy u then (- amount_of u)%Q else 0%Q).
Proof.
  intros Hu He. repeat split; try assumption.
  - destruct (truthy e) eqn:Te.
    + destruct e as [q|]; [reflexivity | discriminate].
    + destruct (truthy u) eqn:Tu.
      * destruct u as [q|]; [|discriminate]. cbn [amount_of]. intros L.
        pose proof (Hu q eq_refl). lra.
      * intros L. lra.
  - destruct (truthy e) eqn:Te.
    + destruct e as [q|]; [|discriminate]. cbn [amount_of]. intros L.
      pose proof (He q eq_refl). lra.
    + destruct (truthy u) eqn:Tu.
      * destruct u as [q|]; [|discriminate]. cbn [amount_of]. intros _.
        now exists q.
      * intros L. lra.
Qed.

Lemma parse_amounts_agree (line : pystr) :
  let r := _parse_transaction_amounts line in
  columns_agree (TransData.uscita r) (TransData.entrata r)
    (TransData.importo_netto r).
Proof.
  assert (N := parse_amount_token_nonneg line).
  unfold _parse_transaction_amounts.
  destruct (Re.findall amount_pattern line) as [|a0 more]; cbn zeta.
  - cbn [TransData.uscita TransData.entrata TransData.importo_netto].
    apply net_columns_agree; discriminate.
  - assert (N0 : (0 <= _parse_amount a0)%Q) by (apply N; now left).
    destruct (find a0 line >? 20)%Z;
      cbn [TransData.uscita TransData.entrata TransData.importo_netto].
    + apply net_columns_agree; [discriminate | now intros q [= <-]].
    + apply net_columns_agree; [now intros q [= <-]|].
      destruct more as [|a1 more]; [discriminate|].
      intros q [= <-]. apply N. right. now left.
Qed.

Lemma start_of_line_fresh (line : pystr) (page_num : nat) (t : Transaction) :
  start_of_line line page_num = Some t -> fresh_record page_num t.
Proof.
  unfold start_of_line.
  destruct (Re.mtch transaction_start line) as [[caps rest]|]; [|discriminate].
  intros [= <-]. unfold fresh_record, type_by_sign, new_transaction.
  cbn [importo_uscita importo_entrata importo tipo_movimento pagina
       categoria_suggerita numero_progressivo].
  split; [apply parse_amounts_agree | repeat split].
Qed.

Lemma reconstruct_fresh (page_num : nat) (lines : list pystr) :
  Forall (fresh_record page_num) (reconstruct page_num lines).
Proof.
  apply reconstruct_ok.
  - intros line t. apply start_of_line_fresh.
  - intros t d H. exact H.
Qed.

(** The records of a page are those of [reconstruct], finished. *)
Lemma page_record_inv (page_text : pystr) (page_num : nat) (t : Transaction) :
  In t (_extract_transactions_from_page page_text page_num) ->
  exists t0, fresh_record page_num t0 /\ t = finish t0.
Proof.
  unfold _extract_transactions_from_page.
  destruct (table_lines (split newline page_text)) as [body|]; [|intros []].
  intros H. apply in_map_iff in H. destruct H as (t0 & <- & H0).
  exists t0. split; [|reflexivity].
  pose proof (reconstruct_fresh page_num body) as F.
  rewrite Forall_forall in F. now apply F.
Qed.

(** In every record of a page the two amount columns are never negative,
    the movement type is [ENTRATA] exactly when the net amount is positive,
    a positive net amount is the inflow column and a negative one is the
    outflow column with its sign turned. *)
Theorem record_direction (page_text : pystr) (page_num : nat) (t : Transaction) :
  In t (_extract_transactions_from_page page_text page_num) ->
  (forall q, importo_uscita t = Some q -> (0 <= q)%Q)
  /\ (forall q, importo_entrata t = Some q -> (0 <= q)%Q)
  /\ (tipo_movimento t = ENTRATA <-> (0 < importo t)%Q)
  /\ ((0 < importo t)%Q -> importo_entrata t = Some (importo t))
  /\ ((importo t < 0)%Q ->
      exists q, importo_uscita t = Some q /\ importo t = (- q)%Q).
Proof.
  intros H. destruct (page_record_inv _ _ _ H) as (t0 & F & ->).
  destruct F as ((U & E & Pos & Neg) & T & _).
  unfold finish. cbn [importo_uscita importo_entrata importo tipo_movimento
                      set_categoria set_descrizione].
  repeat split; try assumption.
  - unfold type_by_sign in T. rewrite T.
    destruct (Qpositive (importo t0)) eqn:P; [|discriminate].
    intros _. now apply Qpositive_spec.
  - intros L. apply Qpositive_spec in L. unfold type_by_sign in T.
    now rewrite T, L.
Qed.

(** On the record of the page of C2. *)
Lemma record_direction_witness :
  (forall q, importo_uscita c2_record = Some q -> (0 <= q)%Q)
  /\ (forall q, importo_entrata c2_record = Some q -> (0 <= q)%Q)
  /\ (tipo_movimento c2_record = ENTRATA <-> (0 < importo c2_record)%Q)
  /\ ((0 < importo c2_record)%Q
      -> importo_entrata c2_record = Some (importo c2_record))
  /\ ((importo c2_record < 0)%Q ->
      exists q, importo_uscita c2_record = Some q
                /\ importo c2_record = (- q)%Q).
Proof.
  apply (record_direction c2_page 1 c2_record).
  vm_compute. left. reflexivity.
Defined.

(** Every record of a page carries the number of that page, has no
    sequence number yet, and its suggested category is the one
    [_suggest_category] gives for its final, cleaned description. *)
Theorem record_bookkeeping (page_text : pystr) (page_num : nat)
    (t : Transaction) :
  In t (_extract_transactions_from_page page_text page_num) ->
  pagina t = page_num
  /\ numero_progressivo t = None
  /\ categoria_suggerita t = Some (_suggest_category (descrizione t)).
Proof.
  intros H. destruct (page_record_inv _ _ _ H) as (t0 & F & ->).
  destruct F as (_ & _ & Pg & _ & Nu).
  unfold finish. cbn [pagina numero_progressivo categoria_suggerita descrizione
                      set_categoria set_descrizione].
  now repeat split.
Qed.

(** On the record of the page of C2. *)
Lemma record_bookkeeping_witness :
  pagina c2_record = 1
  /\ numero_progressivo c2_record = None
  /\ categoria_suggerita c2_record
     = Some (_suggest_category (descrizione c2_record)).
Proof.
  apply (record_bookkeeping c2_page 1 c2_record).
  vm_compute. left. reflexivity.
Defined.

(** The label [suggest_in] returns is one of the table's, or [Altro]. *)
Lemma suggest_in_label (table : list (pystr * list pystr)) (d : pystr) :
  In (suggest_in table d) (str "Altro" :: map fst table).
Proof.
  induction table as [|[category keywords] table IH]; cbn [suggest_in map fst].
  - now left.
  - destruct (first_keyword keywords d).
    + right. now left.
    + destruct IH as [IH|IH]; [now left | right; now right].
Qed.

(** Every label [_suggest_category] can return is a key of the importer's
    [categoria_mapping]: the lookup of [_import_transactions] never falls
    back to its default, and it gives [Altro Personale] exactly for the
    label [Altro]. *)
Theorem suggested_category_is_mapped (t : Transaction) (description : pystr) :
  BPERImporter.get (_suggest_category description)
    BPERImporter.categoria_mapping
  = Some (BPERImporter.cat_sistema
            (set_categoria t (_suggest_category description)))
  /\ (BPERImporter.cat_sistema
        (set_categoria t (_suggest_category description))
      = str "Altro Personale"
      <-> _suggest_category description = str "Altro").
Proof.
  unfold BPERImporter.cat_sistema.
  cbn [categoria_suggerita set_categoria].
  unfold _suggest_category.
  pose proof (suggest_in_label categories (lower description)) as H.
  cbn [categories map fst In] in H.
  repeat (destruct H as [H|H];
          [rewrite <- H; vm_compute;
           split; [reflexivity
                  | split; intros E; first [reflexivity | discriminate E]]|]).
  destruct H.
Qed.

(** *** Cleaned descriptions *)

(** A greedy repetition followed by nothing that can fail takes the whole
    run. *)
Lemma star_greedy (A : Type) (p : char -> bool) (s : pystr) (g : pystr -> A) :
  Re.star p s (fun s' => Some (g s')) = Some (g (dropWhile p s)).
Proof.
  induction s as [|c s IH]; cbn [Re.star dropWhile]; [reflexivity|].
  destruct (p c); [now rewrite IH | reflexivity].
Qed.

Lemma mtch_spaces (s : pystr) :
  Re.mtch spaces s
  = match s with
    | c :: s' => if isspace c then Some ([], dropWhile isspace s') else None
    | [] => None
    end.
Proof.
  unfold Re.mtch, spaces. cbn [Re.exec]. unfold Re.plus.
  destruct s as [|c s]; [reflexivity|]. destruct (isspace c); [|reflexivity].
  apply (star_greedy _ isspace s (fun s' => (@nil pystr, s'))).
Qed.

Lemma dropWhile_length (p : char -> bool) (s : pystr) :
  length (dropWhile p s) <= length s.
Proof.
  induction s as [|c s IH]; cbn; [lia|]. destruct (p c); cbn; lia.
Qed.

(** Skipping the characters a match covered resumes after them. *)
Lemma sub_from_skip_app (r : Re.regex) (repl a b : pystr) :
  Re.sub_from r repl (a ++ b) (length a) = Re.sub_from r repl b 0.
Proof.
  induction a as [|c a IH]; cbn [app length Re.sub_from]; [|exact IH].
  now destruct b.
Qed.

Lemma dropWhile_split (p : char -> bool) (s : pystr) :
  exists a, s = a ++ dropWhile p s /\ forallb p a = true.
Proof.
  induction s as [|c s (a & E & F)]; cbn [dropWhile].
  - now exists [].
  - destruct (p c) eqn:Pc.
    + exists (c :: a). cbn. rewrite Pc, F. split; [now f_equal | reflexivity].
    + now exists [].
Qed.

Lemma sub_spaces_step (c : char) (s : pystr) :
  Re.sub spaces (str " ") (c :: s)
  = if isspace c then 32%N :: Re.sub spaces (str " ") (dropWhile isspace s)
    else c :: Re.sub spaces (str " ") s.
Proof.
  unfold Re.sub. cbn [Re.sub_from]. rewrite mtch_spaces.
  destruct (isspace c); [|reflexivity].
  destruct (dropWhile_split isspace s) as (a & E & _).
  assert (L : length (c :: s) - length (dropWhile isspace s) = S (length a)).
  { cbn [length]. rewrite E at 1. rewrite length_app. lia. }
  rewrite L. rewrite E at 1. rewrite sub_from_skip_app. reflexivity.
Qed.

Lemma dropWhile_head (p : char -> bool) (s : pystr) :
  match dropWhile p s with [] => True | d :: _ => p d = false end.
Proof.
  induction s as [|c s IH]; cbn [dropWhile]; [exact I|].
  destruct (p c) eqn:Pc; [exact IH | exact Pc].
Qed.

(** [re.sub(r'\s+', ' ', s)] leaves single spaces only. *)
Lemma sub_spaces_single (s : pystr) :
  single_spaced (Re.sub spaces (str " ") s).
Proof.
  remember (length s) as n eqn:Hn.
  assert (Hle : length s <= n) by lia. clear Hn. revert s Hle.
  induction n as [|n IH]; intros [|c s] Hle; try exact I.
  - cbn in Hle. lia.
  - rewrite sub_spaces_step. destruct (isspace c) eqn:Sc.
    + cbn [single_spaced]. split.
      * intros _. split; [reflexivity|].
        pose proof (dropWhile_head isspace s) as Hd.
        destruct (dropWhile isspace s) as [|d rest]; [exact I|].
        rewrite sub_spaces_step, Hd. exact Hd.
      * apply IH. pose proof (dropWhile_length isspace s). cbn in Hle. lia.
    + cbn [single_spaced]. split.
      * rewrite Sc. discriminate.
      * apply IH. cbn in Hle. lia.
Qed.

Lemma single_spaced_prefix (a b : pystr) :
  single_spaced (a ++ b) -> single_spaced a.
Proof.
  induction a as [|c a IH]; cbn [app single_spaced]; [trivial|].
  intros [H1 H2]. split; [|now apply IH].
  intros Sc. destruct (H1 Sc) as [E N]. split; [assumption|].
  destruct a; [exact I | exact N].
Qed.

Lemma single_spaced_suffix (a b : pystr) :
  single_spaced (a ++ b) -> single_spaced b.
Proof.
  induction a as [|c a IH]; cbn [app single_spaced]; [trivial|].
  intros [_ H2]. now apply IH.
Qed.

Lemma single_spaced_no_newline (s : pystr) :
  single_spaced s -> ~ In newline s.
Proof.
  induction s as [|c s IH]; cbn [single_spaced In]; [tauto|].
  intros [H1 H2] [E|H]; [|now apply IH].
  subst c. destruct (H1 eq_refl) as [E _]. discriminate E.
Qed.

(** The match of [rif_suffix] reaches the end of the text. *)
Lemma mtch_rif_suffix (s rest : pystr) (caps : list pystr) :
  Re.mtch rif_suffix s = Some (caps, rest) ->
  exists t, s = t ++ rest /\ t <> [] /\ (rest = [] \/ rest = [newline]).
Proof.
  intros H. unfold Re.mtch in H.
  destruct (exec_sound _ _ _ _ _ _ H) as (t & rest' & caps' & -> & M & K & _).
  injection K as _ <-. exists t. split; [reflexivity|].
  unfold rif_suffix in M. cbn [matched] in M.
  destruct M as (a1 & b1 & -> & -> & a2 & b2 & -> & _ & a3 & b3 & -> & _
                 & a4 & b4 & -> & _ & a5 & b5 & -> & _ & -> & E).
  split; [discriminate | exact E].
Qed.

(** On a text without line ends, [re.sub(r'-RIF\.\s*\d+/\d+$', '', s)]
    returns a prefix of the text. *)
Lemma sub_rif_prefix (s : pystr) :
  ~ In newline s ->
  exists rest, s = Re.sub rif_suffix [] s ++ rest.
Proof.
  unfold Re.sub. induction s as [|c s IH]; intros Hn.
  - now exists [].
  - cbn [Re.sub_from].
    assert (Hs : ~ In newline s) by (intros H; apply Hn; now right).
    destruct (Re.mtch rif_suffix (c :: s)) as [[caps rest]|] eqn:M.
    + destruct (mtch_rif_suffix _ _ _ M) as (t & E & Ht & [->| ->]).
      * rewrite app_nil_r in E. subst t. cbn [length Nat.sub].
        assert (S0 : Re.sub_from rif_suffix [] s (length s) = []).
        { rewrite <- (app_nil_r s) at 1. now rewrite sub_from_skip_app. }
        rewrite S0. now exists (c :: s).
      * exfalso. apply Hn. rewrite E. apply in_or_app. right. now left.
    + destruct (IH Hs) as (rest & E). exists rest. cbn [app]. now f_equal.
Qed.

Lemma rstrip_split (s : pystr) :
  exists w, s = rstrip s ++ w.
Proof.
  unfold rstrip. destruct (dropWhile_split isspace (rev s)) as (a & E & _).
  exists (rev a). rewrite <- rev_app_distr, <- E. now rewrite rev_involutive.
Qed.

Lemma lstrip_split (s : pystr) :
  exists w, s = w ++ lstrip s.
Proof.
  unfold lstrip. destruct (dropWhile_split isspace s) as (a & E & _).
  now exists a.
Qed.

Lemma strip_first (s : pystr) (c : char) (rest : pystr) :
  strip s = c :: rest -> isspace c = false.
Proof.
  unfold strip. intros H.
  destruct (rstrip_split (lstrip s)) as (w & E). rewrite H in E.
  pose proof (dropWhile_head isspace s) as Hd. fold (lstrip s) in Hd.
  rewrite E in Hd. exact Hd.
Qed.

Lemma strip_last (s : pystr) (c : char) (init : pystr) :
  strip s = init ++ [c] -> isspace c = false.
Proof.
  unfold strip, rstrip. intros H.
  apply (f_equal (@rev char)) in H. rewrite rev_involutive, rev_app_distr in H.
  cbn [rev app] in H.
  pose proof (dropWhile_head isspace (rev (lstrip s))) as Hd.
  rewrite H in Hd. exact Hd.
Qed.

Lemma strip_single_spaced (s : pystr) :
  single_spaced s -> single_spaced (strip s).
Proof.
  intros H. unfold strip.
  destruct (lstrip_split s) as (w1 & E1).
  destruct (rstrip_split (lstrip s)) as (w2 & E2).
  rewrite E1 in H. apply single_spaced_suffix in H.
  rewrite E2 in H. now apply single_spaced_prefix in H.
Qed.

Lemma clean_description_single (d : pystr) :
  single_spaced (_clean_description d).
Proof.
  unfold _clean_description. apply strip_single_spaced.
  pose proof (sub_spaces_single d) as H.
  destruct (sub_rif_prefix _ (single_spaced_no_newline _ H)) as (rest & E).
  rewrite E in H. now apply single_spaced_prefix in H.
Qed.

Lemma single_spaced_at (a b : pystr) (c : char) :
  single_spaced (a ++ c :: b) -> isspace c = true ->
  c = 32%N /\ match b with [] => True | d :: _ => isspace d = false end.
Proof.
  intros H Sc. apply single_spaced_suffix in H. cbn [single_spaced] in H.
  now apply H.
Qed.

(** In a cleaned description every white-space character is a single space
    with a character that is not white space directly before it and
    directly after it: no leading or trailing white space, no tabs or line
    ends, no run of spaces. *)
Theorem clean_description_normalises (d a b : pystr) (c : char) :
  _clean_description d = a ++ c :: b ->
  isspace c = true ->
  c = 32%N
  /\ (exists x a', a = a' ++ [x] /\ isspace x = false)
  /\ (exists y b', b = y :: b' /\ isspace y = false).
Proof.
  intros E Sc. pose proof (clean_description_single d) as H. rewrite E in H.
  destruct (single_spaced_at _ _ _ H Sc) as [E32 Hb]. split; [assumption|].
  unfold _clean_description in E. split.
  - destruct (exists_last (l := a)) as (a' & x & ->).
    + intros ->. cbn [app] in E. apply strip_first in E. congruence.
    + exists x, a'. split; [reflexivity|].
      destruct (isspace x) eqn:Sx; [|reflexivity]. exfalso.
      rewrite <- app_assoc in H. cbn [app] in H.
      destruct (single_spaced_at _ _ _ H Sx) as [_ Hc]. congruence.
  - destruct b as [|y b'].
    + apply strip_last in E. congruence.
    + now exists y, b'.
Qed.

(** On a description with tabs, double spaces and a reference suffix. *)
Lemma clean_description_normalises_witness :
  32%N = 32%N
  /\ (exists x a', str "PAGAMENTO" = a' ++ [x] /\ isspace x = false)
  /\ (exists y b', str "POS" = y :: b' /\ isspace y = false).
Proof.
  apply (clean_description_normalises
           ([9%N] ++ str "PAGAMENTO " ++ [9%N] ++ str " POS  -RIF. 12/34")
           (str "PAGAMENTO") (str "POS") 32%N).
  - vm_compute. reflexivity.
  - reflexivity.
Defined.

(** *** Dates *)

Section DateParsing.
Open Scope Z_scope.

Lemma make_date_inv (y m d : Z) (dt : date) :
  make_date y m d = Some dt -> dt = mkdate y m d /\ calendar_day dt.
Proof.
  unfold make_date.
  destruct ((1 <=? y) && (y <=? 9999) && (1 <=? m) && (m <=? 12)
            && (1 <=? d) && (d <=? days_in_month y m))%bool eqn:E; [|discriminate].
  intros [= <-]. split; [reflexivity|].
  repeat (apply andb_true_iff in E; destruct E as [E ?]).
  unfold calendar_day. cbn [year month day]. lia.
Qed.

Lemma digit_value_range (c : char) : isdigit c = true -> 0 <= digit c <= 9.
Proof. intros H. apply digit_range in H. unfold digit. lia. Qed.

Lemma take_year_range (s rest : pystr) (y : Z) :
  take_year s = Some (y, rest) -> 1969 <= y <= 2068.
Proof.
  unfold take_year. destruct s as [|c1 [|c2 s]]; try discriminate.
  destruct (isdigit c1) eqn:D1; [|discriminate].
  destruct (isdigit c2) eqn:D2; [|discriminate].
  unfold andb. cbv iota zeta. intros H.
  assert (E : y = if 10 * digit c1 + digit c2 <=? 68
                  then 2000 + (10 * digit c1 + digit c2)
                  else 1900 + (10 * digit c1 + digit c2)) by congruence.
  rewrite E. clear H E.
  apply digit_value_range in D1, D2.
  destruct (Z.leb_spec (10 * digit c1 + digit c2) 68); lia.
Qed.

Lemma strptime_dmy_inv (s : pystr) (dt : date) :
  strptime_dmy s = Some dt -> calendar_day dt /\ 1969 <= year dt <= 2068.
Proof.
  unfold strptime_dmy.
  destruct (take_day s) as [[d s1]|]; [|discriminate].
  destruct (take_slash s1) as [s2|]; [|discriminate].
  destruct (take_month s2) as [[m s3]|]; [|discriminate].
  destruct (take_slash s3) as [s4|]; [|discriminate].
  destruct (take_year s4) as [[y [|c s5]]|] eqn:Y; try discriminate.
  intros H. apply make_date_inv in H. destruct H as [-> H].
  split; [assumption|]. cbn [year]. now apply take_year_range in Y.
Qed.

(** Whatever the text, a date [_parse_date_short] returns is a day of the
    calendar in a year from 1931 to 2030. *)
Theorem parse_date_short_sound (date_str : pystr) (d : date) :
  _parse_date_short date_str = Some d ->
  1931 <= year d <= 2030
  /\ 1 <= month d <= 12
  /\ 1 <= day d <= days_in_month (year d) (month d).
Proof.
  unfold _parse_date_short.
  destruct (strptime_dmy date_str) as [dt|] eqn:S; [|discriminate].
  apply strptime_dmy_inv in S. destruct S as [(Hy & Hm & Hd) R].
  destruct (Z.gtb_spec (year dt) 2030) as [G|G].
  - unfold replace_year. intros H. apply make_date_inv in H.
    destruct H as [-> (_ & Hm' & Hd')]. cbn [year month day] in *. lia.
  - intros [= <-]. lia.
Qed.

(** On 29/02/32. *)
Lemma parse_date_short_sound_witness :
  1931 <= year (mkdate 1932 2 29) <= 2030
  /\ 1 <= month (mkdate 1932 2 29) <= 12
  /\ 1 <= day (mkdate 1932 2 29)
     <= days_in_month (year (mkdate 1932 2 29)) (month (mkdate 1932 2 29)).
Proof.
  apply (parse_date_short_sound (str "29/02/32") (mkdate 1932 2 29)).
  reflexivity.
Defined.

Tactic Notation "cases_below" integer(k) :=
  let i := fresh "i" in
  let Hi := fresh "Hi" in
  intros i Hi;
  do k (destruct i as [|i]; [first [intros; reflexivity | intros; lia]|]);
  lia.

(** Two digits that are not a day of some month: the directive [%d] fails,
    or it takes one digit and the [/] that must follow is a digit. *)
Lemma take_day_rejects (n : Z) (rest : pystr) :
  0 <= n <= 99 -> ~ (1 <= n <= 31) ->
  match take_day (two_digits n ++ rest) with
  | Some (_, s1) => take_slash s1
  | None => None
  end = None.
Proof.
  intros Hn. revert rest.
  assert (G : 0 <= n < Z.of_nat 100) by lia. clear Hn. revert n G.
  apply (below_cases (fun n => forall rest, ~ (1 <= n <= 31) ->
           match take_day (two_digits n ++ rest) with
           | Some (_, s1) => take_slash s1
           | None => None
           end = None)).
  cases_below 100.
Qed.

Lemma take_month_rejects (n : Z) (rest : pystr) :
  0 <= n <= 99 -> ~ (1 <= n <= 12) ->
  match take_month (two_digits n ++ rest) with
  | Some (_, s1) => take_slash s1
  | None => None
  end = None.
Proof.
  intros Hn. revert rest.
  assert (G : 0 <= n < Z.of_nat 100) by lia. clear Hn. revert n G.
  apply (below_cases (fun n => forall rest, ~ (1 <= n <= 12) ->
           match take_month (two_digits n ++ rest) with
           | Some (_, s1) => take_slash s1
           | None => None
           end = None)).
  cases_below 100.
Qed.

Lemma strptime_rejects_day (dd : Z) (rest : pystr) :
  0 <= dd <= 99 -> ~ (1 <= dd <= 31) ->
  strptime_dmy (two_digits dd ++ rest) = None.
Proof.
  intros Hn Hd. pose proof (take_day_rejects dd rest Hn Hd) as H.
  unfold strptime_dmy.
  destruct (take_day (two_digits dd ++ rest)) as [[d s1]|]; [|reflexivity].
  now rewrite H.
Qed.

Lemma strptime_rejects_month (dd mm : Z) (rest : pystr) :
  1 <= dd <= 31 -> 0 <= mm <= 99 -> ~ (1 <= mm <= 12) ->
  strptime_dmy (two_digits dd ++ str "/" ++ two_digits mm ++ rest) = None.
Proof.
  intros Hd Hn Hm. pose proof (take_month_rejects mm rest Hn Hm) as H.
  unfold strptime_dmy. rewrite take_day_two_digits by assumption.
  cbn [str app take_slash map list_ascii_of_string].
  change (N_of_ascii "/") with 47%N. rewrite N.eqb_refl.
  change (Z.to_N (48 + mm / 10) :: Z.to_N (48 + mm mod 10) :: rest)
    with (two_digits mm ++ rest).
  destruct (take_month (two_digits mm ++ rest)) as [[m s3]|]; [|reflexivity].
  now rewrite H.
Qed.

Lemma make_date_none (y m d : Z) :
  ~ (1 <= d <= days_in_month y m) -> make_date y m d = None.
Proof.
  intros H. destruct (make_date y m d) as [dt|] eqn:E; [|reflexivity].
  apply make_date_inv in E. destruct E as [-> (_ & _ & Hd)].
  cbn [year month day] in Hd. contradiction.
Qed.

(** A two-digit token that names no day of the calendar is not parsed. *)
Lemma invalid_token_none (dd mm yy : Z) :
  0 <= dd <= 99 -> 0 <= mm <= 99 -> 0 <= yy <= 99 ->
  ~ valid_token dd mm yy ->
  _parse_date_short (date_text dd mm yy) = None.
Proof.
  intros Hd Hm Hy Hv. unfold _parse_date_short.
  destruct (Z_le_dec 1 dd) as [D1|D1], (Z_le_dec dd 31) as [D2|D2];
    try (unfold date_text; rewrite strptime_rejects_day by lia; reflexivity).
  destruct (Z_le_dec 1 mm) as [M1|M1], (Z_le_dec mm 12) as [M2|M2];
    try (unfold date_text; rewrite strptime_rejects_month by lia; reflexivity).
  rewrite strptime_date_text by lia.
  assert (Bad : ~ (1 <= dd <= days_in_month (resolved_year yy) mm)).
  { intros H. apply Hv. unfold valid_token. lia. }
  unfold resolved_year in Bad.
  destruct (Z.leb_spec yy 68) as [A|A].
  - destruct (Z.leb_spec yy 30) as [B|B].
    + now rewrite make_date_none.
    + destruct (make_date (2000 + yy) mm dd) as [dt|] eqn:E; [|reflexivity].
      apply make_date_inv in E. destruct E as [-> _]. cbn [year].
      destruct (Z.gtb_spec (2000 + yy) 2030); [|lia].
      unfold replace_year. cbn [year month day].
      replace (2000 + yy - 100) with (1900 + yy) by lia.
      now apply make_date_none.
  - destruct (Z.leb_spec yy 30) as [B|B]; [lia|].
    now rewrite make_date_none.
Qed.

(** On a token of three two-digit numbers, [_parse_date_short] returns
    [None] exactly when the token names no day of the calendar: day 00 or
    above the length of the month, month 00 or above 12. *)
Theorem parse_date_short_exact (dd mm yy : Z) :
  0 <= dd <= 99 -> 0 <= mm <= 99 -> 0 <= yy <= 99 ->
  (_parse_date_short (date_text dd mm yy) = None <-> ~ valid_token dd mm yy).
Proof.
  intros Hd Hm Hy. split.
  - intros H V. rewrite parse_date_short_valid in H by assumption.
    discriminate.
  - now apply invalid_token_none.
Qed.

(** On 29/02/23, which is not a leap day. *)
Lemma parse_date_short_exact_witness :
  _parse_date_short (date_text 29 2 23) = None <-> ~ valid_token 29 2 23.
Proof.
  apply (parse_date_short_exact 29 2 23); lia.
Defined.

Lemma digit_char (a : Z) :
  0 <= a <= 9 -> isdigit (Z.to_N (48 + a)) = true /\ digit (Z.to_N (48 + a)) = a.
Proof.
  intros H. split.
  - apply digit_range. lia.
  - unfold digit. lia.
Qed.

Lemma take_year4_four_digits (n : Z) (rest : pystr) :
  0 <= n <= 9999 -> take_year4 (four_digits n ++ rest) = Some (n, rest).
Proof.
  intros Hn. unfold four_digits, take_year4. cbn [app].
  assert (H1 : 0 <= n / 1000 <= 9) by (Z.div_mod_to_equations; lia).
  assert (H2 : 0 <= (n / 100) mod 10 <= 9) by (Z.div_mod_to_equations; lia).
  assert (H3 : 0 <= (n / 10) mod 10 <= 9) by (Z.div_mod_to_equations; lia).
  assert (H4 : 0 <= n mod 10 <= 9) by (Z.div_mod_to_equations; lia).
  destruct (digit_char _ H1) as [-> ->], (digit_char _ H2) as [-> ->],
           (digit_char _ H3) as [-> ->], (digit_char _ H4) as [-> ->].
  cbn [andb]. f_equal. f_equal. Z.div_mod_to_equations. lia.
Qed.

Lemma take_year4_range (s rest : pystr) (y : Z) :
  take_year4 s = Some (y, rest) -> 0 <= y <= 9999.
Proof.
  unfold take_year4. destruct s as [|c1 [|c2 [|c3 [|c4 s]]]]; try discriminate.
  destruct (isdigit c1) eqn:D1; [|discriminate].
  destruct (isdigit c2) eqn:D2; [|discriminate].
  destruct (isdigit c3) eqn:D3; [|discriminate].
  destruct (isdigit c4) eqn:D4; [|discriminate].
  unfold andb. cbv iota. intros H.
  assert (E : y = 1000 * digit c1 + 100 * digit c2 + 10 * digit c3 + digit c4)
    by congruence.
  rewrite E. clear H E.
  apply digit_value_range in D1, D2, D3, D4. lia.
Qed.

(** The text of a calendar day is parsed to that day. *)
Lemma parse_long_date_text (dd mm yyyy : Z) :
  calendar_day (mkdate yyyy mm dd) ->
  _parse_date (long_date_text dd mm yyyy) = Some (mkdate yyyy mm dd).
Proof.
  intros (Hy & Hm & Hd). cbn [year month day] in *.
  pose proof (days_in_month_le yyyy mm) as Le.
  unfold _parse_date, strptime_dmY, long_date_text.
  rewrite take_day_two_digits by lia.
  cbn [str app take_slash map list_ascii_of_string].
  change (N_of_ascii "/") with 47%N. rewrite N.eqb_refl.
  rewrite take_month_two_digits by assumption.
  cbn [take_slash]. rewrite N.eqb_refl.
  rewrite <- (app_nil_r (four_digits yyyy)).
  rewrite take_year4_four_digits by lia.
  now apply make_date_valid.
Qed.

(** A date [_parse_date] returns is a calendar day. *)
Lemma parse_date_calendar (date_str : pystr) (d : date) :
  _parse_date date_str = Some d -> calendar_day d.
Proof.
  intros P. unfold _parse_date, strptime_dmY in P.
  destruct (take_day date_str) as [[d0 s1]|]; [|discriminate].
  destruct (take_slash s1) as [s2|]; [|discriminate].
  destruct (take_month s2) as [[m s3]|]; [|discriminate].
  destruct (take_slash s3) as [s4|]; [|discriminate].
  destruct (take_year4 s4) as [[y [|c s5]]|]; try discriminate.
  apply make_date_inv in P. now destruct P as [-> P].
Qed.

(** [_parse_date] reads the text [DD/MM/YYYY] of a calendar day back to
    that day, and whatever the text, a date it returns is a calendar day. *)
Theorem parse_date_round_trip (dd mm yyyy : Z) (date_str : pystr) (d : date) :
  calendar_day (mkdate yyyy mm dd) ->
  _parse_date date_str = Some d ->
  _parse_date (long_date_text dd mm yyyy) = Some (mkdate yyyy mm dd)
  /\ calendar_day d.
Proof.
  intros V P. split.
  - now apply parse_long_date_text.
  - now apply (parse_date_calendar date_str).
Qed.

(** On 29/02/2024. *)
Lemma parse_date_round_trip_witness :
  _parse_date (long_date_text 29 2 2024) = Some (mkdate 2024 2 29)
  /\ calendar_day (mkdate 2024 2 29).
Proof.
  apply (parse_date_round_trip 29 2 2024 (str "29/02/2024") (mkdate 2024 2 29)).
  - unfold calendar_day. vm_compute. repeat split; discriminate.
  - reflexivity.
Defined.

End DateParsing.

(** *** The table of a page and its blocks *)

Lemma split_one_line (l : pystr) :
  one_line l -> split newline l = [l].
Proof.
  unfold one_line. induction l as [|c l IH]; intros H; cbn [split]; [reflexivity|].
  destruct (N.eqb_spec c newline) as [->|_]; [elim H; now left|].
  rewrite IH; [reflexivity|]. intros H'. apply H. now right.
Qed.

Lemma split_first_line (l rest : pystr) :
  one_line l -> split newline (l ++ newline :: rest) = l :: split newline rest.
Proof.
  unfold one_line. induction l as [|c l IH]; intros H; cbn [split app].
  - now rewrite N.eqb_refl.
  - destruct (N.eqb_spec c newline) as [->|_]; [elim H; now left|].
    rewrite IH; [reflexivity|]. intros H'. apply H. now right.
Qed.

(** [split] undoes [join_lines]. *)
Lemma split_join_lines (lines : list pystr) :
  lines <> [] -> Forall one_line lines ->
  split newline (join_lines lines) = lines.
Proof.
  intros Hne F. induction F as [|l more Hl Hm IH]; [now elim Hne|].
  cbn [join_lines]. destruct more as [|l' more].
  - now apply split_one_line.
  - rewrite split_first_line by assumption. f_equal. now apply IH.
Qed.

Lemma find_index_none (A : Type) (p : A -> bool) (l : list A) :
  Forall (fun x => p x = false) l -> find_index p l = None.
Proof.
  induction 1 as [|x l Hx _ IH]; cbn [find_index]; [reflexivity|].
  now rewrite Hx, IH.
Qed.

Lemma find_index_first (A : Type) (p : A -> bool) (a b : list A) (x : A) :
  Forall (fun y => p y = false) a -> p x = true ->
  find_index p (a ++ x :: b) = Some (length a).
Proof.
  intros F Hx. induction F as [|y a Hy _ IH]; cbn [find_index app length].
  - now rewrite Hx.
  - now rewrite Hy, IH.
Qed.

Lemma skipn_past (A : Type) (a b : list A) (x : A) :
  skipn (S (length a)) (a ++ x :: b) = b.
Proof. induction a as [|y a IH]; [reflexivity | exact IH]. Qed.

Lemma firstn_exact (A : Type) (a b : list A) : firstn (length a) (a ++ b) = a.
Proof.
  rewrite firstn_app, Nat.sub_diag, firstn_all. cbn. apply app_nil_r.
Qed.

(** The table of a page: from the line after the first header line up to
    the first footer line after it, or to the end of the page. *)
Lemma table_lines_between (before body after : list pystr) (header footer : pystr) :
  Forall (fun l => Re.search table_header l = false) before ->
  Re.search table_header header = true ->
  Forall (fun l => is_footer l = false) body ->
  is_footer footer = true ->
  table_lines (before ++ header :: body ++ footer :: after) = Some body
  /\ table_lines (before ++ header :: body) = Some body
  /\ table_lines before = None.
Proof.
  intros Hb Hh Hbody Hf. unfold table_lines. repeat split.
  - rewrite (find_index_first _ _ _ _ _ Hb Hh), skipn_past.
    rewrite (find_index_first _ _ _ _ _ Hbody Hf).
    replace (S (length before) + length body - S (length before))
      with (length body) by lia.
    now rewrite firstn_exact.
  - rewrite (find_index_first _ _ _ _ _ Hb Hh), skipn_past.
    rewrite (find_index_none _ _ _ Hbody).
    rewrite length_app. cbn [length].
    replace (length before + S (length body) - S (length before))
      with (length body) by lia.
    now rewrite firstn_all.
  - now rewrite (find_index_none _ _ _ Hb).
Qed.

(** The records of a page come from the lines between the first header
    line and the first footer line after it, or the end of the page when
    there is no footer: the lines before the header and from the footer on
    contribute nothing, and a page without header line has no record. *)
Theorem page_table_only (before body after : list pystr) (header footer : pystr)
    (page_num : nat) :
  Forall one_line (before ++ header :: body ++ footer :: after) ->
  Forall (fun l => Re.search table_header l = false) before ->
  Re.search table_header header = true ->
  Forall (fun l => is_footer l = false) body ->
  is_footer footer = true ->
  _extract_transactions_from_page
    (join_lines (before ++ header :: body ++ footer :: after)) page_num
  = map finish (reconstruct page_num body)
  /\ _extract_transactions_from_page
       (join_lines (before ++ header :: body)) page_num
     = map finish (reconstruct page_num body)
  /\ _extract_transactions_from_page (join_lines before) page_num = [].
Proof.
  intros L Hb Hh Hbody Hf.
  destruct (table_lines_between before body after header footer Hb Hh Hbody Hf)
    as (T1 & T2 & T3).
  assert (L1 : Forall one_line before /\ Forall one_line (header :: body)).
  { apply Forall_app in L. destruct L as [La Lr]. split; [assumption|].
    inversion Lr as [|? ? Lh Lr']; subst. constructor; [assumption|].
    apply Forall_app in Lr'. tauto. }
  destruct L1 as [La Lb].
  unfold _extract_transactions_from_page. repeat split.
  - rewrite split_join_lines by (assumption || now destruct before).
    now rewrite T1.
  - rewrite split_join_lines.
    + now rewrite T2.
    + now destruct before.
    + now apply Forall_app.
  - destruct before as [|l before]; [reflexivity|].
    rewrite split_join_lines by (assumption || discriminate).
    now rewrite T3.
Qed.

(** On a page with a title line, one movement, the footer, and a line
    after the footer that would be a movement. *)
Lemma page_table_only_witness :
  _extract_transactions_from_page
    (join_lines ([str "ESTRATTO CONTO"]
                 ++ str "DATA VALUTA USCITE ENTRATE DESCRIZIONE"
                    :: [str "01/03/24 01/03/24 10,00 BAR"]
                 ++ str "Dati da utilizzare per i bonifici"
                    :: [str "02/03/24 02/03/24 20,00 ATAC"])) 1
  = map finish (reconstruct 1 [str "01/03/24 01/03/24 10,00 BAR"])
  /\ _extract_transactions_from_page
       (join_lines ([str "ESTRATTO CONTO"]
                    ++ str "DATA VALUTA USCITE ENTRATE DESCRIZIONE"
                       :: [str "01/03/24 01/03/24 10,00 BAR"])) 1
     = map finish (reconstruct 1 [str "01/03/24 01/03/24 10,00 BAR"])
  /\ _extract_transactions_from_page (join_lines [str "ESTRATTO CONTO"]) 1 = [].
Proof.
  apply (page_table_only [str "ESTRATTO CONTO"]
           [str "01/03/24 01/03/24 10,00 BAR"]
           [str "02/03/24 02/03/24 20,00 ATAC"]
           (str "DATA VALUTA USCITE ENTRATE DESCRIZIONE")
           (str "Dati da utilizzare per i bonifici") 1).
  - repeat constructor; vm_compute; intuition discriminate.
  - repeat constructor.
  - reflexivity.
  - repeat constructor.
  - reflexivity.
Defined.

Lemma step_opens (page_num : nat) (st : loop_state) (raw : pystr) (t : Transaction) :
  opens_record page_num raw = Some t ->
  step page_num st raw = (flush st, Some t).
Proof.
  unfold opens_record, step.
  destruct (is_empty (strip raw)); [discriminate|].
  destruct (Re.matches saldo_row (strip raw)); [discriminate|].
  cbn [orb]. now intros ->.
Qed.

Lemma step_no_record (page_num : nat) (st : loop_state) (raw : pystr) :
  opens_record page_num raw = None ->
  step page_num st raw
  = if continues raw
    then match snd st with
         | Some current =>
             (fst st,
              Some (set_descrizione current
                      (descrizione current ++ str " " ++ strip raw)))
         | None => st
         end
    else st.
Proof.
  unfold opens_record, step, continues.
  destruct (is_empty (strip raw)); [reflexivity|].
  destruct (Re.matches saldo_row (strip raw)); [reflexivity|].
  cbn [orb negb andb]. now intros ->.
Qed.

(** The records closed before a state do not change what follows. *)
Lemma fold_step_closed (page_num : nat) (lines : list pystr)
    (closed : list Transaction) (current : option Transaction) :
  flush (fold_left (step page_num) lines (closed, current))
  = closed ++ flush (fold_left (step page_num) lines ([], current)).
Proof.
  revert closed current.
  induction lines as [|raw lines IH]; intros closed current; cbn [fold_left].
  - unfold flush. cbn [fst snd]. destruct current; [reflexivity|].
    now rewrite app_nil_r.
  - destruct (opens_record page_num raw) as [t|] eqn:O.
    + rewrite !(step_opens _ _ _ _ O). rewrite IH.
      rewrite (IH (flush ([], current))). rewrite app_assoc. f_equal.
      unfold flush. cbn [fst snd]. destruct current; [reflexivity|].
      now rewrite app_nil_r.
    + rewrite !(step_no_record _ _ _ O). cbn [fst snd].
      destruct (continues raw); [|apply IH].
      destruct current as [c|]; apply IH.
Qed.

Lemma fold_step_orphans (page_num : nat) (junk : list pystr) :
  Forall (fun l => opens_record page_num l = None) junk ->
  fold_left (step page_num) junk ([], None) = ([], None).
Proof.
  induction 1 as [|raw junk O _ IH]; cbn [fold_left]; [reflexivity|].
  rewrite (step_no_record _ _ _ O). cbn [snd].
  now destruct (continues raw).
Qed.

(** A line that opens a record closes what comes before it: the records of
    the lines are those of the lines before it followed by those of the
    lines from it on.  Lines that open no record, with no record in
    progress, give no record and are dropped. *)
Theorem reconstruct_by_blocks (page_num : nat) (junk l1 l2 : list pystr)
    (raw : pystr) (t : Transaction) :
  opens_record page_num raw = Some t ->
  Forall (fun l => opens_record page_num l = None) junk ->
  reconstruct page_num (l1 ++ raw :: l2)
  = reconstruct page_num l1 ++ reconstruct page_num (raw :: l2)
  /\ reconstruct page_num junk = []
  /\ reconstruct page_num (junk ++ raw :: l2) = reconstruct page_num (raw :: l2).
Proof.
  intros O J.
  assert (B : forall l, reconstruct page_num (l ++ raw :: l2)
                        = reconstruct page_num l ++ reconstruct page_num (raw :: l2)).
  { intros l. unfold reconstruct. rewrite fold_left_app. cbn [fold_left].
    rewrite !(step_opens _ _ _ _ O). rewrite fold_step_closed.
    reflexivity. }
  assert (E : reconstruct page_num junk = []).
  { unfold reconstruct. now rewrite fold_step_orphans. }
  repeat split; [apply B | exact E |]. now rewrite B, E.
Qed.

(** On two movements, the second with a continuation line, and on two
    lines that open no record. *)
Lemma reconstruct_by_blocks_witness :
  reconstruct 1 ([str "01/03/24 01/03/24 5,00 BAR"]
                 ++ str "02/03/24 02/03/24 7,00 ATAC" :: [str "ROMA"])
  = reconstruct 1 [str "01/03/24 01/03/24 5,00 BAR"]
    ++ reconstruct 1 (str "02/03/24 02/03/24 7,00 ATAC" :: [str "ROMA"])
  /\ reconstruct 1 [str "SEGUE"; c2_saldo_row] = []
  /\ reconstruct 1 ([str "SEGUE"; c2_saldo_row]
                    ++ str "02/03/24 02/03/24 7,00 ATAC" :: [str "ROMA"])
     = reconstruct 1 (str "02/03/24 02/03/24 7,00 ATAC" :: [str "ROMA"]).
Proof.
  apply (reconstruct_by_blocks 1 [str "SEGUE"; c2_saldo_row]
           [str "01/03/24 01/03/24 5,00 BAR"] [str "ROMA"]
           (str "02/03/24 02/03/24 7,00 ATAC")
           (new_transaction (str "02/03/24") (str "02/03/24")
              (str "7,00 ATAC") 1)).
  - vm_compute. reflexivity.
  - repeat constructor.
Defined.

Lemma set_descrizione_same (t : Transaction) :
  set_descrizione t (descrizione t) = t.
Proof. now destruct t. Qed.

Lemma fold_step_continuations (page_num : nat) (conts : list pystr) :
  Forall (fun l => opens_record page_num l = None) conts ->
  forall t,
  fold_left (step page_num) conts ([], Some t)
  = ([], Some (set_descrizione t (merged_description (descrizione t) conts))).
Proof.
  unfold merged_description.
  induction 1 as [|raw conts O _ IH]; intros t; cbn [fold_left filter].
  - now rewrite set_descrizione_same.
  - rewrite (step_no_record _ _ _ O). cbn [fst snd].
    destruct (continues raw); [|apply IH].
    rewrite IH. reflexivity.
Qed.

(** A line that opens a record, followed by lines that open none, gives one
    record: the one of the first line, its description followed by each
    continuation line, stripped, after a single space, in order; blank
    lines and balance rows among them are skipped. *)
Theorem continuation_lines_merge (page_num : nat) (raw : pystr)
    (conts : list pystr) (t : Transaction) :
  opens_record page_num raw = Some t ->
  Forall (fun l => opens_record page_num l = None) conts ->
  reconstruct page_num (raw :: conts)
  = [set_descrizione t (merged_description (descrizione t) conts)].
Proof.
  intros O C. unfold reconstruct. cbn [fold_left].
  rewrite (step_opens _ _ _ _ O).
  change (flush ([], None)) with (@nil Transaction).
  now rewrite fold_step_continuations.
Qed.

(** On a movement followed by two continuation lines, a blank line and a
    balance row. *)
Lemma continuation_lines_merge_witness :
  reconstruct 1 [str "02/03/24 02/03/24 7,00 ATAC"; str "  ROMA "; [];
                 c2_saldo_row; str "TERMINI"]
  = [set_descrizione
       (new_transaction (str "02/03/24") (str "02/03/24") (str "7,00 ATAC") 1)
       (merged_description (str "ATAC")
          [str "  ROMA "; []; c2_saldo_row; str "TERMINI"])].
Proof.
  apply (continuation_lines_merge 1 (str "02/03/24 02/03/24 7,00 ATAC")
           [str "  ROMA "; []; c2_saldo_row; str "TERMINI"]
           (new_transaction (str "02/03/24") (str "02/03/24")
              (str "7,00 ATAC") 1)).
  - vm_compute. reflexivity.
  - repeat constructor.
Defined.

(** *** Order of the result *)

Lemma page_records_page (page_text : pystr) (page_num : nat) :
  Forall (fun t => pagina t = page_num)
    (_extract_transactions_from_page page_text page_num).
Proof.
  apply Forall_forall. intros t H.
  destruct (page_record_inv _ _ _ H) as (t0 & (_ & _ & Pg & _) & ->).
  exact Pg.
Qed.

Lemma sorted_after_block (k : nat) (l1 l2 : list Transaction) :
  Forall (fun t => pagina t = k) l1 ->
  Forall (fun t => k <= pagina t) l2 ->
  StronglySorted page_le l2 ->
  StronglySorted page_le (l1 ++ l2).
Proof.
  intros H1 H2 S. induction H1 as [|t l1 Ht H1 IH]; cbn [app]; [assumption|].
  constructor; [assumption|]. apply Forall_app. split.
  - eapply Forall_impl; [|exact H1]. intros u Hu. unfold page_le.
    cbn beta in Hu. lia.
  - eapply Forall_impl; [|exact H2]. intros u Hu. unfold page_le.
    cbn beta in Hu. lia.
Qed.

(** The records of the pages, before the sort, are in page order. *)
Lemma pages_sorted (page_texts : list pystr) (k : nat) :
  let l := flat_map (fun p => _extract_transactions_from_page (snd p) (fst p))
             (enumerate k page_texts) in
  StronglySorted page_le l /\ Forall (fun t => k <= pagina t) l.
Proof.
  revert k. induction page_texts as [|p ps IH]; intros k; cbn zeta.
  - split; constructor.
  - cbn [enumerate flat_map fst snd]. destruct (IH (S k)) as [S F].
    pose proof (page_records_page p k) as Pk. split.
    + apply (sorted_after_block k); [assumption | | assumption].
      eapply Forall_impl; [|exact F]. intros t Ht. cbn beta in Ht. lia.
    + apply Forall_app. split.
      * eapply Forall_impl; [|exact Pk]. intros t Ht. cbn beta in Ht. lia.
      * eapply Forall_impl; [|exact F]. intros t Ht. cbn beta in Ht. lia.
Qed.

Lemma sorted_filter (A : Type) (R : A -> A -> Prop) (p : A -> bool) (l : list A) :
  StronglySorted R l -> StronglySorted R (filter p l).
Proof.
  induction 1 as [|x l S IH F]; cbn [filter]; [constructor|].
  destruct (p x); [|assumption]. constructor; [assumption|].
  apply Forall_forall. intros y Hy. apply filter_In in Hy.
  rewrite Forall_forall in F. now apply F.
Qed.

Lemma sorted_pair (A : Type) (R : A -> A -> Prop) (l1 l2 l3 : list A) (a b : A) :
  StronglySorted R (l1 ++ a :: l2 ++ b :: l3) -> R a b.
Proof.
  induction l1 as [|x l1 IH]; cbn [app]; intros S.
  - inversion S as [|? ? _ F]; subst. rewrite Forall_forall in F.
    apply F. apply in_or_app. right. now left.
  - inversion S; subst. now apply IH.
Qed.

(** The sequence number given to the record at a position. *)
Lemma numbering_position (s l1 rest : list Transaction) (a : Transaction) (i : nat) :
  map (fun p => set_numero (snd p) (fst p)) (enumerate i s) = l1 ++ a :: rest ->
  numero_progressivo a = Some (i + length l1).
Proof.
  revert s i. induction l1 as [|y l1 IH]; intros [|x s] i; cbn; try discriminate.
  - intros [= <- _]. cbn. f_equal. lia.
  - intros [= _ H]. rewrite (IH _ _ H). f_equal. lia.
Qed.

Lemma unnumbered_date (a b : Transaction) :
  unnumbered a = unnumbered b ->
  data_transazione a = data_transazione b /\ pagina a = pagina b.
Proof.
  intros H. split.
  - change (data_transazione (unnumbered a) = data_transazione (unnumbered b)).
    now rewrite H.
  - change (pagina (unnumbered a) = pagina (unnumbered b)). now rewrite H.
Qed.

(** When the sort returns, its result is in date order and keeps the records
    of one date in the order of the pages. *)
Lemma sort_ok_sorted (l s : list Transaction) :
  sort_by_date l = Ok s -> 2 <= length l ->
  StronglySorted not_after s
  /\ (forall d, filter (dated d) s = filter (dated d) l).
Proof.
  intros E L. pose proof (sort_ok_dates _ _ E L) as F.
  destruct (sort_by_date_sorted l F) as (s' & E' & _ & S & Fd).
  rewrite E in E'. injection E' as <-. now split.
Qed.

(** Whenever the assembler returns, for any two records of its result, the
    first is not dated after the second, if they have the same date the
    first is not from a later page, and their sequence numbers are their
    positions in the result, counted from 1. *)
Theorem output_order (page_texts : list pystr)
    (out l1 l2 l3 : list Transaction) (a b : Transaction) :
  _extract_all_transactions page_texts = Ok out ->
  out = l1 ++ a :: l2 ++ b :: l3 ->
  not_after a b
  /\ (data_transazione a = data_transazione b -> pagina a <= pagina b)
  /\ numero_progressivo a = Some (S (length l1))
  /\ numero_progressivo b = Some (S (length l1) + S (length l2)).
Proof.
  unfold _extract_all_transactions.
  destruct (sort_by_date (all_pages page_texts)) as [s|] eqn:E; cbn [bind];
    [|discriminate].
  intros [= <-] D.
  assert (Na : numero_progressivo a = Some (S (length l1))).
  { now rewrite (numbering_position _ _ _ _ _ D). }
  assert (Nb : numero_progressivo b = Some (S (length l1) + S (length l2))).
  { rewrite app_comm_cons, app_assoc in D.
    rewrite (numbering_position _ _ _ _ _ D). f_equal.
    rewrite length_app. cbn [length]. lia. }
  pose proof (numbering_keeps s 1) as K. rewrite D in K.
  symmetry in K. rewrite map_app in K. cbn [map] in K. rewrite map_app in K.
  cbn [map] in K. apply map_eq_app in K.
  destruct K as (s1 & r1 & -> & K1 & K).
  apply map_eq_cons in K. destruct K as (a' & r2 & -> & Ka & K).
  apply map_eq_app in K. destruct K as (s2 & r3 & -> & K2 & K).
  apply map_eq_cons in K. destruct K as (b' & s3 & -> & Kb & K3).
  destruct (unnumbered_date _ _ Ka) as [Da Pa].
  destruct (unnumbered_date _ _ Kb) as [Db Pb].
  assert (L : 2 <= length (all_pages page_texts)).
  { rewrite <- (sort_length _ _ E), !length_app. cbn [length].
    rewrite length_app. cbn [length]. lia. }
  destruct (sort_ok_sorted _ _ E L) as [S F].
  assert (Nab : not_after a' b') by (now apply sorted_pair in S).
  assert (Hn : not_after a b).
  { unfold not_after in *. now rewrite <- Da, <- Db. }
  repeat split; try assumption.
  intros Same. rewrite <- Pa, <- Pb.
  unfold not_after in Nab.
  destruct (data_transazione a') as [d|] eqn:Ea; [|contradiction].
  assert (Ta : dated d a' = true).
  { unfold dated. rewrite Ea. now apply date_eqb_eq. }
  assert (Tb : dated d b' = true).
  { unfold dated. rewrite Db, <- Same, <- Da. now apply date_eqb_eq. }
  specialize (F d).
  rewrite !filter_app in F. cbn [filter] in F.
  rewrite !filter_app in F. cbn [filter] in F. rewrite Ta, Tb in F.
  destruct (pages_sorted page_texts 1) as [Sp _]. cbn zeta in Sp.
  fold (all_pages page_texts) in Sp.
  apply (sorted_filter _ _ (dated d)) in Sp. rewrite <- F in Sp.
  now apply sorted_pair in Sp.
Qed.

(** On the first two records of the result for the pages of C6. *)
Lemma output_order_witness :
  exists out l1 l2 l3 a b,
    _extract_all_transactions c6_pages = Ok out
    /\ out = l1 ++ a :: l2 ++ b :: l3
    /\ not_after a b
    /\ (data_transazione a = data_transazione b -> pagina a <= pagina b)
    /\ numero_progressivo a = Some (S (length l1))
    /\ numero_progressivo b = Some (S (length l1) + S (length l2)).
Proof.
  destruct (_extract_all_transactions c6_pages) as [out|] eqn:E;
    [|vm_compute in E; discriminate].
  destruct out as [|a [|b l3]];
    [vm_compute in E; discriminate | vm_compute in E; discriminate |].
  exists (a :: b :: l3), [], [], l3, a, b.
  split; [reflexivity|]. split; [reflexivity|].
  apply (output_order c6_pages (a :: b :: l3) [] [] l3 a b E eq_refl).
Defined.

(** *** Missing sequence numbers *)

Lemma bind_ok (A B : Type) (m : result A) (k : A -> result B) (b : B) :
  (x <- m ;; k x) = Ok b -> exists a, m = Ok a /\ k a = Ok b.
Proof. destruct m as [a|e]; cbn [bind]; [|discriminate]. intros H. now exists a. Qed.

Lemma category_loop_key_error (txs : list Transaction) :
  Exists (fun t => numero_progressivo t = None) txs ->
  forall cats, category_loop txs cats = Raise KeyError.
Proof.
  induction txs as [|t txs IH]; intros X cats; [inversion X|].
  cbn [category_loop]. unfold add_to_category.
  destruct (numero_progressivo t) as [n|] eqn:N; cbn [bind]; [|reflexivity].
  apply IH. inversion X as [? ? Ht|? ? Hx]; subst; [congruence | assumption].
Qed.

(** The two populations never make the aggregator raise. *)
Lemma populations_ok (txs : list Transaction) :
  exists e u,
    (if 0 <? length (inflows txs)
     then (m <- py_div (py_sum (inflows txs)) (length (inflows txs)) ;;
           x <- py_max (inflows txs) ;;
           Ok (round2 m, x))
     else Ok (0%Q, 0%Q)) = Ok e
    /\ (if 0 <? length (outflows txs)
        then (m <- py_div (Qabs (py_sum (outflows txs))) (length (outflows txs)) ;;
              x <- py_min (outflows txs) ;;
              Ok (round2 m, Qabs x))
        else Ok (0%Q, 0%Q)) = Ok u.
Proof.
  destruct (inflows txs) as [|x en]; destruct (outflows txs) as [|y us].
  all: cbn [length Nat.ltb Nat.leb py_div bind].
  all: try (destruct (py_max_greatest x en) as (mx & Emx & _); rewrite Emx).
  all: try (destruct (py_min_least y us) as (mn & Emn & _); rewrite Emn).
  all: cbn [bind]; eexists; eexists; split; reflexivity.
Qed.

(** On a record set with a record that has no sequence number, the
    aggregator raises [KeyError]. *)
Theorem missing_number_raises (txs : list Transaction) :
  Exists (fun t => numero_progressivo t = None) txs ->
  _calculate_statistics txs = Raise KeyError.
Proof.
  intros X. unfold _calculate_statistics.
  destruct txs as [|t l]; [inversion X|].
  cbv zeta. fold (inflows (t :: l)). fold (outflows (t :: l)).
  rewrite !py_count_ones.
  destruct (populations_ok (t :: l)) as (e & u & -> & ->). cbn [bind].
  now rewrite category_loop_key_error.
Qed.

(** On the records of a page, which are not numbered yet. *)
Lemma missing_number_raises_witness :
  _calculate_statistics
    (_extract_transactions_from_page c2_page 1) = Raise KeyError.
Proof.
  apply (missing_number_raises (_extract_transactions_from_page c2_page 1)).
  apply Exists_exists. exists c2_record. split.
  - vm_compute. left. reflexivity.
  - reflexivity.
Defined.

(** *** Statistics after assembly *)

Lemma pystr_eqb_eq (a b : pystr) : pystr_eqb a b = true <-> a = b.
Proof.
  unfold pystr_eqb. destruct (list_eq_dec N.eq_dec a b); split; congruence.
Qed.

Lemma pystr_eqb_refl (a : pystr) : pystr_eqb a a = true.
Proof. now apply pystr_eqb_eq. Qed.

Lemma pystr_eqb_neq (a b : pystr) : a <> b -> pystr_eqb a b = false.
Proof.
  intros H. destruct (pystr_eqb a b) eqn:E; [|reflexivity].
  apply pystr_eqb_eq in E. contradiction.
Qed.

Lemma entry_has_key (cat : pystr) (d : list (pystr * CategoryStats)) :
  has_key cat d = match entry cat d with Some _ => true | None => false end.
Proof.
  induction d as [|[k v] d IH]; cbn [has_key entry]; [reflexivity|].
  now destruct (pystr_eqb k cat).
Qed.

Lemma entry_not_in (cat : pystr) (d : list (pystr * CategoryStats)) :
  entry cat d = None -> ~ In cat (map fst d).
Proof.
  induction d as [|[k v] d IH]; cbn [entry map fst In]; [tauto|].
  destruct (pystr_eqb k cat) eqn:E; [discriminate|].
  intros H [->|H']; [|now apply IH].
  now rewrite pystr_eqb_refl in E.
Qed.

Lemma entry_modify (cat c : pystr) (f : CategoryStats -> CategoryStats)
    (d : list (pystr * CategoryStats)) :
  entry c (modify cat f d)
  = if pystr_eqb cat c then option_map f (entry c d) else entry c d.
Proof.
  induction d as [|[k v] d IH]; cbn [modify entry].
  - now destruct (pystr_eqb cat c).
  - destruct (pystr_eqb k cat) eqn:Ek.
    + apply pystr_eqb_eq in Ek. subst k. cbn [entry].
      destruct (pystr_eqb cat c); reflexivity.
    + cbn [entry]. destruct (pystr_eqb k c) eqn:Ec.
      * apply pystr_eqb_eq in Ec. subst k. now rewrite pystr_eqb_neq
          by (intros ->; now rewrite pystr_eqb_refl in Ek).
      * exact IH.
Qed.

Lemma modify_keys (cat : pystr) (f : CategoryStats -> CategoryStats)
    (d : list (pystr * CategoryStats)) :
  map fst (modify cat f d) = map fst d.
Proof.
  induction d as [|[k v] d IH]; cbn [modify map fst]; [reflexivity|].
  destruct (pystr_eqb k cat); cbn [map fst]; [reflexivity | now rewrite IH].
Qed.

Lemma entry_app (cat c : pystr) (v : CategoryStats)
    (d : list (pystr * CategoryStats)) :
  entry c (d ++ [(cat, v)])
  = match entry c d with
    | Some r => Some r
    | None => if pystr_eqb cat c then Some v else None
    end.
Proof.
  induction d as [|[k w] d IH]; cbn [app entry]; [reflexivity|].
  now destruct (pystr_eqb k c).
Qed.

Lemma in_category_app (c : pystr) (l : list Transaction) (t : Transaction) :
  in_category c (l ++ [t])
  = in_category c l ++ (if pystr_eqb (category_of t) c then [t] else []).
Proof. unfold in_category. now rewrite filter_app. Qed.

Lemma numbering_numbered (l : list Transaction) (i : nat) :
  Forall (fun t => exists n, numero_progressivo t = Some n)
    (map (fun p => set_numero (snd p) (fst p)) (enumerate i l)).
Proof.
  revert i. induction l as [|x l IH]; intros i; cbn; constructor.
  - now exists i.
  - apply IH.
Qed.

Lemma all_pages_categorised (page_texts : list pystr) :
  Forall (fun t => exists c, categoria_suggerita t = Some c)
    (all_pages page_texts).
Proof.
  unfold all_pages. apply Forall_flat_map. apply Forall_forall.
  intros [k p] _. cbn [fst snd]. apply Forall_forall. intros t H.
  destruct (page_record_inv _ _ _ H) as (t0 & _ & ->). eexists. reflexivity.
Qed.

Lemma insert_perm (x : Transaction) (s s' : list Transaction) :
  insert x s = Ok s' -> Permutation (x :: s) s'.
Proof.
  revert s'. induction s as [|y s IH]; intros s'; cbn [insert].
  - now intros [= <-].
  - destruct (key_lt (data_transazione y) (data_transazione x)) as [[|]|];
      cbn [bind]; try discriminate.
    + destruct (insert x s) as [s1|]; cbn [bind]; [|discriminate].
      intros [= <-]. rewrite perm_swap. constructor. now apply IH.
    + now intros [= <-].
Qed.

Lemma sort_perm (l s : list Transaction) :
  sort_by_date l = Ok s -> Permutation l s.
Proof.
  revert s. induction l as [|x l IH]; intros s; cbn [sort_by_date].
  - intros [= <-]. constructor.
  - destruct (sort_by_date l) as [s1|]; cbn [bind]; [|discriminate].
    intros I. apply insert_perm in I. rewrite <- I. constructor. now apply IH.
Qed.

Lemma unnumbered_id (l : list Transaction) :
  Forall (fun t => numero_progressivo t = None) l -> map unnumbered l = l.
Proof.
  induction 1 as [|t l Ht _ IH]; cbn [map]; [reflexivity|].
  rewrite IH. f_equal. destruct t. cbn in Ht. subst. reflexivity.
Qed.

(** Whenever the assembler returns, its result is the records of the pages
    in some order, each with a sequence number and a suggested category,
    and the aggregator returns on it without raising; it returns the empty
    dictionary exactly when the pages have no record. *)
Theorem statistics_after_assembly (page_texts : list pystr)
    (out : list Transaction) :
  _extract_all_transactions page_texts = Ok out ->
  Permutation (map unnumbered out) (all_pages page_texts)
  /\ Forall (fun t => (exists n, numero_progressivo t = Some n)
                      /\ (exists c, categoria_suggerita t = Some c)) out
  /\ exists stats,
       _calculate_statistics out = Ok stats
       /\ (stats = None <-> all_pages page_texts = []).
Proof.
  unfold _extract_all_transactions.
  destruct (sort_by_date (all_pages page_texts)) as [s|] eqn:E; cbn [bind];
    [|discriminate].
  intros [= <-]. pose proof (sort_perm _ _ E) as P.
  assert (U : Forall (fun t => numero_progressivo t = None)
                (all_pages page_texts)).
  { unfold all_pages. apply Forall_flat_map. apply Forall_forall.
    intros [k p] _. cbn [fst snd]. apply Forall_forall. intros t H.
    destruct (page_record_inv _ _ _ H) as (t0 & (_ & _ & _ & _ & N) & ->).
    exact N. }
  assert (N : Forall (fun t => exists n, numero_progressivo t = Some n)
                (map (fun p => set_numero (snd p) (fst p)) (enumerate 1 s)))
    by apply numbering_numbered.
  repeat split.
  - rewrite numbering_keeps. symmetry.
    rewrite <- (unnumbered_id _ U). now apply Permutation_map.
  - rewrite Forall_forall in *. intros t Ht. split; [now apply N|].
    assert (C : Forall (fun t => exists c, categoria_suggerita t = Some c) s).
    { eapply Permutation_Forall; [exact P | apply all_pages_categorised]. }
    apply in_map_iff in Ht. destruct Ht as ([i x] & <- & Hx). cbn [fst snd].
    rewrite Forall_forall in C.
    change (exists c, categoria_suggerita x = Some c). apply C.
    clear - Hx. revert Hx. generalize 1.
    induction s as [|y s IH]; intros k; cbn [enumerate In]; [tauto|].
    intros [[= _ ->]|H]; [now left | right; now apply (IH (S k))].
  - destruct s as [|x s].
    + exists None. cbn. split; [reflexivity|]. split; [|reflexivity].
      intros _. now apply Permutation_sym, Permutation_nil in P.
    + cbn [enumerate map fst snd].
      destruct (statistics_of_records (set_numero x 1)
                  (map (fun p => set_numero (snd p) (fst p)) (enumerate 2 s)))
        as (st & Es & _).
      * constructor; [discriminate|].
        eapply Forall_impl; [|apply numbering_numbered].
        intros t [n Hn]. unfold numbered. congruence.
      * exists (Some st). split; [exact Es|]. split; [discriminate|].
        intros Z. rewrite Z in P. now apply Permutation_nil in P.
Qed.

(** On the pages of C6. *)
Lemma statistics_after_assembly_witness :
  exists out,
    _extract_all_transactions c6_pages = Ok out
    /\ Permutation (map unnumbered out) (all_pages c6_pages)
    /\ Forall (fun t => (exists n, numero_progressivo t = Some n)
                        /\ (exists c, categoria_suggerita t = Some c)) out
    /\ exists stats,
         _calculate_statistics out = Ok stats
         /\ (stats = None <-> all_pages c6_pages = []).
Proof.
  eexists. split; [vm_compute; reflexivity|].
  apply (statistics_after_assembly c6_pages). vm_compute. reflexivity.
Defined.

(** *** Start lines and the account summary *)

Lemma exec_captures (A : Type) (r : Re.regex) :
  forall (s : pystr) (caps : list pystr)
         (k : pystr -> list pystr -> option A) (x : A),
  Re.exec r s caps k = Some x ->
  exists t rest gs,
    s = t ++ rest /\ captures r t rest gs /\ k rest (caps ++ gs) = Some x.
Proof.
  induction r as [l|p n|p|p|r1 IH1 r2 IH2|r IH|]; intros s caps k x H.
  1-4,7: destruct (exec_sound _ _ _ _ _ _ H) as (t & rest & caps' & E & M & K & G);
    rewrite (G eq_refl) in K; exists t, rest, [];
    rewrite app_nil_r; cbn [captures];
    (split; [exact E | split; [split; [reflexivity | exact M] | exact K]]).
  - cbn [Re.exec] in H.
    destruct (IH1 _ _ _ _ H) as (a & rest1 & g1 & -> & C1 & K1).
    destruct (IH2 _ _ _ _ K1) as (b & rest & g2 & -> & C2 & K2).
    exists (a ++ b), rest, (g1 ++ g2). rewrite <- !app_assoc.
    rewrite <- app_assoc in K2. repeat split; try assumption.
    cbn [captures]. now exists a, b, g1, g2.
  - cbn [Re.exec] in H.
    destruct (IH _ _ _ _ H) as (t & rest & g & -> & C & K).
    rewrite firstn_consumed, <- app_assoc in K.
    exists t, rest, (g ++ [t]). repeat split; try assumption.
    cbn [captures]. now exists g.
Qed.

Lemma mtch_captures (r : Re.regex) (s rest : pystr) (caps : list pystr) :
  Re.mtch r s = Some (caps, rest) ->
  exists t, s = t ++ rest /\ captures r t rest caps.
Proof.
  intros H. unfold Re.mtch in H.
  destruct (exec_captures _ _ _ _ _ _ H) as (t & rest' & gs & -> & C & K).
  injection K as <- <-. now exists t.
Qed.

Lemma search_groups_sound (r : Re.regex) (s : pystr) (caps : list pystr) :
  Re.search_groups r s = Some caps ->
  exists before t rest, s = before ++ t ++ rest /\ captures r t rest caps.
Proof.
  induction s as [|c s IH]; cbn [Re.search_groups].
  - destruct (Re.mtch r []) as [[caps' rest]|] eqn:M; [|discriminate].
    intros [= <-]. destruct (mtch_captures _ _ _ _ M) as (t & E & C).
    now exists [], t, rest.
  - destruct (Re.mtch r (c :: s)) as [[caps' rest]|] eqn:M.
    + intros [= <-]. destruct (mtch_captures _ _ _ _ M) as (t & E & C).
      now exists [], t, rest.
    + intros H. destruct (IH H) as (before & t & rest & -> & C).
      now exists (c :: before), t, rest.
Qed.

Lemma captures_group_free (r : Re.regex) :
  group_free r = true ->
  forall t rest gs, captures r t rest gs -> gs = [] /\ matched r t rest.
Proof.
  induction r as [l|p n|p|p|r1 IH1 r2 IH2|r IH|]; cbn [group_free captures];
    intros G t rest gs; try tauto; try discriminate.
  apply andb_true_iff in G. destruct G as [G1 G2].
  intros (a & b & g1 & g2 & -> & -> & C1 & C2).
  destruct (IH1 G1 _ _ _ C1) as [-> M1], (IH2 G2 _ _ _ C2) as [-> M2].
  split; [reflexivity|]. cbn [matched]. now exists a, b.
Qed.

Lemma captures_group (r : Re.regex) (t rest : pystr) (gs : list pystr) :
  group_free r = true -> captures (Re.Grp r) t rest gs ->
  gs = [t] /\ matched r t rest.
Proof.
  intros G (g & -> & C). now destruct (captures_group_free _ G _ _ _ C) as [-> M].
Qed.

Section Tokens.
Open Scope Z_scope.

(** Two digit characters are the two-digit text of their number. *)
Lemma two_digit_chars (a b : char) :
  isdigit a = true -> isdigit b = true ->
  [a; b] = two_digits (10 * digit a + digit b)
  /\ 0 <= 10 * digit a + digit b <= 99.
Proof.
  intros Ha Hb. pose proof (digit_value_range _ Ha) as Ra.
  pose proof (digit_value_range _ Hb) as Rb. split; [|lia].
  unfold two_digits.
  replace ((10 * digit a + digit b) / 10) with (digit a)
    by (Z.div_mod_to_equations; lia).
  replace ((10 * digit a + digit b) mod 10) with (digit b)
    by (Z.div_mod_to_equations; lia).
  unfold digit. f_equal; [|f_equal]; lia.
Qed.

(** The texts [date_token] matches are the tokens [DD/MM/YY]. *)
Lemma date_token_text (t rest : pystr) :
  matched date_token t rest ->
  exists dd mm yy,
    t = date_text dd mm yy
    /\ 0 <= dd <= 99 /\ 0 <= mm <= 99 /\ 0 <= yy <= 99.
Proof.
  unfold date_token. cbn [matched].
  intros (d & b1 & -> & (Ld & Fd) & s1 & b2 & -> & -> & m & b3 & -> & (Lm & Fm)
          & s2 & y & -> & -> & (Ly & Fy)).
  destruct d as [|d1 [|d2 [|? ?]]]; try discriminate.
  destruct m as [|m1 [|m2 [|? ?]]]; try discriminate.
  destruct y as [|y1 [|y2 [|? ?]]]; try discriminate.
  cbn [forallb] in Fd, Fm, Fy. rewrite andb_true_r in Fd, Fm, Fy.
  apply andb_true_iff in Fd, Fm, Fy.
  destruct Fd as [Fd1 Fd2], Fm as [Fm1 Fm2], Fy as [Fy1 Fy2].
  destruct (two_digit_chars _ _ Fd1 Fd2) as [Ed Rd].
  destruct (two_digit_chars _ _ Fm1 Fm2) as [Em Rm].
  destruct (two_digit_chars _ _ Fy1 Fy2) as [Ey Ry].
  exists (10 * digit d1 + digit d2), (10 * digit m1 + digit m2),
         (10 * digit y1 + digit y2).
  unfold date_text. rewrite <- Ed, <- Em, <- Ey. now repeat split.
Qed.

End Tokens.

Lemma forallb_blank (w : pystr) : forallb isspace w = true -> blank w.
Proof. intros H. apply Forall_forall. now apply forallb_forall. Qed.

(** The anatomy of a transaction-start line. *)
Lemma start_of_line_inv (line : pystr) (page_num : nat) (t : Transaction) :
  start_of_line line page_num = Some t ->
  exists d1 w1 d2 w2 resto after,
    line = d1 ++ w1 ++ d2 ++ w2 ++ resto ++ after
    /\ matched date_token d1 (w1 ++ d2 ++ w2 ++ resto ++ after)
    /\ matched date_token d2 (w2 ++ resto ++ after)
    /\ w1 <> [] /\ blank w1 /\ w2 <> [] /\ blank w2 /\ resto <> []
    /\ t = new_transaction d1 d2 resto page_num.
Proof.
  unfold start_of_line.
  destruct (Re.mtch transaction_start line) as [[caps after]|] eqn:M;
    [|discriminate].
  intros [= <-]. destruct (mtch_captures _ _ _ _ M) as (t & -> & C).
  unfold transaction_start in C. cbn [captures] in C.
  destruct C as (d1 & b1 & g1 & h1 & -> & -> & C1 & w1 & b2 & g2 & h2 & -> & ->
                 & (-> & W1) & d2 & b3 & g3 & h3 & -> & -> & C2 & w2 & resto
                 & g4 & h4 & -> & -> & (-> & W2) & C3).
  fold (captures (Re.Grp date_token) d1 ((w1 ++ d2 ++ w2 ++ resto) ++ after) g1)
    in C1.
  fold (captures (Re.Grp date_token) d2 ((w2 ++ resto) ++ after) g3) in C2.
  fold (captures (Re.Grp (Re.Plus dot)) resto after h4) in C3.
  apply captures_group in C1; [|reflexivity]. destruct C1 as [-> M1].
  apply captures_group in C2; [|reflexivity]. destruct C2 as [-> M2].
  apply captures_group in C3; [|reflexivity]. destruct C3 as [-> M3].
  cbn [matched] in W1, W2, M3. destruct W1 as [N1 B1], W2 as [N2 B2].
  destruct M3 as [N3 _].
  exists d1, w1, d2, w2, resto, after.
  rewrite <- !app_assoc in *. cbn [app nth].
  repeat split; try assumption; now apply forallb_blank.
Qed.

Section DateOfRecord.
Open Scope Z_scope.

(** A transaction-start line of ASCII characters begins with a token of
    three two-digit numbers, and the record it opens has the date of that
    token when the token names a day of the calendar, and no transaction
    date otherwise. *)
Theorem record_date_token (line : pystr) (page_num : nat) (t : Transaction) :
  ascii_text line ->
  start_of_line line page_num = Some t ->
  exists dd mm yy rest,
    line = date_text dd mm yy ++ rest
    /\ 0 <= dd <= 99 /\ 0 <= mm <= 99 /\ 0 <= yy <= 99
    /\ (valid_token dd mm yy ->
        data_transazione t = Some (mkdate (resolved_year yy) mm dd))
    /\ (~ valid_token dd mm yy -> data_transazione t = None).
Proof.
  intros _ H.
  destruct (start_of_line_inv _ _ _ H)
    as (d1 & w1 & d2 & w2 & resto & after & -> & M1 & _ & _ & _ & _ & _ & _ & ->).
  destruct (date_token_text _ _ M1) as (dd & mm & yy & -> & Rd & Rm & Ry).
  exists dd, mm, yy, (w1 ++ d2 ++ w2 ++ resto ++ after).
  cbn [data_transazione new_transaction].
  split; [reflexivity|]. split; [exact Rd|]. split; [exact Rm|].
  split; [exact Ry|]. split.
  - intros V. now apply parse_date_short_valid.
  - intros V. now apply invalid_token_none.
Qed.

(** On the first line of the page of C3, dated 31/02/24. *)
Lemma record_date_token_witness :
  exists dd mm yy rest,
    str "31/02/24 01/03/24 10,00 PRELIEVO ATM" = date_text dd mm yy ++ rest
    /\ 0 <= dd <= 99 /\ 0 <= mm <= 99 /\ 0 <= yy <= 99
    /\ (valid_token dd mm yy ->
        data_transazione
          (new_transaction (str "31/02/24") (str "01/03/24")
             (str "10,00 PRELIEVO ATM") 1)
        = Some (mkdate (resolved_year yy) mm dd))
    /\ (~ valid_token dd mm yy ->
        data_transazione
          (new_transaction (str "31/02/24") (str "01/03/24")
             (str "10,00 PRELIEVO ATM") 1) = None).
Proof.
  apply (record_date_token (str "31/02/24 01/03/24 10,00 PRELIEVO ATM") 1
           (new_transaction (str "31/02/24") (str "01/03/24")
              (str "10,00 PRELIEVO ATM") 1)).
  - repeat constructor.
  - vm_compute. reflexivity.
Defined.

End DateOfRecord.

Lemma span_fst_digits (s : pystr) : digits (fst (span isdigit s)).
Proof.
  induction s as [|c s IH]; cbn [span]; [constructor|].
  destruct (isdigit c) eqn:D; cbn [fst]; [|constructor].
  now constructor.
Qed.

Lemma unsigned_decimal_nonneg (s : pystr) (q : Q) :
  unsigned_decimal s = Some q -> (0 <= q)%Q.
Proof.
  unfold unsigned_decimal. pose proof (span_fst_digits s) as D.
  destruct (snd (span isdigit s)) as [|c fp].
  - destruct (is_empty (fst (span isdigit s))); [discriminate|].
    intros [= <-]. unfold Qle, inject_Z. cbn [Qnum Qden].
    pose proof (digits_value_nonneg _ D). lia.
  - destruct (N.eqb c 46 && forallb isdigit fp
              && negb (is_empty (fst (span isdigit s)) && is_empty fp))%bool eqn:E;
      [|discriminate].
    intros [= <-]. apply andb_true_iff in E. destruct E as [E _].
    apply andb_true_iff in E. destruct E as [_ F].
    assert (Dfp : digits fp) by (apply Forall_forall; now apply forallb_forall).
    unfold Qle. cbn [Qnum Qden].
    pose proof (digits_value_nonneg _ (digits_app _ _ D Dfp)). lia.
Qed.

Lemma in_dropWhile (p : char -> bool) (c : char) (s : pystr) :
  In c (dropWhile p s) -> In c s.
Proof.
  intros H. destruct (dropWhile_split p s) as (a & E & _). rewrite E.
  apply in_or_app. now right.
Qed.

Lemma in_strip (c : char) (s : pystr) : In c (strip s) -> In c s.
Proof.
  unfold strip, rstrip, lstrip. intros H. apply in_rev in H.
  apply in_dropWhile in H. apply in_rev in H. now apply in_dropWhile in H.
Qed.

Lemma in_replace_char (c x : char) (new s : pystr) :
  In c (replace_char x new s) -> In c s \/ In c new.
Proof.
  unfold replace_char. intros H. apply in_flat_map in H.
  destruct H as (y & Hy & H). destruct (N.eqb y x); [now right|].
  destruct H as [<-|[]]. now left.
Qed.

Lemma float_nonneg (s : pystr) (q : Q) :
  ~ In 45%N s -> float s = Some q -> (0 <= q)%Q.
Proof.
  intros Hm. unfold float. destruct (strip s) as [|c s'] eqn:E; [discriminate|].
  destruct (N.eqb_spec c 45) as [->|_].
  - elim Hm. apply in_strip. rewrite E. now left.
  - destruct (N.eqb c 43); apply unsigned_decimal_nonneg.
Qed.

(** A text without a minus sign is never read as a negative amount. *)
Lemma parse_amount_nonneg (amount_str : pystr) :
  ~ In 45%N amount_str -> (0 <= _parse_amount amount_str)%Q.
Proof.
  intros Hm. unfold _parse_amount.
  destruct (is_empty amount_str || is_empty (strip amount_str))%bool;
    [apply Qle_refl|].
  match goal with |- (0 <= match float ?x with _ => _ end)%Q =>
    destruct (float x) as [q|] eqn:F; [|apply Qle_refl];
    apply (float_nonneg x); [|exact F] end.
  intros H.
  apply in_replace_char in H. destruct H as [H|H]; [|vm_compute in H; intuition discriminate].
  apply in_replace_char in H. destruct H as [H|[]].
  apply in_strip, in_replace_char in H. destruct H as [H|[]].
  now apply in_strip in H.
Qed.

Lemma class_no_minus (g : pystr) :
  forallb digit_dot_comma g = true -> ~ In 45%N g.
Proof.
  intros F H. rewrite forallb_forall in F. specialize (F _ H).
  vm_compute in F. discriminate.
Qed.

(** A match of one of the balance patterns: the amount group has no minus
    sign, and the text matched ends in the euro sign. *)
Lemma saldo_pattern_groups (label t rest : pystr) (gs : list pystr) :
  captures (saldo_pattern label) t rest gs ->
  ~ In 45%N (nth 1 gs []) /\ In euro t.
Proof.
  unfold saldo_pattern. cbn [captures].
  intros (a1 & b1 & g1 & h1 & -> & -> & (-> & _) & a2 & b2 & g2 & h2 & -> & ->
          & (-> & _) & a3 & b3 & g3 & h3 & -> & -> & C3 & a4 & b4 & g4 & h4 & -> & ->
          & (-> & _) & a5 & b5 & g5 & h5 & -> & -> & C5 & a6 & b6 & g6 & h6 & -> & ->
          & (-> & _) & (-> & M)).
  match type of C3 with ?P =>
    change P with (captures (Re.Grp (Re.Rep isdigit 2 >> Re.Lit (str "/")
                     >> Re.Rep isdigit 2 >> Re.Lit (str "/") >> Re.Rep isdigit 4))
                     a3 ((a4 ++ a5 ++ a6 ++ b6) ++ rest) g3) in C3 end.
  apply captures_group in C3; [|reflexivity]. destruct C3 as [-> _].
  match type of C5 with ?P =>
    change P with (captures (Re.Grp (Re.Plus digit_dot_comma))
                     a5 ((a6 ++ b6) ++ rest) g5) in C5 end.
  apply captures_group in C5; [|reflexivity]. destruct C5 as [-> M5].
  cbn [matched] in M, M5. subst b6. cbn [app nth]. split.
  - apply class_no_minus, M5.
  - repeat (apply in_or_app; right). now left.
Qed.

Lemma totale_pattern_groups (label t rest : pystr) (gs : list pystr) :
  captures (totale_pattern label) t rest gs ->
  ~ In 45%N (nth 0 gs []) /\ In euro t.
Proof.
  unfold totale_pattern. cbn [captures].
  intros (a1 & b1 & g1 & h1 & -> & -> & (-> & _) & a2 & b2 & g2 & h2 & -> & ->
          & (-> & _) & a5 & b5 & g5 & h5 & -> & -> & C5 & a6 & b6 & g6 & h6 & -> & ->
          & (-> & _) & (-> & M)).
  match type of C5 with ?P =>
    change P with (captures (Re.Grp (Re.Plus digit_dot_comma))
                     a5 ((a6 ++ b6) ++ rest) g5) in C5 end.
  apply captures_group in C5; [|reflexivity]. destruct C5 as [-> M5].
  cbn [matched] in M, M5. subst b6. cbn [app nth]. split.
  - apply class_no_minus, M5.
  - repeat (apply in_or_app; right). now left.
Qed.

Lemma balance_of_search (label text : pystr) (b : Summary.balance) :
  balance_of (Re.search_groups (saldo_pattern label) text) = Some b ->
  (0 <= Summary.importo b)%Q
  /\ (forall d, Summary.data b = Some d -> calendar_day d)
  /\ In euro text.
Proof.
  unfold balance_of.
  destruct (Re.search_groups (saldo_pattern label) text) as [gs|] eqn:S;
    [|discriminate].
  intros [= <-]. cbn [Summary.importo Summary.data].
  destruct (search_groups_sound _ _ _ S) as (before & t & rest & -> & C).
  destruct (saldo_pattern_groups _ _ _ _ C) as [Hm He].
  split; [|split].
  - now apply parse_amount_nonneg.
  - intros d. apply parse_date_calendar.
  - apply in_or_app. right. apply in_or_app. now left.
Qed.

Lemma total_of_search (label text : pystr) (q : Q) :
  total_of (Re.search_groups (totale_pattern label) text) = Some q ->
  (0 <= q)%Q /\ In euro text.
Proof.
  unfold total_of.
  destruct (Re.search_groups (totale_pattern label) text) as [gs|] eqn:S;
    [|discriminate].
  intros [= <-].
  destruct (search_groups_sound _ _ _ S) as (before & t & rest & -> & C).
  destruct (totale_pattern_groups _ _ _ _ C) as [Hm He]. split.
  - now apply parse_amount_nonneg.
  - apply in_or_app. right. apply in_or_app. now left.
Qed.

(** In the summary of a text no balance and no total is negative, a balance
    date that is present is a calendar day, the variation is present
    exactly when both balances are and is then [round(final - initial, 2)]
    on the doubles, and a text without the euro sign has an empty
    summary. *)
Theorem summary_entries (text : pystr) :
  (forall b,
     Summary.saldo_iniziale (_extract_summary text) = Some b
     \/ Summary.saldo_finale (_extract_summary text) = Some b ->
     (0 <= Summary.importo b)%Q
     /\ forall d, Summary.data b = Some d -> calendar_day d)
  /\ (forall q,
        Summary.totale_entrate (_extract_summary text) = Some q
        \/ Summary.totale_uscite (_extract_summary text) = Some q ->
        (0 <= q)%Q)
  /\ (Summary.variazione (_extract_summary text) = None
      <-> Summary.saldo_iniziale (_extract_summary text) = None
          \/ Summary.saldo_finale (_extract_summary text) = None)
  /\ (forall i f,
        Summary.saldo_iniziale (_extract_summary text) = Some i ->
        Summary.saldo_finale (_extract_summary text) = Some f ->
        Summary.variazione (_extract_summary text)
        = Some (Binary64.round2
                  (Binary64.sub (Binary64.rn (Summary.importo f))
                     (Binary64.rn (Summary.importo i)))))
  /\ (~ In euro text -> _extract_summary text = empty_summary).
Proof.
  unfold _extract_summary, saldo_iniziale, saldo_finale, totale_entrate_pattern,
    totale_uscite_pattern.
  cbn [Summary.saldo_iniziale Summary.saldo_finale Summary.totale_entrate
       Summary.totale_uscite Summary.variazione].
  split; [|split; [|split; [|split]]].
  - intros b H. split.
    + destruct H as [H|H]; now apply balance_of_search in H.
    + destruct H as [H|H]; apply balance_of_search in H;
        destruct H as (_ & H & _); exact H.
  - intros q [H|H]; now apply total_of_search in H.
  - split.
    + destruct (balance_of (Re.search_groups
                  (saldo_pattern (str "Saldo iniziale al")) text)) as [i|];
        [|now left].
      destruct (balance_of (Re.search_groups
                  (saldo_pattern (str "Saldo finale al")) text)) as [f|];
        [discriminate | now right].
    + intros [H|H]; rewrite H; [reflexivity|].
      now destruct (balance_of (Re.search_groups
                      (saldo_pattern (str "Saldo iniziale al")) text)).
  - intros i f Hi Hf. now rewrite Hi, Hf.
  - intros He.
    destruct (balance_of (Re.search_groups (saldo_pattern (str "Saldo iniziale al")) text))
      as [b|] eqn:B1; [apply balance_of_search in B1; tauto|].
    destruct (balance_of (Re.search_groups (saldo_pattern (str "Saldo finale al")) text))
      as [b|] eqn:B2; [apply balance_of_search in B2; tauto|].
    destruct (total_of (Re.search_groups (totale_pattern (str "Totale Entrate")) text))
      as [q|] eqn:T1; [apply total_of_search in T1; tauto|].
    destruct (total_of (Re.search_groups (totale_pattern (str "Totale Uscite")) text))
      as [q|] eqn:T2; [apply total_of_search in T2; tauto|].
    reflexivity.
Qed.

(** A final balance of 0,015 after an initial balance of 0,00: the double
    nearest to 0.015 is below it, so the variation is 0.01. *)
Example summary_variation_rounds_the_double :
  Summary.variazione
    (_extract_summary
       (str "Saldo iniziale al 01/01/2024 0,00 " ++ [euro; newline]
        ++ str "Saldo finale al 31/03/2024 0,015 " ++ [euro]))
  = Some (Binary64.rn (1 # 100)).
Proof. vm_compute. reflexivity. Qed.

(** *** Statistics in floating point *)

(** The fields of a result, read off the function. *)
Lemma float_statistics_fields (builtin_sum : list Q -> Q)
    (txs : list Transaction) (s : Statistics) :
  InFloats._calculate_statistics builtin_sum txs = Ok (Some s) ->
  txs <> []
  /\ numero_transazioni s = length txs
  /\ numero_entrate s = length (InFloats.entrate txs)
  /\ numero_uscite s = length (InFloats.uscite txs)
  /\ InFloats.category_loop txs [] = Ok (categorie s).
Proof.
  unfold InFloats._calculate_statistics. destruct txs as [|t l]; [discriminate|].
  cbv zeta. rewrite !py_count_ones. intros H.
  apply bind_ok in H. destruct H as (e & _ & H).
  apply bind_ok in H. destruct H as (u & _ & H).
  apply bind_ok in H. destruct H as (cats & C & H).
  injection H as <-.
  cbn [numero_transazioni numero_entrate numero_uscite categorie].
  repeat split; try reflexivity; try assumption. discriminate.
Qed.


Lemma modify_count (cat : pystr) (f : CategoryStats -> CategoryStats)
    (d : list (pystr * CategoryStats)) :
  (forall c, numero (f c) = numero c + 1) ->
  has_key cat d = true ->
  table_count (modify cat f d) = table_count d + 1.
Proof.
  intros Hf H. unfold table_count.
  induction d as [|[k v] d IH]; [discriminate|].
  cbn [has_key] in H. cbn [modify]. destruct (pystr_eqb k cat).
  - cbn [map fold_right snd]. rewrite Hf. lia.
  - cbn [map fold_right snd]. rewrite (IH H). lia.
Qed.

Lemma float_add_to_category_count (cats : list (pystr * CategoryStats))
    (t : Transaction) :
  numbered t ->
  exists cats',
    InFloats.add_to_category cats t = Ok cats'
    /\ table_count cats' = table_count cats + 1.
Proof.
  intros Hn. unfold InFloats.add_to_category, numbered in *.
  destruct (numero_progressivo t) as [n|]; [|now elim Hn].
  eexists. split; [reflexivity|]. fold (category_of t).
  destruct (has_key (category_of t) cats) eqn:K.
  - apply modify_count; [reflexivity | assumption].
  - rewrite modify_count; [|reflexivity | apply has_key_app].
    now rewrite (proj2 (table_total_app cats (category_of t))).
Qed.

Lemma float_category_loop_count (txs : list Transaction) :
  Forall numbered txs ->
  forall cats,
  exists cats',
    InFloats.category_loop txs cats = Ok cats'
    /\ table_count cats' = table_count cats + length txs.
Proof.
  induction 1 as [|t txs Ht _ IH]; intros cats.
  - exists cats. cbn [InFloats.category_loop length]. split; [reflexivity | lia].
  - destruct (float_add_to_category_count cats t Ht) as (c1 & E1 & C1).
    destruct (IH c1) as (c2 & E2 & C2).
    exists c2. cbn [InFloats.category_loop]. rewrite E1. cbn [bind].
    split; [assumption|]. rewrite C2, C1. cbn [length]. lia.
Qed.

Lemma running_total_app (l : list Transaction) (t : Transaction) :
  running_total (l ++ [t])
  = Binary64.add (running_total l) (InFloats.importo_float t).
Proof.
  unfold running_total. now rewrite map_app, fold_left_app.
Qed.

Lemma rollup_of_add (r : CategoryStats) (l : list Transaction)
    (t : Transaction) (n : nat) :
  rollup_of r l -> numero_progressivo t = Some n ->
  rollup_of (mkCategoryStats (numero r + 1)
               (Binary64.add (totale r) (InFloats.importo_float t))
               (transazioni r ++ [n]))
            (l ++ [t]).
Proof.
  intros (N & T & S) Hn. unfold rollup_of. cbn [numero totale transazioni].
  rewrite length_app, !map_app, running_total_app. cbn [length map].
  repeat split.
  - lia.
  - now rewrite T.
  - now rewrite S, Hn.
Qed.

(** One turn of the category loop keeps the table that of the records seen. *)
Lemma float_add_to_category_rollups (cats cats' : list (pystr * CategoryStats))
    (done : list Transaction) (t : Transaction) :
  rollups_of cats done ->
  InFloats.add_to_category cats t = Ok cats' ->
  rollups_of cats' (done ++ [t]).
Proof.
  intros [Nd Inv]. unfold InFloats.add_to_category. fold (category_of t).
  destruct (numero_progressivo t) as [n|] eqn:Hn; [|discriminate].
  intros [= <-]. set (cat := category_of t).
  set (f := fun c : CategoryStats =>
              mkCategoryStats (numero c + 1)
                (Binary64.add (totale c) (InFloats.importo_float t))
                (transazioni c ++ [n])).
  assert (New : rollup_of (mkCategoryStats 0 0%Q []) []).
  { unfold rollup_of. cbn. repeat split; reflexivity. }
  split.
  - rewrite modify_keys. rewrite entry_has_key.
    destruct (entry cat cats) as [r|] eqn:E; [assumption|].
    rewrite map_app. cbn [map fst].
    apply NoDup_app; [assumption | repeat constructor; intros [] |].
    intros x Hx [<-|[]]. now apply (entry_not_in _ _ E).
  - intros c. rewrite entry_modify, in_category_app. fold cat.
    specialize (Inv c). rewrite entry_has_key.
    destruct (pystr_eqb cat c) eqn:Ec.
    + apply pystr_eqb_eq in Ec. subst c.
      destruct (entry cat cats) as [r|] eqn:E.
      * rewrite E. cbn [option_map]. destruct Inv as [_ R]. split.
        { intros H. apply app_eq_nil in H. destruct H. discriminate. }
        now apply rollup_of_add.
      * rewrite entry_app, E, pystr_eqb_refl. cbn [option_map].
        rewrite Inv. cbn [app]. split; [discriminate|].
        now apply (rollup_of_add _ [] t n New).
    + rewrite app_nil_r.
      destruct (entry cat cats) as [r|] eqn:E; [exact Inv|].
      rewrite entry_app, Ec. now destruct (entry c cats).
Qed.

Lemma float_category_loop_rollups (txs : list Transaction) :
  forall (cats cats' : list (pystr * CategoryStats)) (done : list Transaction),
  rollups_of cats done ->
  InFloats.category_loop txs cats = Ok cats' ->
  rollups_of cats' (done ++ txs).
Proof.
  induction txs as [|t txs IH]; intros cats cats' done Inv;
    cbn [InFloats.category_loop].
  - intros [= <-]. now rewrite app_nil_r.
  - intros H. apply bind_ok in H. destruct H as (c1 & A & H).
    replace (done ++ t :: txs) with ((done ++ [t]) ++ txs)
      by (now rewrite <- app_assoc).
    apply (IH c1); [|assumption].
    now apply (float_add_to_category_rollups cats).
Qed.

Lemma rollups_of_result (builtin_sum : list Q -> Q) (txs : list Transaction)
    (s : Statistics) :
  InFloats._calculate_statistics builtin_sum txs = Ok (Some s) ->
  rollups_of (categorie s) txs.
Proof.
  intros H. apply float_statistics_fields in H.
  destruct H as (_ & _ & _ & _ & C).
  apply (float_category_loop_rollups txs [] (categorie s) []) in C;
    [exact C|].
  split; [constructor | now intros c].
Qed.

(** What the aggregator returns for a record set that is not empty and whose
    records carry their sequence numbers. *)
Lemma float_statistics_of_records (builtin_sum : list Q -> Q)
    (t : Transaction) (l : list Transaction) :
  Forall numbered (t :: l) ->
  exists s,
    InFloats._calculate_statistics builtin_sum (t :: l) = Ok (Some s)
    /\ numero_entrate s = length (InFloats.entrate (t :: l))
    /\ totale_entrate s = builtin_sum (InFloats.entrate (t :: l))
    /\ numero_uscite s = length (InFloats.uscite (t :: l))
    /\ totale_uscite s = Qabs (builtin_sum (InFloats.uscite (t :: l)))
    /\ (InFloats.entrate (t :: l) = [] ->
        media_entrate s = 0%Q /\ max_entrata s = 0%Q)
    /\ (InFloats.entrate (t :: l) <> [] ->
        media_entrate s = float_average (totale_entrate s) (numero_entrate s)
        /\ greatest (max_entrata s) (InFloats.entrate (t :: l)))
    /\ (InFloats.uscite (t :: l) = [] ->
        media_uscite s = 0%Q /\ max_uscita s = 0%Q)
    /\ (InFloats.uscite (t :: l) <> [] ->
        media_uscite s = float_average (totale_uscite s) (numero_uscite s)
        /\ exists m, least m (InFloats.uscite (t :: l))
                     /\ max_uscita s = Qabs m)
    /\ table_count (categorie s) = length (t :: l).
Proof.
  intros Hn.
  destruct (float_category_loop_count (t :: l) Hn []) as (cats & Ec & Cc).
  unfold InFloats._calculate_statistics. cbv zeta.
  rewrite !py_count_ones. rewrite Ec.
  destruct (InFloats.entrate (t :: l)) as [|x en] eqn:Ein;
    destruct (InFloats.uscite (t :: l)) as [|y us] eqn:Eus.
  all: cbn [length Nat.ltb Nat.leb InFloats.py_div bind fst snd].
  all: try (destruct (py_max_greatest x en) as (mx & Emx & Gmx); rewrite Emx).
  all: try (destruct (py_min_least y us) as (mn & Emn & Gmn); rewrite Emn).
  all: cbn [bind fst snd].
  all: eexists; split; [reflexivity|].
  all: cbn [numero_transazioni numero_entrate numero_uscite totale_entrate
            totale_uscite saldo_movimento media_entrate media_uscite
            max_entrata max_uscita categorie].
  all: repeat split; try reflexivity; try congruence; try assumption.
  all: try (intros _; split; [reflexivity | first [assumption | now exists mn]]).
  all: try (exists mn; split; [assumption | reflexivity]).
  all: try (now destruct Gmx).
Qed.

(** C8, counterexample.  The amounts 0,10 and 0,20 in one category and -0,30
    in another.  The rollup totals are the doubles 0.30000000000000004 and
    -0.3, and their sum is 2^-54; the sum of the three net amounts is 2^-55.
    This holds with either algorithm of [sum], and also for the exact sums
    of the doubles. *)
Lemma C8_counterexample :
  totals_and_balance (InFloats._calculate_statistics Binary64.sum_left c8_rounding)
    = ([1351079888211149 # 4503599627370496;
        - (5404319552844595 # 18014398509481984)]%Q,
       (1 # 36028797018963968)%Q)
  /\ totals_and_balance
       (InFloats._calculate_statistics Binary64.sum_compensated c8_rounding)
     = ([1351079888211149 # 4503599627370496;
         - (5404319552844595 # 18014398509481984)]%Q,
        (1 # 36028797018963968)%Q)
  /\ Binary64.sum_left [1351079888211149 # 4503599627370496;
                        - (5404319552844595 # 18014398509481984)]%Q
     = (1 # 18014398509481984)%Q
  /\ Binary64.sum_compensated [1351079888211149 # 4503599627370496;
                               - (5404319552844595 # 18014398509481984)]%Q
     = (1 # 18014398509481984)%Q
  /\ ~ (Qsum [1351079888211149 # 4503599627370496;
              - (5404319552844595 # 18014398509481984)]
        == Qsum (map InFloats.importo_float c8_rounding))%Q.
Proof.
  repeat split; try (vm_compute; reflexivity).
  vm_compute. discriminate.
Qed.

(** C8, as the code has it.  For a record set whose records carry their
    sequence numbers, the aggregator returns, the counts of its category
    rollups add up to the number of records, and the total of each rollup is
    the running floating-point sum of the net amounts of the records of its
    category, in record order. *)
Theorem C8_category_closure (builtin_sum : list Q -> Q) (txs : list Transaction) :
  Forall numbered txs ->
  exists stats,
    InFloats._calculate_statistics builtin_sum txs = Ok stats
    /\ py_count (rollup_counts stats) = length txs
    /\ forall c r,
         entry c (rollups stats) = Some r ->
         totale r = running_total (in_category c txs).
Proof.
  intros Hn. destruct txs as [|t l].
  - exists None. repeat split; try reflexivity. discriminate.
  - destruct (float_statistics_of_records builtin_sum t l Hn)
      as (s & E & _ & _ & _ & _ & _ & _ & _ & _ & C).
    exists (Some s). split; [assumption|]. split.
    + unfold py_count. rewrite py_count_from. exact C.
    + intros c r Hr. destruct (rollups_of_result _ _ _ E) as [_ R].
      specialize (R c). cbn [rollups] in Hr. rewrite Hr in R.
      now destruct R as (_ & _ & T & _).
Qed.

(** C8 on the three records of the counterexample. *)
Lemma C8_category_closure_witness :
  exists stats,
    InFloats._calculate_statistics Binary64.sum_left c8_rounding = Ok stats
    /\ py_count (rollup_counts stats) = length c8_rounding
    /\ forall c r,
         entry c (rollups stats) = Some r ->
         totale r = running_total (in_category c c8_rounding).
Proof.
  apply (C8_category_closure Binary64.sum_left c8_rounding).
  repeat constructor; discriminate.
Defined.




(** The inflows 2,00 and 3,35: the average 2.675 is the double below it, and
    [round] gives 2.67. *)
Example average_rounds_the_double :
  float_average (Binary64.sum_left [Binary64.rn (200 # 100); Binary64.rn (335 # 100)]) 2
  = Binary64.rn (267 # 100).
Proof. vm_compute. reflexivity. Qed.




(** In every statistics result the category table has one entry for each
    category that has a record and no other entry; the entry of a category
    holds the number of its records, the running floating-point sum of
    their net amounts in record order, and their sequence numbers in that
    order. *)
Theorem category_rollups (builtin_sum : list Q -> Q) (txs : list Transaction)
    (s : Statistics) :
  InFloats._calculate_statistics builtin_sum txs = Ok (Some s) ->
  NoDup (map fst (categorie s))
  /\ forall c,
       match entry c (categorie s) with
       | Some r =>
           in_category c txs <> []
           /\ numero r = length (in_category c txs)
           /\ totale r = running_total (in_category c txs)
           /\ map Some (transazioni r)
              = map numero_progressivo (in_category c txs)
       | None => in_category c txs = []
       end.
Proof.
  intros H. exact (rollups_of_result _ _ _ H).
Qed.

(** On the three records of the counterexample of C8. *)
Lemma category_rollups_witness :
  exists s,
    InFloats._calculate_statistics Binary64.sum_left c8_rounding = Ok (Some s)
    /\ NoDup (map fst (categorie s))
    /\ forall c,
         match entry c (categorie s) with
         | Some r =>
             in_category c c8_rounding <> []
             /\ numero r = length (in_category c c8_rounding)
             /\ totale r = running_total (in_category c c8_rounding)
             /\ map Some (transazioni r)
                = map numero_progressivo (in_category c c8_rounding)
         | None => in_category c c8_rounding = []
         end.
Proof.
  eexists. split; [vm_compute; reflexivity|].
  apply (category_rollups Binary64.sum_left c8_rounding).
  vm_compute. reflexivity.
Defined.
